(** * Heatmap losses of mmpose: [mmpose/models/losses/mse_loss.py]

    A shallow embedding of the four loss modules of [mse_loss.py]
    ([KeypointMSELoss], [CombinedTargetMSELoss], [KeypointOHKMMSELoss],
    [CombinedTargetIOULoss]) together with the part of the tensor
    library they call (shapes, broadcasting, [reshape], [split],
    [squeeze], indexing, [nn.MSELoss], [topk], [gather]).

    Modelling conventions.
    - Tensor entries are exact rationals ([Qc]); rounding and overflow
      are outside the model.  The one non-finite value the code can
      produce from finite inputs, the mean of an empty tensor, is kept
      as [NaN] in the scalar type [float].
    - Infinite and NaN entries are the subject of the module [Ieee],
      which has [KeypointMSELoss] and [CombinedTargetMSELoss] on such
      entries; on finite entries it returns what the modules on
      rationals return.
    - A Python exception is a [Raise e] result; the constructor of [e]
      names the Python exception class.
    - A tensor is a shape and an index function; only the entries inside
      the shape are meaningful.
    - The arguments of [forward] have the ranks of its docstring:
      heat maps are 4-dimensional, target weights 2-dimensional or
      [None].
    - torch leaves open which of several equal entries [topk] takes;
      the model fixes one order and the statements hold for every
      selection of largest entries.

    The model comes first, one module per class of the source; the
    vocabulary of the statements follows, then the facts, one module
    per class again, further properties of each class (values at the
    edges of the shapes, exceptions, sign of the losses), and at the
    end the two losses on entries that need not be finite. *)

From Stdlib Require Import List Arith ZArith QArith Qcanon Lia Bool String
  Permutation Sorting.Sorted DecimalString.
Import ListNotations.

Local Open Scope nat_scope.

(* ===================================================================== *)
(** ** Scalars *)
(* ===================================================================== *)

Definition qz (z : Z) : Qc := Q2Qc (inject_Z z).
Definition qn (n : nat) : Qc := qz (Z.of_nat n).

(** The Python literal [0.5]. *)
Definition half : Qc := Q2Qc (1 # 2).

Definition sq (x : Qc) : Qc := (x * x)%Qc.

Definition Qcleb (x y : Qc) : bool :=
  match Qccompare x y with Gt => false | _ => true end.

(** A floating point scalar: a finite value or the NaN that a mean over
    no element yields. *)
Inductive float : Type :=
| Fin (q : Qc)
| NaN.

Definition fadd (a b : float) : float :=
  match a, b with
  | Fin x, Fin y => Fin (x + y)%Qc
  | _, _ => NaN
  end.

Definition fscale (a : float) (q : Qc) : float :=
  match a with
  | Fin x => Fin (x * q)%Qc
  | NaN => NaN
  end.

Definition fdivq (a : float) (q : Qc) : float :=
  match a with
  | Fin x => Fin (x / q)%Qc
  | NaN => NaN
  end.

(** [torch.topk] orders NaN above every number. *)
Definition fleb (a b : float) : bool :=
  match a, b with
  | _, NaN => true
  | NaN, Fin _ => false
  | Fin x, Fin y => Qcleb x y
  end.

Definition qsum (l : list Qc) : Qc := fold_right Qcplus 0%Qc l.
Definition fsum (l : list float) : float := fold_right fadd (Fin 0%Qc) l.

(** [sum_n n f] is f 0 + ... + f (n-1). *)
Definition sum_n (n : nat) (f : nat -> Qc) : Qc := qsum (map f (seq 0 n)).

(* ===================================================================== *)
(** ** Exceptions and the error monad *)
(* ===================================================================== *)

Inductive runtime_error : Type :=
| BroadcastMismatch   (* sizes of two operands do not broadcast *)
| ReshapeInvalid      (* reshape to a shape of another size, or -1 ambiguous *)
| BoolAmbiguous       (* bool() of a tensor without exactly one element *)
| BoolSubtract        (* the - operator on a bool tensor *)
| CatEmpty            (* torch.cat of an empty list *)
| CatSizes
| StackEmpty
| StackSizes
| TopkOutOfRange.

Inductive exn : Type :=
| AssertionError
| ValueError (msg : string)
| ZeroDivisionError
| TypeError
| IndexError
| RuntimeError (r : runtime_error).

Inductive result (A : Type) : Type :=
| Ok (a : A)
| Raise (e : exn).
Arguments Ok {A} a.
Arguments Raise {A} e.

Definition bind {A B} (c : result A) (k : A -> result B) : result B :=
  match c with
  | Ok a => k a
  | Raise e => Raise e
  end.

Notation "x <- c ;; k" := (bind c (fun x => k))
  (at level 61, c at next level, right associativity).
Notation "' p <- c ;; k" := (bind c (fun x => match x with p => k end))
  (at level 61, p pattern, c at next level, right associativity).

Definition rmap {A B} (f : A -> B) (c : result A) : result B :=
  x <- c ;; Ok (f x).

(** A Python [for x in xs:] loop whose body updates the loop state [s]
    and may raise. *)
Fixpoint for_each {A S : Type} (xs : list A) (body : A -> S -> result S)
  (s : S) : result S :=
  match xs with
  | [] => Ok s
  | x :: xs' => s' <- body x s ;; for_each xs' body s'
  end.

Definition range (n : nat) : list nat := seq 0 n.

(** Indexing a Python list or tuple. *)
Definition py_getitem {A} (l : list A) (i : nat) : result A :=
  match nth_error l i with
  | Some a => Ok a
  | None => Raise IndexError
  end.

(* ===================================================================== *)
(** ** Tensors *)
(* ===================================================================== *)

Module Torch.

Record Tensor (A : Type) : Type := mkTensor {
  shape : list nat;
  data : list nat -> A
}.
Arguments mkTensor {A} shape data.
Arguments shape {A} t.
Arguments data {A} t idx.

Definition ndim {A} (t : Tensor A) : nat := List.length (shape t).

Definition numel (s : list nat) : nat := fold_right Nat.mul 1 s.

(** All multi-indices of a shape, in row-major order. *)
Fixpoint indices (s : list nat) : list (list nat) :=
  match s with
  | [] => [[]]
  | d :: s' => flat_map (fun i => map (cons i) (indices s')) (seq 0 d)
  end.

Definition to_list {A} (t : Tensor A) : list A :=
  map (data t) (indices (shape t)).

(** Position of a multi-index in row-major order and its inverse. *)
Fixpoint ravel (s idx : list nat) : nat :=
  match s, idx with
  | _ :: s', i :: idx' => i * numel s' + ravel s' idx'
  | _, _ => 0
  end.

Fixpoint unravel (s : list nat) (k : nat) : list nat :=
  match s with
  | [] => []
  | _ :: s' => (k / numel s') :: unravel s' (k mod numel s')
  end.

(** [t.size(i)] *)
Definition size {A} (t : Tensor A) (i : nat) : result nat :=
  match nth_error (shape t) i with
  | Some d => Ok d
  | None => Raise IndexError
  end.

(** *** Broadcasting *)

Definition bdim (a b : nat) : option nat :=
  if a =? b then Some a
  else if a =? 1 then Some b
  else if b =? 1 then Some a
  else None.

(** Shapes are aligned at their last dimension: the recursion runs over
    the reversed shapes. *)
Fixpoint bshape_rev (s1 s2 : list nat) : option (list nat) :=
  match s1, s2 with
  | [], _ => Some s2
  | _, [] => Some s1
  | a :: r1, b :: r2 =>
      match bdim a b, bshape_rev r1 r2 with
      | Some d, Some r => Some (d :: r)
      | _, _ => None
      end
  end.

Definition broadcast_shapes (s1 s2 : list nat) : option (list nat) :=
  option_map (@rev nat) (bshape_rev (rev s1) (rev s2)).

(** The entry of an operand of shape [s] that a result index reads: a
    dimension of size 1 is read at 0, missing leading dimensions are
    dropped. *)
Fixpoint bidx_rev (s idx : list nat) : list nat :=
  match s, idx with
  | d :: s', i :: idx' => (if d =? 1 then 0 else i) :: bidx_rev s' idx'
  | _, _ => []
  end.

Definition bidx (s idx : list nat) : list nat :=
  rev (bidx_rev (rev s) (rev idx)).

(** An elementwise binary operation with broadcasting. *)
Definition map2 {A B C} (f : A -> B -> C) (a : Tensor A) (b : Tensor B)
  : result (Tensor C) :=
  match broadcast_shapes (shape a) (shape b) with
  | Some s =>
      Ok (mkTensor s (fun i => f (data a (bidx (shape a) i))
                                 (data b (bidx (shape b) i))))
  | None => Raise (RuntimeError BroadcastMismatch)
  end.

Definition tmap {A B} (f : A -> B) (a : Tensor A) : Tensor B :=
  mkTensor (shape a) (fun i => f (data a i)).

Definition mul := map2 Qcmult.
Definition add := map2 Qcplus.

(** [a > b] *)
Definition gt := map2 (fun x y : Qc => negb (Qcleb x y)).

(** [a == 0] *)
Definition eq_zero (a : Tensor Qc) : Tensor bool :=
  tmap (fun x => Qc_eq_bool x 0%Qc) a.

(** [bool(t)], as taken by an [if]. *)
Definition tensor_bool (t : Tensor bool) : result bool :=
  if numel (shape t) =? 1 then Ok (data t (repeat 0 (ndim t)))
  else Raise (RuntimeError BoolAmbiguous).

(** [1 - mask] for a mask produced by a comparison: subtraction is not
    defined on bool tensors. *)
Definition rsub_bool (c : Qc) (mask : Tensor bool) : result (Tensor bool) :=
  Raise (RuntimeError BoolSubtract).

(** [torch.ones(n) * c] *)
Definition ones_times (n : nat) (c : Qc) : Tensor Qc :=
  mkTensor [n] (fun _ => (1 * c)%Qc).

(** *** Reductions *)

Definition tsum (t : Tensor Qc) : Qc := qsum (to_list t).

(** [t.mean()]: NaN on an empty tensor. *)
Definition tmean (t : Tensor Qc) : float :=
  if numel (shape t) =? 0 then NaN
  else Fin (tsum t / qn (numel (shape t)))%Qc.

(** [t.mean(dim=(1, 2))] of a tensor of at least three dimensions. *)
Definition mean_dims12 (t : Tensor Qc) : result (Tensor float) :=
  match shape t with
  | d0 :: d1 :: d2 :: rest =>
      Ok (mkTensor (d0 :: rest) (fun idx =>
        match idx with
        | i :: r =>
            tmean (mkTensor [d1; d2] (fun jk =>
              match jk with
              | [j; k] => data t (i :: j :: k :: r)
              | _ => 0%Qc
              end))
        | [] => NaN
        end))
  | _ => Raise IndexError
  end.

(** [nn.MSELoss(reduction='none')]: operands of different sizes are
    broadcast. *)
Definition mse_none (input target : Tensor Qc) : result (Tensor Qc) :=
  map2 (fun x y => sq (x - y)%Qc) input target.

(** [nn.MSELoss(reduction='mean')] *)
Definition mse_mean (input target : Tensor Qc) : result float :=
  d <- mse_none input target ;; Ok (tmean d).

(** *** Views *)

(** [t.reshape((b, c, -1))] *)
Definition reshape3 {A} (t : Tensor A) (b c : nat) : result (Tensor A) :=
  let n := numel (shape t) in
  if b * c =? 0 then Raise (RuntimeError ReshapeInvalid)
  else if n mod (b * c) =? 0 then
    let s := [b; c; n / (b * c)] in
    Ok (mkTensor s (fun idx => data t (unravel (shape t) (ravel s idx))))
  else Raise (RuntimeError ReshapeInvalid).

(** [t.split(1, 1)]: one tensor per index of dimension 1, that dimension
    kept with size 1. *)
Definition split_1_1 {A} (t : Tensor A) : result (list (Tensor A)) :=
  match shape t with
  | d0 :: d1 :: rest =>
      Ok (map (fun j =>
            mkTensor (d0 :: 1 :: rest) (fun idx =>
              match idx with
              | i :: _ :: r => data t (i :: j :: r)
              | _ => data t idx
              end))
          (seq 0 d1))
  | _ => Raise IndexError
  end.

(** [t.squeeze()]: every dimension of size 1 is removed. *)
Fixpoint squeeze_shape (s : list nat) : list nat :=
  match s with
  | [] => []
  | d :: s' => if d =? 1 then squeeze_shape s' else d :: squeeze_shape s'
  end.

Fixpoint unsqueeze_idx (s idx : list nat) : list nat :=
  match s with
  | [] => []
  | d :: s' =>
      if d =? 1 then 0 :: unsqueeze_idx s' idx
      else match idx with
           | i :: idx' => i :: unsqueeze_idx s' idx'
           | [] => 0 :: unsqueeze_idx s' []
           end
  end.

Definition squeeze {A} (t : Tensor A) : Tensor A :=
  mkTensor (squeeze_shape (shape t))
           (fun idx => data t (unsqueeze_idx (shape t) idx)).

(** [t.unsqueeze(-1)] *)
Definition unsqueeze_last {A} (t : Tensor A) : Tensor A :=
  mkTensor (shape t ++ [1]) (fun idx => data t (removelast idx)).

(** [t[:, j]] *)
Definition select1 {A} (t : Tensor A) (j : nat) : result (Tensor A) :=
  match shape t with
  | d0 :: d1 :: rest =>
      if j <? d1 then
        Ok (mkTensor (d0 :: rest) (fun idx =>
              match idx with
              | i :: r => data t (i :: j :: r)
              | [] => data t idx
              end))
      else Raise IndexError
  | _ => Raise IndexError
  end.

(** [t.unsqueeze(1)] *)
Definition unsqueeze1 {A} (t : Tensor A) : result (Tensor A) :=
  match shape t with
  | d0 :: rest =>
      Ok (mkTensor (d0 :: 1 :: rest) (fun idx =>
            match idx with
            | i :: _ :: r => data t (i :: r)
            | _ => data t idx
            end))
  | [] => Raise IndexError
  end.

(** [t[:, j, None]] *)
Definition select1_none {A} (t : Tensor A) (j : nat) : result (Tensor A) :=
  c <- select1 t j ;; unsqueeze1 c.

(** [t[:, j, None, None]] *)
Definition select1_none_none {A} (t : Tensor A) (j : nat)
  : result (Tensor A) :=
  c <- select1 t j ;; c1 <- unsqueeze1 c ;; unsqueeze1 c1.

(** [t[i]] *)
Definition select0 {A} (t : Tensor A) (i : nat) : result (Tensor A) :=
  match shape t with
  | d0 :: rest =>
      if i <? d0 then Ok (mkTensor rest (fun idx => data t (i :: idx)))
      else Raise IndexError
  | [] => Raise IndexError
  end.

(** *** Selection *)

Definition of_list {A} (d : A) (l : list A) : Tensor A :=
  mkTensor [List.length l] (fun idx => nth (hd 0 idx) l d).

Section TopK.
Context {A : Type} (leb : A -> A -> bool).

(** Insertion into a list of (index, value) pairs kept in descending
    order of the values. *)
Fixpoint insert_desc (p : nat * A) (l : list (nat * A))
  : list (nat * A) :=
  match l with
  | [] => [p]
  | q :: l' =>
      if leb (snd p) (snd q) then q :: insert_desc p l' else p :: l
  end.

Definition sort_desc (l : list (nat * A)) : list (nat * A) :=
  fold_right insert_desc [] l.

Definition enumerate (l : list A) : list (nat * A) :=
  combine (seq 0 (List.length l)) l.

(** The [k] first entries of the descending order, with their
    positions. *)
Definition top_entries (l : list A) (k : nat) : list (nat * A) :=
  firstn k (sort_desc (enumerate l)).

(** [torch.topk(t, k=k, dim=0, sorted=False)] on a 1-dimensional
    tensor: the values and the indices of [k] largest entries.  Which
    of several equal entries is taken is not specified by torch; the
    model takes the first [k] of one descending order. *)
Definition topk (t : Tensor A) (k : nat)
  : result (Tensor A * Tensor nat) :=
  let l := to_list t in
  if List.length l <? k then Raise (RuntimeError TopkOutOfRange)
  else
    let top := top_entries l k in
    Ok (of_list (data t [0]) (map snd top), of_list 0 (map fst top)).

(** [torch.gather(t, 0, index)] on 1-dimensional tensors. *)
Definition gather0 (t : Tensor A) (index : Tensor nat) : Tensor A :=
  mkTensor (shape index) (fun i => data t [data index i]).
End TopK.

(** [torch.sum(t)] on a tensor that may hold NaN. *)
Definition tfsum (t : Tensor float) : float := fsum (to_list t).

(** [t[mask]] for a mask of the shape of [t]: the selected entries, in
    row-major order. *)
Definition mask_index {A} (t : Tensor A) (mask : Tensor bool)
  : result (Tensor A) :=
  if list_eq_dec Nat.eq_dec (shape t) (shape mask) then
    let sel := filter (data mask) (indices (shape t)) in
    Ok (mkTensor [List.length sel]
                 (fun i => data t (nth (hd 0 i) sel [])))
  else Raise IndexError.

(** *** Joining *)

Definition same_shape {A} (t0 t : Tensor A) : bool :=
  if list_eq_dec Nat.eq_dec (shape t0) (shape t) then true else false.

(** [torch.stack(ts, dim=-1)] *)
Definition stack_last {A} (ts : list (Tensor A)) : result (Tensor A) :=
  match ts with
  | [] => Raise (RuntimeError StackEmpty)
  | t0 :: _ =>
      if forallb (same_shape t0) ts then
        Ok (mkTensor (shape t0 ++ [List.length ts])
              (fun idx => data (nth (last idx 0) ts t0) (removelast idx)))
      else Raise (RuntimeError StackSizes)
  end.

(** The entry [i :: r] (for [cat0]) or [_ :: i :: r] (for [cat1]) of a
    concatenation, found by walking the pieces; [dim] reads the size of
    the concatenated dimension of a piece. *)
Fixpoint cat_pick {A} (dim : Tensor A -> nat) (ts : list (Tensor A))
  (i : nat) (k : Tensor A -> nat -> A) (d : A) : A :=
  match ts with
  | [] => d
  | t :: ts' =>
      if i <? dim t then k t i else cat_pick dim ts' (i - dim t) k d
  end.

Definition dim_at {A} (n : nat) (t : Tensor A) : nat := nth n (shape t) 0.

Definition sum_nat (l : list nat) : nat := fold_right Nat.add 0 l.

(** [torch.cat(ts, dim=0)] *)
Definition cat0 {A} (ts : list (Tensor A)) : result (Tensor A) :=
  match ts with
  | [] => Raise (RuntimeError CatEmpty)
  | t0 :: _ =>
      match shape t0 with
      | [] => Raise (RuntimeError CatSizes)
      | _ :: rest =>
          if forallb (fun t =>
               if list_eq_dec Nat.eq_dec (tl (shape t)) rest
               then negb (ndim t =? 0) else false) ts
          then
            Ok (mkTensor (sum_nat (map (dim_at 0) ts) :: rest)
                  (fun idx => cat_pick (dim_at 0) ts (hd 0 idx)
                     (fun t i => data t (i :: tl idx)) (data t0 idx)))
          else Raise (RuntimeError CatSizes)
      end
  end.

(** [torch.cat(ts, dim=1)] *)
Definition cat1 {A} (ts : list (Tensor A)) : result (Tensor A) :=
  match ts with
  | [] => Raise (RuntimeError CatEmpty)
  | t0 :: _ =>
      match shape t0 with
      | d0 :: _ :: rest =>
          if forallb (fun t =>
               match shape t with
               | d :: _ :: r =>
                   if list_eq_dec Nat.eq_dec (d :: r) (d0 :: rest)
                   then true else false
               | _ => false
               end) ts
          then
            Ok (mkTensor (d0 :: sum_nat (map (dim_at 1) ts) :: rest)
                  (fun idx => cat_pick (dim_at 1) ts (nth 1 idx 0)
                     (fun t j => data t (hd 0 idx :: j :: tl (tl idx)))
                     (data t0 idx)))
          else Raise (RuntimeError CatSizes)
      | _ => Raise IndexError
      end
  end.

(** *** Arguments of the documented ranks *)

(** Heat maps: a tensor of shape [[B, K, H, W]]. *)
Record Heatmaps : Type := mkHeatmaps {
  hm_B : nat;
  hm_K : nat;
  hm_H : nat;
  hm_W : nat;
  hm_at : nat -> nat -> nat -> nat -> Qc
}.

(** Target weights: a tensor of shape [[B, K]]. *)
Record Weights : Type := mkWeights {
  tw_B : nat;
  tw_K : nat;
  tw_at : nat -> nat -> Qc
}.

Definition heatmaps_tensor (x : Heatmaps) : Tensor Qc :=
  mkTensor [hm_B x; hm_K x; hm_H x; hm_W x]
    (fun idx =>
       match idx with
       | [b; k; h; w] => hm_at x b k h w
       | _ => 0%Qc
       end).

Definition weights_tensor (x : Weights) : Tensor Qc :=
  mkTensor [tw_B x; tw_K x]
    (fun idx =>
       match idx with
       | [b; k] => tw_at x b k
       | _ => 0%Qc
       end).

End Torch.

Import Torch.

(* ===================================================================== *)
(** ** [KeypointMSELoss] *)
(* ===================================================================== *)

Module KeypointMSELoss.

Record t : Type := mk {
  use_target_weight : bool;
  loss_weight : Qc
}.

Definition forward (self : t) (output target : Heatmaps)
  (target_weights : option Weights) : result float :=
  let output := heatmaps_tensor output in
  let target := heatmaps_tensor target in
  loss <-
    (if use_target_weight self then
       match target_weights with
       | None => Raise AssertionError
       | Some tw =>
           let target_weights := weights_tensor tw in
           if ndim output <? ndim target_weights then Raise AssertionError
           else
             let target_weights :=
               Nat.iter (ndim output - ndim target_weights)
                        unsqueeze_last target_weights in
             a <- mul output target_weights ;;
             b <- mul target target_weights ;;
             mse_mean a b
       end
     else mse_mean output target) ;;
  Ok (fscale loss (loss_weight self)).

End KeypointMSELoss.

(* ===================================================================== *)
(** ** [CombinedTargetMSELoss] *)
(* ===================================================================== *)

Module CombinedTargetMSELoss.

Record t : Type := mk {
  use_target_weight : bool;
  loss_weight : Qc
}.

(** The six maps of keypoint [idx] (lines 117 to 126 of the source):
    classification, x offset and y offset, predicted and ground truth,
    each squeezed, the classification maps multiplied by the weight of
    the keypoint when weighting is enabled. *)
Record maps : Type := mkMaps {
  heatmap_pred : Tensor Qc;
  heatmap_gt : Tensor Qc;
  offset_x_pred : Tensor Qc;
  offset_x_gt : Tensor Qc;
  offset_y_pred : Tensor Qc;
  offset_y_gt : Tensor Qc
}.

Definition keypoint_maps (use_target_weight : bool)
  (heatmaps_pred heatmaps_gt : list (Tensor Qc))
  (target_weights : option Weights) (idx : nat) : result maps :=
  hp <- py_getitem heatmaps_pred (idx * 3) ;;
  hg <- py_getitem heatmaps_gt (idx * 3) ;;
  oxp <- py_getitem heatmaps_pred (idx * 3 + 1) ;;
  oxg <- py_getitem heatmaps_gt (idx * 3 + 1) ;;
  oyp <- py_getitem heatmaps_pred (idx * 3 + 2) ;;
  oyg <- py_getitem heatmaps_gt (idx * 3 + 2) ;;
  let m := mkMaps (squeeze hp) (squeeze hg) (squeeze oxp) (squeeze oxg)
                  (squeeze oyp) (squeeze oyg) in
  if use_target_weight then
    match target_weights with
    | None => Raise TypeError
    | Some tw =>
        target_weight <- select1_none (weights_tensor tw) idx ;;
        hp' <- mul (heatmap_pred m) target_weight ;;
        hg' <- mul (heatmap_gt m) target_weight ;;
        Ok (mkMaps hp' hg' (offset_x_pred m) (offset_x_gt m)
                   (offset_y_pred m) (offset_y_gt m))
    end
  else Ok m.

(** [x.reshape((batch_size, num_channels, -1)).split(1, 1)] *)
Definition split_channels (x : Tensor Qc) (batch_size num_channels : nat)
  : result (list (Tensor Qc)) :=
  r <- reshape3 x batch_size num_channels ;; split_1_1 r.

(** [self.criterion(heatmap_pred, heatmap_gt)] *)
Definition classification_mse (m : maps) : result float :=
  mse_mean (heatmap_pred m) (heatmap_gt m).

(** [self.criterion(heatmap_gt * offset_pred, heatmap_gt * offset_gt)] *)
Definition regression_mse (hg offset_pred offset_gt : Tensor Qc)
  : result float :=
  a <- mul hg offset_pred ;;
  b <- mul hg offset_gt ;;
  mse_mean a b.

Definition forward (self : t) (output target : Heatmaps)
  (target_weights : option Weights) : result float :=
  let output := heatmaps_tensor output in
  let target := heatmaps_tensor target in
  batch_size <- size output 0 ;;
  num_channels <- size output 1 ;;
  heatmaps_pred <- split_channels output batch_size num_channels ;;
  heatmaps_gt <- split_channels target batch_size num_channels ;;
  let num_joints := num_channels / 3 in
  loss <- for_each (range num_joints)
    (fun idx loss =>
       m <- keypoint_maps (use_target_weight self) heatmaps_pred
              heatmaps_gt target_weights idx ;;
       (* classification loss *)
       c <- classification_mse m ;;
       let loss := fadd loss (fscale c half) in
       (* regression loss *)
       rx <- regression_mse (heatmap_gt m) (offset_x_pred m)
               (offset_x_gt m) ;;
       let loss := fadd loss (fscale rx half) in
       ry <- regression_mse (heatmap_gt m) (offset_y_pred m)
               (offset_y_gt m) ;;
       Ok (fadd loss (fscale ry half)))
    (Fin 0%Qc) ;;
  if num_joints =? 0 then Raise ZeroDivisionError
  else Ok (fscale (fdivq loss (qn num_joints)) (loss_weight self)).

End CombinedTargetMSELoss.

(* ===================================================================== *)
(** ** [KeypointOHKMMSELoss] *)
(* ===================================================================== *)

Module KeypointOHKMMSELoss.

Record t : Type := mk {
  use_target_weight : bool;
  topk : nat;
  loss_weight : Qc
}.

(** The constructor asserts [topk > 0]; the values of [t] that [forward]
    and [_ohkm] receive are built by it. *)
Definition __init__ (use_target_weight : bool) (topk : nat)
  (loss_weight : Qc) : result t :=
  if 0 <? topk then Ok (mk use_target_weight topk loss_weight)
  else Raise AssertionError.

Definition show_nat (n : nat) : string :=
  NilEmpty.string_of_uint (Nat.to_uint n).

(** f'topk ({self.topk}) should not be larger than num_keypoints
    ({num_keypoints}).' *)
Definition topk_message (topk num_keypoints : nat) : string :=
  ("topk (" ++ show_nat topk ++ ") should not be larger than num_keypoints ("
   ++ show_nat num_keypoints ++ ").")%string.

(** Online hard keypoint mining on the losses of shape [[B, K]]. *)
Definition _ohkm (self : t) (losses : Tensor float) : result float :=
  B <- size losses 0 ;;
  ohkm_loss <- for_each (range B)
    (fun i ohkm_loss =>
       sub_loss <- select0 losses i ;;
       ' (_, topk_idx) <- Torch.topk fleb sub_loss (topk self) ;;
       let tmp_loss := gather0 sub_loss topk_idx in
       Ok (fadd ohkm_loss (fdivq (tfsum tmp_loss) (qn (topk self)))))
    (Fin 0%Qc) ;;
  if B =? 0 then Raise ZeroDivisionError
  else Ok (fdivq ohkm_loss (qn B)).

(** [[f(x) for x in xs]] where [f] may raise. *)
Fixpoint comprehension {A B} (f : A -> result B) (xs : list A)
  : result (list B) :=
  match xs with
  | [] => Ok []
  | x :: xs' => y <- f x ;; ys <- comprehension f xs' ;; Ok (y :: ys)
  end.

Definition forward (self : t) (output target : Heatmaps)
  (target_weights : option Weights) : result float :=
  let output := heatmaps_tensor output in
  let target := heatmaps_tensor target in
  num_keypoints <- size output 1 ;;
  if num_keypoints <? topk self then
    Raise (ValueError (topk_message (topk self) num_keypoints))
  else
    losses <- for_each (range num_keypoints)
      (fun idx losses =>
         if use_target_weight self then
           match target_weights with
           | None => Raise TypeError
           | Some tw =>
               target_weight <- select1_none_none (weights_tensor tw) idx ;;
               o <- select1 output idx ;;
               a <- mul o target_weight ;;
               g <- select1 target idx ;;
               b <- mul g target_weight ;;
               l <- mse_none a b ;;
               Ok (losses ++ [l])
           end
         else
           o <- select1 output idx ;;
           g <- select1 target idx ;;
           l <- mse_none o g ;;
           Ok (losses ++ [l]))
      [] ;;
    losses <- comprehension
      (fun loss => m <- mean_dims12 loss ;; unsqueeze1 m) losses ;;
    losses <- cat1 losses ;;
    r <- _ohkm self losses ;;
    Ok (fscale r (loss_weight self)).

End KeypointOHKMMSELoss.

(* ===================================================================== *)
(** ** [CombinedTargetIOULoss] *)
(* ===================================================================== *)

Module CombinedTargetIOULoss.

(** [GIoULoss] is imported from [mmpose.models.losses] and is not part
    of this file: the instance held by the module is a field. *)
Record t : Type := mk {
  iou_loss : Tensor Qc -> Tensor Qc -> result float;
  use_target_weight : bool;
  loss_weight : Qc
}.

Definition boxes : Type := (list (Tensor Qc) * list (Tensor Qc))%type.

(** The two [torch.stack] calls that turn the corner [(x1, y1)] and the
    displaced corner [(x2, y2)] into boxes: the first takes the samples
    whose displaced coordinate is larger, the second the others, with
    the corners exchanged. *)
Definition append_boxes (x1 y1 x2 y2 : Tensor Qc)
  (bbox : list (Tensor Qc)) : result (list (Tensor Qc)) :=
  mask_x <- gt x2 x1 ;;
  mask_y <- gt y2 y1 ;;
  a0 <- mask_index x1 mask_x ;;
  a1 <- mask_index y1 mask_y ;;
  a2 <- mask_index x2 mask_x ;;
  a3 <- mask_index y2 mask_y ;;
  t_bbox <- stack_last [a0; a1; a2; a3] ;;
  let bbox := (bbox ++ [t_bbox])%list in
  nx <- rsub_bool 1%Qc mask_x ;;
  b0 <- mask_index x2 nx ;;
  ny <- rsub_bool 1%Qc mask_y ;;
  b1 <- mask_index y2 ny ;;
  nx' <- rsub_bool 1%Qc mask_x ;;
  b2 <- mask_index x1 nx' ;;
  ny' <- rsub_bool 1%Qc mask_y ;;
  b3 <- mask_index y1 ny' ;;
  t_bbox <- stack_last [b0; b1; b2; b3] ;;
  Ok (bbox ++ [t_bbox])%list.

(** The body of the loops over [x] and [y] (lines 297 to 336). *)
Definition location (batch_size H : nat) (m : CombinedTargetMSELoss.maps)
  (x y : nat) (st : boxes) : result boxes :=
  let '(bbox_gt, bbox_pred) := st in
  c <- select1 (CombinedTargetMSELoss.heatmap_gt m) (x * H + y) ;;
  z <- tensor_bool (eq_zero c) ;;
  if z then Ok st
  else
    let x1 := ones_times batch_size (qn x) in
    let y1 := ones_times batch_size (qn y) in
    ox <- select1 (CombinedTargetMSELoss.offset_x_gt m) (x * H + y) ;;
    gt_x2 <- add x1 ox ;;
    oy <- select1 (CombinedTargetMSELoss.offset_y_gt m) (x * H + y) ;;
    gt_y2 <- add y1 oy ;;
    bbox_gt <- append_boxes x1 y1 gt_x2 gt_y2 bbox_gt ;;
    ox' <- select1 (CombinedTargetMSELoss.offset_x_pred m) (x * H + y) ;;
    pred_x2 <- add x1 ox' ;;
    oy' <- select1 (CombinedTargetMSELoss.offset_y_pred m) (x * H + y) ;;
    pred_y2 <- add y1 oy' ;;
    bbox_pred <- append_boxes x1 y1 pred_x2 pred_y2 bbox_pred ;;
    Ok (bbox_gt, bbox_pred).

Definition forward (self : t) (output target : Heatmaps)
  (target_weights : option Weights) : result float :=
  let output := heatmaps_tensor output in
  let target := heatmaps_tensor target in
  (* W, H = output.shape[2:] *)
  W <- size output 2 ;;
  H <- size output 3 ;;
  batch_size <- size output 0 ;;
  num_channels <- size output 1 ;;
  heatmaps_pred <-
    CombinedTargetMSELoss.split_channels output batch_size num_channels ;;
  heatmaps_gt <-
    CombinedTargetMSELoss.split_channels target batch_size num_channels ;;
  let num_joints := num_channels / 3 in
  loss <- for_each (range num_joints)
    (fun idx loss =>
       m <- CombinedTargetMSELoss.keypoint_maps (use_target_weight self)
              heatmaps_pred heatmaps_gt target_weights idx ;;
       (* classification loss *)
       c <- CombinedTargetMSELoss.classification_mse m ;;
       let loss := fadd loss (fscale c half) in
       ' (bbox_gt, bbox_pred) <-
         for_each (range W)
           (fun x st =>
              for_each (range H)
                (fun y st => location batch_size H m x y st) st)
           ([], []) ;;
       bbox_gt <- cat0 bbox_gt ;;
       bbox_pred <- cat0 bbox_pred ;;
       l <- iou_loss self bbox_pred bbox_gt ;;
       Ok (fadd loss l))
    (Fin 0%Qc) ;;
  if num_joints =? 0 then Raise ZeroDivisionError
  else Ok (fscale (fdivq loss (qn num_joints)) (loss_weight self)).

End CombinedTargetIOULoss.

(* ===================================================================== *)
(** ** Entries that are not finite *)
(* ===================================================================== *)

(** The tensors that [mse_loss.py] receives hold floating point numbers:
    finite values, the two infinities and NaN.  The modules above take
    finite entries.  [Ieee] has [KeypointMSELoss] and
    [CombinedTargetMSELoss] once more, on entries that may be infinite or
    NaN, with the rules of IEEE 754 for these values: [0 * inf],
    [inf - inf] and every operation on NaN give NaN.  Finite values are
    computed exactly, as above. *)
Module Ieee.

Inductive xfloat : Type :=
| XFin (q : Qc)
| XInf (negative : bool)
| XNaN.

Definition negative (q : Qc) : bool := negb (Qcleb 0%Qc q).

Definition xmul (a b : xfloat) : xfloat :=
  match a, b with
  | XFin x, XFin y => XFin (x * y)%Qc
  | XFin x, XInf s | XInf s, XFin x =>
      if Qc_eq_bool x 0%Qc then XNaN else XInf (xorb s (negative x))
  | XInf s, XInf s' => XInf (xorb s s')
  | _, _ => XNaN
  end.

Definition xadd (a b : xfloat) : xfloat :=
  match a, b with
  | XFin x, XFin y => XFin (x + y)%Qc
  | XFin _, XInf s | XInf s, XFin _ => XInf s
  | XInf s, XInf s' => if Bool.eqb s s' then XInf s else XNaN
  | _, _ => XNaN
  end.

Definition xsub (a b : xfloat) : xfloat :=
  match a, b with
  | XFin x, XFin y => XFin (x - y)%Qc
  | XFin _, XInf s => XInf (negb s)
  | XInf s, XFin _ => XInf s
  | XInf s, XInf s' => if Bool.eqb s s' then XNaN else XInf s
  | _, _ => XNaN
  end.

(** Division by a count [n > 0]. *)
Definition xdivn (a : xfloat) (n : nat) : xfloat :=
  match a with
  | XFin x => XFin (x / qn n)%Qc
  | _ => a
  end.

Definition xsum (l : list xfloat) : xfloat := fold_right xadd (XFin 0%Qc) l.

(** The scalars of the modules above among these. *)
Definition of_float (v : float) : xfloat :=
  match v with
  | Fin q => XFin q
  | NaN => XNaN
  end.

(** *** Tensors *)

Definition mul := map2 xmul.

(** [t.mean()]: NaN on an empty tensor. *)
Definition tmean (t : Tensor xfloat) : xfloat :=
  if numel (shape t) =? 0 then XNaN
  else xdivn (xsum (to_list t)) (numel (shape t)).

(** [nn.MSELoss(reduction='none')] *)
Definition mse_none (input target : Tensor xfloat)
  : result (Tensor xfloat) :=
  map2 (fun x y => let d := xsub x y in xmul d d) input target.

(** [nn.MSELoss(reduction='mean')] *)
Definition mse_mean (input target : Tensor xfloat) : result xfloat :=
  d <- mse_none input target ;; Ok (tmean d).

(** Heat maps: a tensor of shape [[B, K, H, W]]. *)
Record Heatmaps : Type := mkHeatmaps {
  hm_B : nat;
  hm_K : nat;
  hm_H : nat;
  hm_W : nat;
  hm_at : nat -> nat -> nat -> nat -> xfloat
}.

(** Target weights: a tensor of shape [[B, K]]. *)
Record Weights : Type := mkWeights {
  tw_B : nat;
  tw_K : nat;
  tw_at : nat -> nat -> xfloat
}.

Definition heatmaps_tensor (x : Heatmaps) : Tensor xfloat :=
  mkTensor [hm_B x; hm_K x; hm_H x; hm_W x]
    (fun idx =>
       match idx with
       | [b; k; h; w] => hm_at x b k h w
       | _ => XFin 0%Qc
       end).

Definition weights_tensor (x : Weights) : Tensor xfloat :=
  mkTensor [tw_B x; tw_K x]
    (fun idx =>
       match idx with
       | [b; k] => tw_at x b k
       | _ => XFin 0%Qc
       end).

(** *** [KeypointMSELoss] *)

Module KeypointMSELoss.

Record t : Type := mk {
  use_target_weight : bool;
  loss_weight : xfloat
}.

Definition forward (self : t) (output target : Heatmaps)
  (target_weights : option Weights) : result xfloat :=
  let output := heatmaps_tensor output in
  let target := heatmaps_tensor target in
  loss <-
    (if use_target_weight self then
       match target_weights with
       | None => Raise AssertionError
       | Some tw =>
           let target_weights := weights_tensor tw in
           if ndim output <? ndim target_weights then Raise AssertionError
           else
             let target_weights :=
               Nat.iter (ndim output - ndim target_weights)
                        unsqueeze_last target_weights in
             a <- mul output target_weights ;;
             b <- mul target target_weights ;;
             mse_mean a b
       end
     else mse_mean output target) ;;
  Ok (xmul loss (loss_weight self)).

End KeypointMSELoss.

(** *** [CombinedTargetMSELoss] *)

Module CombinedTargetMSELoss.

Record t : Type := mk {
  use_target_weight : bool;
  loss_weight : xfloat
}.

Record maps : Type := mkMaps {
  heatmap_pred : Tensor xfloat;
  heatmap_gt : Tensor xfloat;
  offset_x_pred : Tensor xfloat;
  offset_x_gt : Tensor xfloat;
  offset_y_pred : Tensor xfloat;
  offset_y_gt : Tensor xfloat
}.

(** Lines 117 to 126. *)
Definition keypoint_maps (use_target_weight : bool)
  (heatmaps_pred heatmaps_gt : list (Tensor xfloat))
  (target_weights : option Weights) (idx : nat) : result maps :=
  hp <- py_getitem heatmaps_pred (idx * 3) ;;
  hg <- py_getitem heatmaps_gt (idx * 3) ;;
  oxp <- py_getitem heatmaps_pred (idx * 3 + 1) ;;
  oxg <- py_getitem heatmaps_gt (idx * 3 + 1) ;;
  oyp <- py_getitem heatmaps_pred (idx * 3 + 2) ;;
  oyg <- py_getitem heatmaps_gt (idx * 3 + 2) ;;
  let m := mkMaps (squeeze hp) (squeeze hg) (squeeze oxp) (squeeze oxg)
                  (squeeze oyp) (squeeze oyg) in
  if use_target_weight then
    match target_weights with
    | None => Raise TypeError
    | Some tw =>
        target_weight <- select1_none (weights_tensor tw) idx ;;
        hp' <- mul (heatmap_pred m) target_weight ;;
        hg' <- mul (heatmap_gt m) target_weight ;;
        Ok (mkMaps hp' hg' (offset_x_pred m) (offset_x_gt m)
                   (offset_y_pred m) (offset_y_gt m))
    end
  else Ok m.

(** [x.reshape((batch_size, num_channels, -1)).split(1, 1)] *)
Definition split_channels (x : Tensor xfloat) (batch_size num_channels : nat)
  : result (list (Tensor xfloat)) :=
  r <- reshape3 x batch_size num_channels ;; split_1_1 r.

(** [self.criterion(heatmap_pred, heatmap_gt)] *)
Definition classification_mse (m : maps) : result xfloat :=
  mse_mean (heatmap_pred m) (heatmap_gt m).

(** [self.criterion(heatmap_gt * offset_pred, heatmap_gt * offset_gt)] *)
Definition regression_mse (hg offset_pred offset_gt : Tensor xfloat)
  : result xfloat :=
  a <- mul hg offset_pred ;;
  b <- mul hg offset_gt ;;
  mse_mean a b.

Definition forward (self : t) (output target : Heatmaps)
  (target_weights : option Weights) : result xfloat :=
  let output := heatmaps_tensor output in
  let target := heatmaps_tensor target in
  batch_size <- size output 0 ;;
  num_channels <- size output 1 ;;
  heatmaps_pred <- split_channels output batch_size num_channels ;;
  heatmaps_gt <- split_channels target batch_size num_channels ;;
  let num_joints := num_channels / 3 in
  loss <- for_each (range num_joints)
    (fun idx loss =>
       m <- keypoint_maps (use_target_weight self) heatmaps_pred
              heatmaps_gt target_weights idx ;;
       (* classification loss *)
       c <- classification_mse m ;;
       let loss := xadd loss (xmul (XFin half) c) in
       (* regression loss *)
       rx <- regression_mse (heatmap_gt m) (offset_x_pred m)
               (offset_x_gt m) ;;
       let loss := xadd loss (xmul (XFin half) rx) in
       ry <- regression_mse (heatmap_gt m) (offset_y_pred m)
               (offset_y_gt m) ;;
       Ok (xadd loss (xmul (XFin half) ry)))
    (XFin 0%Qc) ;;
  if num_joints =? 0 then Raise ZeroDivisionError
  else Ok (xmul (xdivn loss num_joints) (loss_weight self)).

End CombinedTargetMSELoss.

End Ieee.

(* ===================================================================== *)
(** ** Vocabulary of the statements *)
(* ===================================================================== *)

(** *** Sums and means *)

Definition sum2 (H W : nat) (f : nat -> nat -> Qc) : Qc :=
  sum_n H (fun h => sum_n W (fun w => f h w)).

Definition sum4 (B K H W : nat) (f : nat -> nat -> nat -> nat -> Qc) : Qc :=
  sum_n B (fun b => sum_n K (fun k =>
    sum_n H (fun h => sum_n W (fun w => f b k h w)))).

Definition lmean (l : list Qc) : float :=
  if List.length l =? 0 then NaN else Fin (qsum l / qn (List.length l))%Qc.

(** Mean over the batch and the grid. *)
Definition mse3 (B H W : nat) (F : nat -> nat -> nat -> Qc) : Qc :=
  (sum_n B (fun b => sum2 H W (F b)) / qn (B * H * W))%Qc.

(** *** Results *)

Definition is_value (r : result float) (q : Qc) : bool :=
  match r with
  | Ok (Fin x) => Qc_eq_bool x q
  | _ => false
  end.

(** A result multiplied by a factor: a value is scaled, NaN and an
    exception stay. *)
Definition scale_result (c : Qc) (r : result float) : result float :=
  rmap (fun v => fscale v c) r.

(** *** Selections of largest entries *)

(** [p] may stand before [q] in a descending list. *)
Definition desc {A} (leb : A -> A -> bool) (p q : nat * A) : Prop :=
  leb (snd q) (snd p) = true.

(** A choice of [k] indices of [l] none of whose values is below a value
    left out: a selection of [k] largest values, whatever the order among
    equal values. *)
Definition is_topk_selection (k : nat) (l : list Qc) (sel : list nat) : Prop :=
  NoDup sel /\ List.length sel = k /\
  (forall i, In i sel -> i < List.length l) /\
  (forall i j, In i sel -> j < List.length l -> ~ In j sel ->
               (nth j l 0 <= nth i l 0)%Qc).

Definition mem (s : list nat) (i : nat) : bool :=
  if in_dec Nat.eq_dec i s then true else false.

Definition row (K : nat) (L : nat -> Qc) : list Qc := map L (seq 0 K).

(** The indices that the model of [torch.topk] selects in a row. *)
Definition model_selection (k K : nat) (L : nat -> Qc) : list nat :=
  map fst (top_entries fleb (map Fin (row K L)) k).

(** *** The per-keypoint losses of [KeypointOHKMMSELoss] *)

(** The factor applied to keypoint [k] of sample [b]. *)
Definition weight_factor (u : bool) (w : nat -> nat -> Qc) (b k : nat) : Qc :=
  if u then w b k else 1%Qc.

(** Squared error of one heat map entry after weighting. *)
Definition sq_err (u : bool) (o g : nat -> nat -> nat -> nat -> Qc)
  (w : nat -> nat -> Qc) (b k h x : nat) : Qc :=
  sq (o b k h x * weight_factor u w b k - g b k h x * weight_factor u w b k)%Qc.

(** The per-keypoint loss matrix: the spatial mean of the squared error. *)
Definition keypoint_loss (u : bool) (H W : nat)
  (o g : nat -> nat -> nat -> nat -> Qc) (w : nat -> nat -> Qc)
  (b k : nat) : Qc :=
  (sum2 H W (fun h x => sq_err u o g w b k h x) / qn (H * W))%Qc.

(** The tensor of one keypoint before the spatial mean. *)
Definition kp_spec (B H W : nat) (e : nat -> nat -> nat -> Qc)
  (T : Tensor Qc) : Prop :=
  shape T = [B; H; W] /\
  forall b h w, b < B -> h < H -> w < W -> data T [b; h; w] = e b h w.

(** The column of one keypoint after the spatial mean. *)
Definition col_spec (B : nat) (c : nat -> Qc) (m : Tensor float) : Prop :=
  shape m = [B; 1] /\ forall b, b < B -> data m [b; 0] = Fin (c b).

(** *** The channels of a combined target *)

(** What [reshape((B, C, -1))] and [split(1, 1)] make of heat maps. *)
Definition reshaped (x : Heatmaps) : Tensor Qc :=
  let s := [hm_B x; hm_K x; hm_H x * hm_W x] in
  mkTensor s (fun idx =>
    data (heatmaps_tensor x)
         (unravel (shape (heatmaps_tensor x)) (ravel s idx))).

Definition channel (x : Heatmaps) (j : nat) : Tensor Qc :=
  mkTensor [hm_B x; 1; hm_H x * hm_W x] (fun idx =>
    match idx with
    | i :: _ :: r => data (reshaped x) (i :: j :: r)
    | _ => data (reshaped x) idx
    end).

(** [target_weights[:, k, None]] *)
Definition weight_column (ws : Weights) (k : nat) : Tensor Qc :=
  match select1_none (weights_tensor ws) k with
  | Ok t => t
  | Raise _ => weights_tensor ws
  end.

Definition all_zero (t : Tensor Qc) : Prop :=
  forall idx, In idx (indices (shape t)) -> data t idx = 0%Qc.

(** The state of the six maps that masks the offsets: the ground truth
    classification map is zero and the offsets broadcast against it. *)
Definition maps_masked (m : CombinedTargetMSELoss.maps) : Prop :=
  exists S,
    shape (CombinedTargetMSELoss.heatmap_pred m) = S /\
    shape (CombinedTargetMSELoss.heatmap_gt m) = S /\
    numel S <> 0 /\
    all_zero (CombinedTargetMSELoss.heatmap_gt m) /\
    broadcast_shapes S (shape (CombinedTargetMSELoss.offset_x_pred m))
    = Some S /\
    broadcast_shapes S (shape (CombinedTargetMSELoss.offset_x_gt m))
    = Some S /\
    broadcast_shapes S (shape (CombinedTargetMSELoss.offset_y_pred m))
    = Some S /\
    broadcast_shapes S (shape (CombinedTargetMSELoss.offset_y_gt m))
    = Some S.

(** The shape of a squeezed channel multiplied by the weight column
    [[B, 1]] of a keypoint. *)
Definition weighted_shape (B L : nat) : list nat :=
  if B =? 1 then [1; L] else if L =? 1 then [B; B] else [B; L].

(** The shape of the classification maps of a keypoint. *)
Definition class_shape (u : bool) (B L : nat) : list nat :=
  if u then weighted_shape B L else squeeze_shape [B; 1; L].

(** The classification mean squared error of keypoint [k], read off the
    model. *)
Definition classification_value (u : bool) (hps hgs : list (Tensor Qc))
  (tw : option Weights) (k : nat) : Qc :=
  match (m <- CombinedTargetMSELoss.keypoint_maps u hps hgs tw k ;;
         CombinedTargetMSELoss.classification_mse m) with
  | Ok (Fin x) => x
  | _ => 0%Qc
  end.

(** The entry of a channel [[B, 1, L]] that an index of a classification
    map stands for. *)
Definition reindex (B L : nat) (i : list nat) : list nat :=
  unsqueeze_idx [B; 1; L] (bidx (squeeze_shape [B; 1; L]) i).

(** A shape whose indices enumerate the entries of a channel in order
    and against which a squeezed channel broadcasts. *)
Definition good_shape (B L : nat) (S : list nat) : Prop :=
  map (reindex B L) (indices S) = indices [B; 1; L] /\
  broadcast_shapes S (squeeze_shape [B; 1; L]) = Some S.

(** [t] has shape [S] and holds [F] at the channel entry of each index. *)
Definition views (B L : nat) (S : list nat) (t : Tensor Qc)
  (F : list nat -> Qc) : Prop :=
  shape t = S /\ forall i, In i (indices S) -> data t i = F (reindex B L i).

(** *** The claimed value of [CombinedTargetMSELoss.forward] *)

(** The claimed value of [CombinedTargetMSELoss.forward]. *)
Definition class_err (u : bool) (o g : nat -> nat -> nat -> nat -> Qc)
  (w : nat -> nat -> Qc) (k b h x : nat) : Qc :=
  sq (o b (k * 3)%nat h x * weight_factor u w b k
      - g b (k * 3)%nat h x * weight_factor u w b k)%Qc.

Definition offset_err (u : bool) (o g : nat -> nat -> nat -> nat -> Qc)
  (w : nat -> nat -> Qc) (c k b h x : nat) : Qc :=
  sq (g b (k * 3)%nat h x * weight_factor u w b k
        * o b (k * 3 + c)%nat h x
      - g b (k * 3)%nat h x * weight_factor u w b k
        * g b (k * 3 + c)%nat h x)%Qc.

Definition combined_target_formula (u : bool) (lw : Qc) (B K H W : nat)
  (o g : nat -> nat -> nat -> nat -> Qc) (w : nat -> nat -> Qc) : Qc :=
  (sum_n K (fun k =>
     half * mse3 B H W (class_err u o g w k)
     + half * mse3 B H W (offset_err u o g w 1 k)
     + half * mse3 B H W (offset_err u o g w 2 k))
   / qn K * lw)%Qc.

(** *** Concrete arguments *)

Definition mse_example_output : Heatmaps :=
  mkHeatmaps 1 2 1 2 (fun _ k _ x => qn (k * 2 + x + 1)).

Definition mse_example_target : Heatmaps :=
  mkHeatmaps 1 2 1 2 (fun _ _ _ _ => 0%Qc).

(** Heat maps of one sample with ten keypoints on a 2 x 2 grid; against
    a zero target the spatial means of the squared errors are
    9, 1, 8, 2, 7, 3, 6, 4, 5, 0. *)
Definition ohkm_example_output : Heatmaps :=
  mkHeatmaps 1 10 2 2 (fun _ k h x =>
    qz (nth (h * 2 + x)
         (nth k [[6; 0; 0; 0]; [2; 0; 0; 0]; [4; 4; 0; 0]; [2; 2; 0; 0];
                 [5; 1; 1; 1]; [2; 2; 2; 0]; [4; 2; 2; 0]; [4; 0; 0; 0];
                 [4; 2; 0; 0]; [0; 0; 0; 0]]%Z [])
         0%Z)).

Definition ohkm_example_target : Heatmaps :=
  mkHeatmaps 1 10 2 2 (fun _ _ _ _ => 0%Qc).

Definition ohkm_example_losses : Tensor float :=
  mkTensor [1; 10] (fun idx =>
    Fin (qz (nth (nth 1 idx 0) [9; 1; 8; 2; 7; 3; 6; 4; 5; 0]%Z 0%Z))).

(** Two samples, one keypoint, one spatial location; the second sample
    predicts 1 where the ground truth is 0 and has weight 0. *)
Definition combined_example_output : Heatmaps :=
  mkHeatmaps 2 3 1 1
    (fun b c _ _ => if (b =? 1) && (c =? 0) then 1%Qc else 0%Qc).

Definition combined_example_target : Heatmaps :=
  mkHeatmaps 2 3 1 1 (fun _ _ _ _ => 0%Qc).

Definition combined_example_weights : Weights :=
  mkWeights 2 1 (fun b _ => if b =? 0 then 1%Qc else 0%Qc).

Definition no_iou_loss (pred gt : Tensor Qc) : result float := Ok (Fin 0%Qc).

(** Two samples, one keypoint, a 1 x 2 grid.  The ground truth
    classification map is zero at location 0 of sample 0 and at
    location 1 of sample 1; the offsets have both signs. *)
Definition iou_example_target : Heatmaps :=
  mkHeatmaps 2 3 1 2 (fun b c _ x =>
    qz (nth x (nth c (nth b [[[0; 1]; [1; -1]; [-1; 1]];
                             [[1; 0]; [-1; 1]; [1; -1]]]%Z []) []) 0%Z)).

Definition iou_example_output : Heatmaps :=
  mkHeatmaps 2 3 1 2 (fun b c _ x =>
    qz (nth x (nth c (nth b [[[1; 1]; [1; 1]; [-1; -1]];
                             [[1; 1]; [-1; -1]; [1; 1]]]%Z []) []) 0%Z)).

(** The first sample alone. *)
Definition iou_example_target1 : Heatmaps :=
  mkHeatmaps 1 3 1 2 (hm_at iou_example_target).

Definition iou_example_output1 : Heatmaps :=
  mkHeatmaps 1 3 1 2 (hm_at iou_example_output).

(** *** Signs *)

(** A scalar that is not a negative number. *)
Definition nonneg_float (v : float) : Prop :=
  match v with
  | Fin q => (0 <= q)%Qc
  | NaN => True
  end.

(** A call that does not return a negative number. *)
Definition nonneg_result (r : result float) : Prop :=
  match r with
  | Ok v => nonneg_float v
  | Raise _ => True
  end.

Definition nonneg_entries (t : Tensor Qc) : Prop :=
  forall idx, (0 <= data t idx)%Qc.

Definition nonneg_floats (t : Tensor float) : Prop :=
  forall idx, nonneg_float (data t idx).

(** *** Spatial means *)

(** The spatial mean of the squared error of one keypoint of one sample:
    NaN on a grid without location. *)
Definition spatial_mean (u : bool) (H W : nat)
  (o g : nat -> nat -> nat -> nat -> Qc) (w : nat -> nat -> Qc)
  (b k : nat) : float :=
  lmean (map (fun i => sq_err u o g w b k (nth 0 i 0) (nth 1 i 0))
             (indices [H; W])).

(** *** Box corners *)

(** The number of samples of a batch of [n] whose displaced coordinate
    [x2] is larger than the coordinate [x1]. *)
Definition displaced_count (n : nat) (x1 x2 : Tensor Qc) : nat :=
  List.length
    (filter (fun b => negb (Qcleb (data x2 [b]) (data x1 [b]))) (seq 0 n)).

(** The exception of the box construction on coordinate vectors, by the
    counts of the samples displaced to the right and downwards. *)
Definition box_error (cx cy : nat) : runtime_error :=
  if cx =? cy then BoolSubtract else StackSizes.

(** Coordinates of two samples: the first is displaced in [x] only, the
    second in [y] only. *)
Definition corner_example : Tensor Qc := mkTensor [2] (fun _ => 1%Qc).

Definition corner_example_x2 : Tensor Qc :=
  mkTensor [2] (fun i => if hd 0 i =? 0 then qz 2 else 0%Qc).

Definition corner_example_y2 : Tensor Qc :=
  mkTensor [2] (fun i => if hd 0 i =? 0 then 0%Qc else qz 2).

(** *** [CombinedTargetMSELoss] on a grid of one location *)

(** The mean over all pairs of samples. *)
Definition pair_mean (B : nat) (f : nat -> nat -> Qc) : Qc :=
  (sum2 B B f / qn (B * B))%Qc.

(** The classification and the offset error of keypoint [k] where the
    map of sample [j] meets the weight of sample [i]. *)
Definition pair_class_err (o g : nat -> nat -> nat -> nat -> Qc)
  (w : nat -> nat -> Qc) (k i j : nat) : Qc :=
  sq (o j (k * 3)%nat 0%nat 0%nat * w i k
      - g j (k * 3)%nat 0%nat 0%nat * w i k)%Qc.

Definition pair_offset_err (o g : nat -> nat -> nat -> nat -> Qc)
  (w : nat -> nat -> Qc) (c k i j : nat) : Qc :=
  sq (g j (k * 3)%nat 0%nat 0%nat * w i k * o j (k * 3 + c)%nat 0%nat 0%nat
      - g j (k * 3)%nat 0%nat 0%nat * w i k
        * g j (k * 3 + c)%nat 0%nat 0%nat)%Qc.

Definition unit_grid_formula (lw : Qc) (B K : nat)
  (o g : nat -> nat -> nat -> nat -> Qc) (w : nat -> nat -> Qc) : Qc :=
  (sum_n K (fun k =>
     half * pair_mean B (pair_class_err o g w k)
     + half * pair_mean B (pair_offset_err o g w 1 k)
     + half * pair_mean B (pair_offset_err o g w 2 k))
   / qn K * lw)%Qc.

(** *** Finite entries among all entries *)

Definition is_finite (v : Ieee.xfloat) : bool :=
  match v with
  | Ieee.XFin _ => true
  | _ => false
  end.

Definition finite_part (v : Ieee.xfloat) : Qc :=
  match v with
  | Ieee.XFin q => q
  | _ => 0%Qc
  end.

(** Every entry of the heat maps, or of the weights, is finite. *)
Definition finite_heatmaps (x : Ieee.Heatmaps) : Prop :=
  forall b k h w,
    b < Ieee.hm_B x -> k < Ieee.hm_K x -> h < Ieee.hm_H x ->
    w < Ieee.hm_W x ->
    is_finite (Ieee.hm_at x b k h w) = true.

Definition finite_weights (x : Ieee.Weights) : Prop :=
  forall b k,
    b < Ieee.tw_B x -> k < Ieee.tw_K x ->
    is_finite (Ieee.tw_at x b k) = true.

(** The same heat maps and weights as arguments of the modules on
    rationals. *)
Definition rational_heatmaps (x : Ieee.Heatmaps) : Heatmaps :=
  mkHeatmaps (Ieee.hm_B x) (Ieee.hm_K x) (Ieee.hm_H x) (Ieee.hm_W x)
    (fun b k h w => finite_part (Ieee.hm_at x b k h w)).

Definition rational_weights (x : Ieee.Weights) : Weights :=
  mkWeights (Ieee.tw_B x) (Ieee.tw_K x)
    (fun b k => finite_part (Ieee.tw_at x b k)).

(** A tensor that may hold infinities and NaN has the shape and the
    entries of a tensor of rationals. *)
Definition refines (X : Tensor Ieee.xfloat) (x : Tensor Qc) : Prop :=
  shape X = shape x /\
  forall idx, In idx (indices (shape x)) ->
              data X idx = Ieee.XFin (data x idx).

(** Two results raise the same exception or return related values. *)
Definition related {A B} (R : A -> B -> Prop) (X : result A) (x : result B)
  : Prop :=
  match X, x with
  | Ok a, Ok b => R a b
  | Raise e, Raise e' => e = e'
  | _, _ => False
  end.

Definition is_float (V : Ieee.xfloat) (v : float) : Prop :=
  V = Ieee.of_float v.

Definition maps_refine (M : Ieee.CombinedTargetMSELoss.maps)
  (m : CombinedTargetMSELoss.maps) : Prop :=
  refines (Ieee.CombinedTargetMSELoss.heatmap_pred M)
          (CombinedTargetMSELoss.heatmap_pred m) /\
  refines (Ieee.CombinedTargetMSELoss.heatmap_gt M)
          (CombinedTargetMSELoss.heatmap_gt m) /\
  refines (Ieee.CombinedTargetMSELoss.offset_x_pred M)
          (CombinedTargetMSELoss.offset_x_pred m) /\
  refines (Ieee.CombinedTargetMSELoss.offset_x_gt M)
          (CombinedTargetMSELoss.offset_x_gt m) /\
  refines (Ieee.CombinedTargetMSELoss.offset_y_pred M)
          (CombinedTargetMSELoss.offset_y_pred m) /\
  refines (Ieee.CombinedTargetMSELoss.offset_y_gt M)
          (CombinedTargetMSELoss.offset_y_gt m).

(** The loss that [CombinedTargetMSELoss.forward] accumulates from the
    classification terms [c 0], ..., [c (K-1)] alone. *)
Definition classification_loss (c : nat -> Ieee.xfloat) (K : nat)
  (lw : Ieee.xfloat) : Ieee.xfloat :=
  Ieee.xmul
    (Ieee.xdivn
       (fold_left (fun loss k =>
                     Ieee.xadd loss (Ieee.xmul (Ieee.XFin half) (c k)))
                  (seq 0 K) (Ieee.XFin 0%Qc))
       K)
    lw.

(** *** Arguments with an infinite entry *)

(** One sample, one keypoint, one location: the output is [inf], target
    and weight are 0. *)
Definition infinite_output : Ieee.Heatmaps :=
  Ieee.mkHeatmaps 1 1 1 1 (fun _ _ _ _ => Ieee.XInf false).

Definition zero_target : Ieee.Heatmaps :=
  Ieee.mkHeatmaps 1 1 1 1 (fun _ _ _ _ => Ieee.XFin 0%Qc).

Definition zero_weights : Ieee.Weights :=
  Ieee.mkWeights 1 1 (fun _ _ => Ieee.XFin 0%Qc).

(** One sample, one keypoint, a 1 x 2 grid: every ground truth value is
    0, the predicted x offset at location 0 is [inf]. *)
Definition infinite_offset_output : Ieee.Heatmaps :=
  Ieee.mkHeatmaps 1 3 1 2 (fun _ c _ x =>
    if (c =? 1) && (x =? 0) then Ieee.XInf false else Ieee.XFin 0%Qc).

Definition masked_target : Ieee.Heatmaps :=
  Ieee.mkHeatmaps 1 3 1 2 (fun _ _ _ _ => Ieee.XFin 0%Qc).

(** *** Simplification of tensor terms *)

Ltac tsimpl :=
  cbn [shape data heatmaps_tensor weights_tensor hm_B hm_K hm_H hm_W hm_at
       tw_B tw_K tw_at bind rev app bshape_rev option_map].

(* ===================================================================== *)
(** ** Sums, indices, broadcasting and selection *)
(* ===================================================================== *)

Lemma qsum_app l1 l2 : qsum (l1 ++ l2) = (qsum l1 + qsum l2)%Qc.
Proof.
  induction l1 as [|x l1 IH]; simpl.
  - ring.
  - rewrite IH. ring.
Qed.

Lemma qsum_map_ext_in {A} (f g : A -> Qc) l :
  (forall x, In x l -> f x = g x) -> qsum (map f l) = qsum (map g l).
Proof.
  intros E. f_equal. apply map_ext_in, E.
Qed.

Lemma qsum_map_zero {A} (f : A -> Qc) l :
  (forall x, In x l -> f x = 0%Qc) -> qsum (map f l) = 0%Qc.
Proof.
  induction l as [|x l IH]; simpl; intros E; [reflexivity|].
  rewrite E, IH by auto. ring.
Qed.

Lemma qsum_flat_map {A B} (f : A -> list B) (g : B -> Qc) l :
  qsum (map g (flat_map f l)) = qsum (map (fun a => qsum (map g (f a))) l).
Proof.
  induction l as [|a l IH]; simpl; [reflexivity|].
  rewrite map_app, qsum_app, IH. reflexivity.
Qed.

Lemma sum_n_ext n f g :
  (forall i, i < n -> f i = g i) -> sum_n n f = sum_n n g.
Proof.
  intros E. apply qsum_map_ext_in. intros i Hi. apply in_seq in Hi. apply E.
  lia.
Qed.

Lemma sum_n_zero n f : (forall i, i < n -> f i = 0%Qc) -> sum_n n f = 0%Qc.
Proof.
  intros E. apply qsum_map_zero. intros i Hi. apply in_seq in Hi. apply E. lia.
Qed.

Lemma qsum_indices_cons d s (g : list nat -> Qc) :
  qsum (map g (indices (d :: s)))
  = sum_n d (fun i => qsum (map (fun idx => g (i :: idx)) (indices s))).
Proof.
  simpl. rewrite qsum_flat_map. unfold sum_n. apply qsum_map_ext_in.
  intros i _. rewrite map_map. reflexivity.
Qed.

Lemma qsum_indices_nil (g : list nat -> Qc) :
  qsum (map g (indices [])) = g [].
Proof. simpl. ring. Qed.

Lemma length_indices s : List.length (indices s) = numel s.
Proof.
  induction s as [|d s IH]; simpl; [reflexivity|].
  generalize 0. induction d as [|d IHd]; intros n; simpl; [reflexivity|].
  rewrite length_app, length_map, IH, IHd. reflexivity.
Qed.

Lemma in_indices s idx : In idx (indices s) <-> Forall2 lt idx s.
Proof.
  revert idx. induction s as [|d s IH]; intros idx; simpl.
  - split.
    + intros [<-|[]]. constructor.
    + intros H. inversion H. now left.
  - rewrite in_flat_map. split.
    + intros (i & Hi & Hm). apply in_map_iff in Hm as (r & <- & Hr).
      apply in_seq in Hi. constructor; [lia|]. now apply IH.
    + intros H. inversion H as [|i d' r s' Hlt Hr]; subst.
      exists i. split; [apply in_seq; lia|].
      apply in_map. now apply IH.
Qed.

Lemma bdim_refl a : bdim a a = Some a.
Proof. unfold bdim. now rewrite Nat.eqb_refl. Qed.

Lemma bshape_rev_refl s : bshape_rev s s = Some s.
Proof.
  induction s as [|a s IH]; simpl; [reflexivity|].
  now rewrite bdim_refl, IH.
Qed.

Lemma broadcast_shapes_refl s : broadcast_shapes s s = Some s.
Proof.
  unfold broadcast_shapes. rewrite bshape_rev_refl. simpl.
  now rewrite rev_involutive.
Qed.

Lemma bidx_rev_valid s idx : Forall2 lt idx s -> bidx_rev s idx = idx.
Proof.
  induction 1 as [|i d idx s Hlt _ IH]; simpl; [reflexivity|].
  rewrite IH. destruct (Nat.eqb_spec d 1); [|reflexivity].
  f_equal. lia.
Qed.

Lemma Forall2_lt_rev idx s : Forall2 lt idx s -> Forall2 lt (rev idx) (rev s).
Proof.
  induction 1; simpl; [constructor|].
  apply Forall2_app; [assumption|]. constructor; [assumption|constructor].
Qed.

Lemma bidx_valid s idx : In idx (indices s) -> bidx s idx = idx.
Proof.
  intros H. apply in_indices in H. unfold bidx.
  rewrite bidx_rev_valid by now apply Forall2_lt_rev.
  apply rev_involutive.
Qed.

Lemma tmean_to_list t : tmean t = lmean (to_list t).
Proof.
  unfold tmean, lmean, tsum, to_list. now rewrite length_map, length_indices.
Qed.

Lemma mse_mean_same_shape a b :
  shape a = shape b ->
  mse_mean a b
  = Ok (lmean (map (fun i => sq (data a i - data b i)%Qc) (indices (shape a)))).
Proof.
  intros E. unfold mse_mean, mse_none, map2.
  rewrite <- E, broadcast_shapes_refl.
  simpl. rewrite tmean_to_list. unfold to_list. simpl. do 2 f_equal.
  apply map_ext_in. intros i Hi. now rewrite bidx_valid.
Qed.

Lemma is_value_true r q : is_value r q = true -> r = Ok (Fin q).
Proof.
  destruct r as [[x|]|e]; simpl; try discriminate.
  intros H. apply Qc_eq_bool_correct in H. now subst.
Qed.

Lemma qsum_indices4 B K H W (g : list nat -> Qc) :
  qsum (map g (indices [B; K; H; W]))
  = sum4 B K H W (fun b k h w => g [b; k; h; w]).
Proof.
  unfold sum4. rewrite qsum_indices_cons. apply sum_n_ext; intros b _.
  rewrite qsum_indices_cons. apply sum_n_ext; intros k _.
  rewrite qsum_indices_cons. apply sum_n_ext; intros h _.
  rewrite qsum_indices_cons. apply sum_n_ext; intros w _.
  apply qsum_indices_nil.
Qed.

Lemma sum4_ext B K H W f f' :
  (forall b k h w,
      b < B -> k < K -> h < H -> w < W -> f b k h w = f' b k h w) ->
  sum4 B K H W f = sum4 B K H W f'.
Proof.
  intros E. unfold sum4.
  apply sum_n_ext; intros b Hb. apply sum_n_ext; intros k Hk.
  apply sum_n_ext; intros h Hh. apply sum_n_ext; intros w Hw. now apply E.
Qed.

Lemma sum4_zero B K H W f :
  (forall b k h w, b < B -> k < K -> h < H -> w < W -> f b k h w = 0%Qc) ->
  sum4 B K H W f = 0%Qc.
Proof.
  intros E. unfold sum4.
  apply sum_n_zero; intros b Hb. apply sum_n_zero; intros k Hk.
  apply sum_n_zero; intros h Hh. apply sum_n_zero; intros w Hw. now apply E.
Qed.

Lemma bdim_1_r a : bdim a 1 = Some a.
Proof.
  unfold bdim. destruct (Nat.eqb_spec a 1); [now subst|reflexivity].
Qed.

Lemma bdim_1_l a : bdim 1 a = Some a.
Proof.
  unfold bdim. destruct (Nat.eqb_spec 1 a); [now subst|reflexivity].
Qed.

Lemma bsel_lt d i : i < d -> (if d =? 1 then 0 else i) = i.
Proof. intros H. destruct (Nat.eqb_spec d 1); lia. Qed.

Lemma numel4 B K H W : numel [B; K; H; W] = B * K * H * W.
Proof. simpl. lia. Qed.

Lemma lmean_map_indices4 B K H W (g : list nat -> Qc) :
  0 < B * K * H * W ->
  lmean (map g (indices [B; K; H; W]))
  = Fin (sum4 B K H W (fun b k h w => g [b; k; h; w]) / qn (B * K * H * W))%Qc.
Proof.
  intros Hpos. unfold lmean. rewrite length_map, length_indices, numel4.
  destruct (Nat.eqb_spec (B * K * H * W) 0); [lia|].
  now rewrite qsum_indices4.
Qed.

Lemma in_firstn_in {B} (l : list B) k x : In x (firstn k l) -> In x l.
Proof.
  intros H. rewrite <- (firstn_skipn k l). apply in_or_app. now left.
Qed.

Lemma in_skipn_in {B} (l : list B) k x : In x (skipn k l) -> In x l.
Proof.
  intros H. rewrite <- (firstn_skipn k l). apply in_or_app. now right.
Qed.

Section TopKFacts.
Context {A : Type} (leb : A -> A -> bool).
Hypothesis leb_total : forall x y, leb x y = true \/ leb y x = true.
Hypothesis leb_trans :
  forall x y z, leb x y = true -> leb y z = true -> leb x z = true.

Lemma insert_desc_perm p l : Permutation (insert_desc leb p l) (p :: l).
Proof.
  induction l as [|q l IH]; simpl; [reflexivity|].
  destruct (leb (snd p) (snd q)); [|reflexivity].
  rewrite IH. apply perm_swap.
Qed.

Lemma sort_desc_perm l : Permutation (sort_desc leb l) l.
Proof.
  induction l as [|p l IH]; simpl; [reflexivity|].
  rewrite insert_desc_perm. now apply perm_skip.
Qed.

Lemma insert_desc_sorted p l :
  StronglySorted (desc leb) l ->
  StronglySorted (desc leb) (insert_desc leb p l).
Proof.
  induction 1 as [|q l Hs IH Hq]; simpl.
  - repeat constructor.
  - destruct (leb (snd p) (snd q)) eqn:E.
    + constructor; [assumption|].
      eapply Permutation_Forall; [symmetry; apply insert_desc_perm|].
      constructor; assumption.
    + assert (Hpq : desc leb p q).
      { unfold desc. destruct (leb_total (snd p) (snd q)); congruence. }
      constructor; [now constructor|].
      constructor; [assumption|].
      eapply Forall_impl; [|exact Hq].
      intros r Hr. unfold desc in *. eauto.
Qed.

Lemma sort_desc_sorted l : StronglySorted (desc leb) (sort_desc leb l).
Proof.
  induction l as [|p l IH]; simpl; [constructor|].
  now apply insert_desc_sorted.
Qed.

Lemma sorted_firstn_skipn (R : nat * A -> nat * A -> Prop) k l x y :
  StronglySorted R l -> In x (firstn k l) -> In y (skipn k l) -> R x y.
Proof.
  intros Hs. revert k. induction Hs as [|a l Hs IH Ha]; intros k Hx Hy.
  - now rewrite firstn_nil in Hx.
  - destruct k as [|k]; simpl in *; [contradiction|].
    destruct Hx as [<-|Hx].
    + rewrite Forall_forall in Ha. apply Ha. eapply in_skipn_in; eassumption.
    + eapply IH; eassumption.
Qed.

Lemma in_enumerate_from d (l : list A) n i v :
  In (i, v) (combine (seq n (List.length l)) l) ->
  n <= i < n + List.length l /\ nth (i - n) l d = v.
Proof.
  revert n. induction l as [|a l IH]; intros n; simpl; [contradiction|].
  intros [E|H].
  - inversion E; subst. rewrite Nat.sub_diag. split; [lia|reflexivity].
  - apply IH in H as [H1 H2]. split; [lia|].
    replace (i - n) with (S (i - S n)) by lia. exact H2.
Qed.

Lemma in_enumerate d (l : list A) i v :
  In (i, v) (enumerate l) -> i < List.length l /\ nth i l d = v.
Proof.
  intros H. apply (in_enumerate_from d) in H as [H1 H2].
  rewrite Nat.sub_0_r in H2. split; [lia|assumption].
Qed.

Lemma enumerate_fst (l : list A) :
  map fst (enumerate l) = seq 0 (List.length l).
Proof.
  unfold enumerate. generalize 0. induction l as [|a l IH]; intros n; simpl;
    [reflexivity|]. now rewrite IH.
Qed.

Lemma enumerate_in d (l : list A) i :
  i < List.length l -> In (i, nth i l d) (enumerate l).
Proof.
  unfold enumerate. intros Hi.
  assert (G : forall n,
             In (n + i, nth i l d) (combine (seq n (List.length l)) l)).
  { revert i Hi. induction l as [|a l IH]; intros i Hi n; simpl in *; [lia|].
    destruct i as [|i].
    - left. f_equal. lia.
    - right. replace (n + S i) with (S n + i) by lia. apply IH. lia. }
  apply (G 0).
Qed.

Lemma top_entries_length l k :
  k <= List.length l -> List.length (top_entries leb l k) = k.
Proof.
  intros Hk. unfold top_entries. rewrite length_firstn.
  rewrite (Permutation_length (sort_desc_perm _)).
  unfold enumerate. rewrite length_combine, length_seq. lia.
Qed.

Lemma top_entries_in d l k i v :
  In (i, v) (top_entries leb l k) -> i < List.length l /\ nth i l d = v.
Proof.
  intros H. apply (in_enumerate d).
  eapply Permutation_in; [apply sort_desc_perm|].
  unfold top_entries in H. eapply in_firstn_in; eassumption.
Qed.

Lemma top_entries_snd d l k :
  map snd (top_entries leb l k)
  = map (fun i => nth i l d) (map fst (top_entries leb l k)).
Proof.
  rewrite map_map. apply map_ext_in. intros [i v] H.
  apply (top_entries_in d) in H as [_ H]. simpl. now rewrite H.
Qed.

Lemma NoDup_firstn {B} (l : list B) k : NoDup l -> NoDup (firstn k l).
Proof.
  intros H. rewrite <- (firstn_skipn k l) in H. eapply NoDup_app_remove_r.
  exact H.
Qed.

Lemma top_entries_NoDup l k : NoDup (map fst (top_entries leb l k)).
Proof.
  unfold top_entries. rewrite <- firstn_map. apply NoDup_firstn.
  eapply Permutation_NoDup.
  - symmetry. apply Permutation_map, sort_desc_perm.
  - rewrite enumerate_fst. apply seq_NoDup.
Qed.

Lemma top_entries_largest d l k i j :
  In i (map fst (top_entries leb l k)) -> j < List.length l ->
  ~ In j (map fst (top_entries leb l k)) ->
  leb (nth j l d) (nth i l d) = true.
Proof.
  intros Hi Hj Hnj.
  apply in_map_iff in Hi as ([i' v] & Ei & Hi). simpl in Ei. subst i'.
  pose proof (top_entries_in d _ _ _ _ Hi) as [_ Ev].
  assert (Hin : In (j, nth j l d) (sort_desc leb (enumerate l))).
  { eapply Permutation_in; [symmetry; apply sort_desc_perm|].
    now apply enumerate_in. }
  rewrite <- (firstn_skipn k) in Hin. apply in_app_or in Hin as [Hin|Hin].
  - exfalso. apply Hnj. apply in_map_iff. now exists (j, nth j l d).
  - pose proof (sorted_firstn_skipn (desc leb) k _ _ _
                  (sort_desc_sorted _) Hi Hin) as R.
    unfold desc in R. simpl in R. now rewrite Ev.
Qed.
End TopKFacts.

Lemma Qcleb_le x y : Qcleb x y = true <-> (x <= y)%Qc.
Proof.
  unfold Qcleb. rewrite Qcle_alt. destruct (x ?= y)%Qc; split; congruence.
Qed.

Lemma fleb_total x y : fleb x y = true \/ fleb y x = true.
Proof.
  destruct x as [x|], y as [y|]; simpl; auto.
  destruct (Qclt_le_dec x y) as [H|H].
  - left. apply Qcleb_le. now apply Qclt_le_weak.
  - right. now apply Qcleb_le.
Qed.

Lemma fleb_trans x y z : fleb x y = true -> fleb y z = true -> fleb x z = true.
Proof.
  destruct x as [x|], y as [y|], z as [z|]; simpl; try congruence.
  rewrite !Qcleb_le. apply Qcle_trans.
Qed.

Lemma qsum_perm l1 l2 : Permutation l1 l2 -> qsum l1 = qsum l2.
Proof.
  induction 1; simpl; try congruence; ring.
Qed.

Lemma qsum_filter_split {A} (f : A -> Qc) (p : A -> bool) l :
  qsum (map f l)
  = (qsum (map f (filter p l))
     + qsum (map f (filter (fun a => negb (p a)) l)))%Qc.
Proof.
  induction l as [|a l IH]; simpl; [ring|].
  rewrite IH. destruct (p a); simpl; ring.
Qed.

Lemma length_filter_split {A} (p : A -> bool) l :
  List.length l
  = List.length (filter p l) + List.length (filter (fun a => negb (p a)) l).
Proof.
  induction l as [|a l IH]; simpl; [reflexivity|].
  destruct (p a); simpl; lia.
Qed.

Lemma qsum_const_lists {A} (f : A -> Qc) X Y :
  List.length X = List.length Y ->
  (forall x y, In x X -> In y Y -> f x = f y) ->
  qsum (map f X) = qsum (map f Y).
Proof.
  revert Y. induction X as [|x X IH]; intros [|y Y] HL E; simpl in *;
    try discriminate; [reflexivity|].
  rewrite (E x y) by auto. f_equal. apply IH; [lia|]. auto.
Qed.

Lemma mem_true s i : mem s i = true <-> In i s.
Proof. unfold mem. destruct (in_dec Nat.eq_dec i s); split; auto; discriminate.
Qed.

Lemma mem_false s i : negb (mem s i) = true <-> ~ In i s.
Proof.
  unfold mem. destruct (in_dec Nat.eq_dec i s); simpl; split; auto;
    try discriminate; intros H; contradiction.
Qed.

Lemma topk_selection_sum_unique k l s1 s2 :
  is_topk_selection k l s1 -> is_topk_selection k l s2 ->
  qsum (map (fun i => nth i l 0%Qc) s1) = qsum (map (fun i => nth i l 0%Qc) s2).
Proof.
  intros (N1 & L1 & B1 & T1) (N2 & L2 & B2 & T2).
  rewrite (qsum_filter_split _ (mem s2) s1), (qsum_filter_split _ (mem s1) s2).
  assert (P : Permutation (filter (mem s2) s1) (filter (mem s1) s2)).
  { apply NoDup_Permutation; try now apply NoDup_filter.
    intros x. rewrite !filter_In, !mem_true. tauto. }
  f_equal.
  - apply qsum_perm. now apply Permutation_map.
  - apply qsum_const_lists.
    + pose proof (length_filter_split (mem s2) s1).
      pose proof (length_filter_split (mem s1) s2).
      apply Permutation_length in P. lia.
    + intros x y Hx Hy.
      apply filter_In in Hx as [Hx1 Hx2]. apply filter_In in Hy as [Hy1 Hy2].
      apply mem_false in Hx2, Hy2.
      apply Qcle_antisym.
      * apply T2; auto.
      * apply T1; auto.
Qed.

Lemma nth_map_Fin (l : list Qc) i :
  i < List.length l -> nth i (map Fin l) NaN = Fin (nth i l 0%Qc).
Proof.
  intros Hi. rewrite (nth_indep _ NaN (Fin 0%Qc)) by now rewrite length_map.
  apply map_nth.
Qed.

(** The indices that the model of [torch.topk] returns form such a
    selection. *)
Lemma topk_model_is_selection k (l : list Qc) :
  k <= List.length l ->
  is_topk_selection k l (map fst (top_entries fleb (map Fin l) k)).
Proof.
  intros Hk.
  assert (Hin : forall i, In i (map fst (top_entries fleb (map Fin l) k)) ->
                          i < List.length l).
  { intros i Hi. apply in_map_iff in Hi as ([i' v] & E & Hi). simpl in E; subst.
    apply (top_entries_in fleb NaN) in Hi as [Hi _].
    now rewrite length_map in Hi. }
  repeat split.
  - apply top_entries_NoDup.
  - rewrite length_map. apply top_entries_length. now rewrite length_map.
  - exact Hin.
  - intros i j Hi Hj Hnj.
    pose proof (top_entries_largest fleb fleb_total fleb_trans NaN
                  (map Fin l) k i j Hi) as G.
    rewrite length_map in G. specialize (G Hj Hnj).
    rewrite !nth_map_Fin in G by auto. now apply Qcleb_le.
Qed.

Lemma for_each_fadd {A} (xs : list A) (body : A -> float -> result float)
  (x : A -> Qc) (a : Qc) :
  (forall i acc, In i xs -> body i (Fin acc) = Ok (Fin (acc + x i)%Qc)) ->
  for_each xs body (Fin a) = Ok (Fin (a + qsum (map x xs))%Qc).
Proof.
  revert a. induction xs as [|i xs IH]; intros a Hb; simpl.
  - do 2 f_equal. ring.
  - rewrite Hb by now left. simpl. rewrite IH by (intros; apply Hb; now right).
    do 2 f_equal. ring.
Qed.

Lemma indices1 n : indices [n] = map (fun j => [j]) (seq 0 n).
Proof.
  simpl. generalize 0. induction n as [|n IH]; intros m; simpl; [reflexivity|].
  now rewrite IH.
Qed.

Lemma map_nth_seq {A B} (f : A -> B) (l : list A) d :
  map (fun j => f (nth j l d)) (seq 0 (List.length l)) = map f l.
Proof.
  rewrite <- (map_map (fun j => nth j l d) f). f_equal.
  induction l as [|a l IH]; simpl; [reflexivity|].
  f_equal. rewrite <- seq_shift, map_map. exact IH.
Qed.

Lemma fsum_Fin l : fsum (map Fin l) = Fin (qsum l).
Proof.
  induction l as [|x l IH]; simpl; [reflexivity|]. now rewrite IH.
Qed.

Lemma qn_neq0 n : 0 < n -> qn n <> 0%Qc.
Proof.
  intros Hn E.
  assert (Q : (inject_Z (Z.of_nat n) == 0)%Q).
  { rewrite <- (Qred_correct (inject_Z (Z.of_nat n))).
    change (Qred (inject_Z (Z.of_nat n))) with (this (qn n)). now rewrite E. }
  unfold Qeq in Q. simpl in Q. lia.
Qed.

Lemma for_each_collect {A T} (xs : list A)
  (body : A -> list T -> result (list T)) (P : A -> T -> Prop) acc :
  (forall x acc, In x xs -> exists t, body x acc = Ok (acc ++ [t]) /\ P x t) ->
  exists ts, for_each xs body acc = Ok (acc ++ ts) /\ Forall2 P xs ts.
Proof.
  revert acc. induction xs as [|x xs IH]; intros acc Hb; simpl.
  - exists []. rewrite app_nil_r. split; [reflexivity|constructor].
  - destruct (Hb x acc (or_introl eq_refl)) as (t & E & Pt). rewrite E. simpl.
    destruct (IH (acc ++ [t])) as (ts & E' & Ps).
    { intros; apply Hb; now right. }
    exists (t :: ts). rewrite E', <- app_assoc. split; [reflexivity|].
    now constructor.
Qed.

Lemma map_flat_map {A B C} (f : B -> C) (g : A -> list B) l :
  map f (flat_map g l) = flat_map (fun x => map f (g x)) l.
Proof.
  induction l as [|x l IH]; simpl; [reflexivity|].
  now rewrite map_app, IH.
Qed.

(** Squeezing only renames the indices. *)
Lemma squeeze_indices s :
  map (unsqueeze_idx s) (indices (squeeze_shape s)) = indices s.
Proof.
  induction s as [|d s IH]; [reflexivity|].
  cbn [squeeze_shape]. destruct (Nat.eqb_spec d 1) as [->|Hd].
  - cbn [indices seq flat_map]. rewrite app_nil_r, <- IH, map_map. reflexivity.
  - cbn [indices]. rewrite map_flat_map. apply flat_map_ext. intros i.
    rewrite <- IH, !map_map. apply map_ext. intros idx.
    cbn [unsqueeze_idx].
    destruct (Nat.eqb_spec d 1); [contradiction|reflexivity].
Qed.

Lemma to_list_squeeze {A} (t : Tensor A) : to_list (squeeze t) = to_list t.
Proof.
  unfold to_list, squeeze. cbn [shape data].
  rewrite <- (squeeze_indices (shape t)). now rewrite map_map.
Qed.

Lemma squeeze_idx_valid s idx :
  In idx (indices (squeeze_shape s)) -> In (unsqueeze_idx s idx) (indices s).
Proof.
  intros H. rewrite <- squeeze_indices. now apply in_map.
Qed.

Lemma numel_squeeze s : numel (squeeze_shape s) = numel s.
Proof.
  rewrite <- !length_indices. rewrite <- (squeeze_indices s).
  now rewrite length_map.
Qed.

(** A result index read through broadcasting stays inside the operand. *)
Lemma bdim_some a b d : bdim a b = Some d -> d = a \/ (a = 1 /\ d = b).
Proof.
  unfold bdim. destruct (Nat.eqb_spec a b); [intros [= <-]; auto|].
  destruct (Nat.eqb_spec a 1); [intros [= <-]; auto|].
  destruct (Nat.eqb_spec b 1); [intros [= <-]; auto|discriminate].
Qed.

Lemma bidx_rev_in s1 : forall s2 s idx,
  bshape_rev s1 s2 = Some s -> Forall2 lt idx s ->
  Forall2 lt (bidx_rev s1 idx) s1.
Proof.
  induction s1 as [|a r1 IH]; intros s2 s idx E F; [constructor|].
  destruct s2 as [|b r2]; cbn [bshape_rev] in E.
  - injection E as <-. rewrite bidx_rev_valid by assumption. exact F.
  - destruct (bdim a b) as [d|] eqn:Ed; [|discriminate].
    destruct (bshape_rev r1 r2) as [r|] eqn:Er; [|discriminate].
    injection E as <-. inversion F as [|i d' idx' r' Hi Hr]; subst.
    cbn [bidx_rev]. constructor; [|eapply IH; eassumption].
    destruct (Nat.eqb_spec a 1); [lia|].
    apply bdim_some in Ed as [->|[-> _]]; [assumption|congruence].
Qed.

Lemma Forall2_lt_rev_inv idx s :
  Forall2 lt (rev idx) (rev s) -> Forall2 lt idx s.
Proof.
  intros H. apply Forall2_lt_rev in H. now rewrite !rev_involutive in H.
Qed.

Lemma bidx_in_indices_l s1 s2 s idx :
  broadcast_shapes s1 s2 = Some s -> In idx (indices s) ->
  In (bidx s1 idx) (indices s1).
Proof.
  unfold broadcast_shapes, bidx. intros E H.
  destruct (bshape_rev (rev s1) (rev s2)) as [r|] eqn:Er; [|discriminate].
  injection E as <-. apply in_indices in H. apply in_indices.
  apply Forall2_lt_rev_inv. rewrite rev_involutive.
  eapply bidx_rev_in; [eassumption|].
  apply Forall2_lt_rev in H. now rewrite rev_involutive in H.
Qed.

Lemma mul_zero_l X Y S :
  broadcast_shapes (shape X) (shape Y) = Some S -> all_zero X ->
  exists R, mul X Y = Ok R /\ shape R = S /\ all_zero R.
Proof.
  intros E Z. unfold mul, map2. rewrite E. eexists. split; [reflexivity|].
  split; [reflexivity|]. intros idx Hidx. cbn [shape data] in *.
  rewrite Z by (eapply bidx_in_indices_l; eassumption). ring.
Qed.

Lemma mse_mean_zero X Y :
  shape X = shape Y -> numel (shape X) <> 0 -> all_zero X -> all_zero Y ->
  mse_mean X Y = Ok (Fin 0%Qc).
Proof.
  intros E N ZX ZY. rewrite mse_mean_same_shape by assumption.
  unfold lmean. rewrite length_map, length_indices.
  destruct (Nat.eqb_spec (numel (shape X)) 0); [contradiction|].
  rewrite qsum_map_zero.
  - do 2 f_equal. unfold Qcdiv. ring.
  - intros idx H. rewrite ZX by assumption. rewrite ZY by now rewrite <- E.
    unfold sq. ring.
Qed.

Lemma mse_mean_value X Y :
  shape X = shape Y -> numel (shape X) <> 0 ->
  exists c, mse_mean X Y = Ok (Fin c).
Proof.
  intros E N. rewrite mse_mean_same_shape by assumption.
  unfold lmean. rewrite length_map, length_indices.
  destruct (Nat.eqb_spec (numel (shape X)) 0); [contradiction|].
  eexists. reflexivity.
Qed.

(* ===================================================================== *)
(** ** Facts on [KeypointMSELoss] *)
(* ===================================================================== *)

Module KeypointMSELossFacts.
Import KeypointMSELoss.

Lemma forward_unweighted lw B K H W o g tw :
  0 < B * K * H * W ->
  forward (mk false lw) (mkHeatmaps B K H W o) (mkHeatmaps B K H W g) tw
  = Ok (Fin (sum4 B K H W (fun b k h w => sq (o b k h w - g b k h w))
             / qn (B * K * H * W) * lw)%Qc).
Proof.
  intros Hpos. unfold forward. cbn [use_target_weight loss_weight].
  rewrite mse_mean_same_shape by reflexivity.
  cbn [heatmaps_tensor shape data hm_B hm_K hm_H hm_W hm_at bind].
  rewrite lmean_map_indices4 by assumption. reflexivity.
Qed.

Lemma forward_weighted lw B K H W o g w :
  0 < B * K * H * W ->
  forward (mk true lw) (mkHeatmaps B K H W o) (mkHeatmaps B K H W g)
          (Some (mkWeights B K w))
  = Ok (Fin (sum4 B K H W
               (fun b k h w' => sq (o b k h w' * w b k - g b k h w' * w b k))
             / qn (B * K * H * W) * lw)%Qc).
Proof.
  intros Hpos. unfold forward. cbn [use_target_weight loss_weight].
  cbn [ndim heatmaps_tensor weights_tensor shape List.length Nat.ltb Nat.leb
       Nat.sub Nat.iter nat_rect unsqueeze_last app tw_B tw_K hm_B hm_K hm_H
       hm_W].
  unfold mul, map2, broadcast_shapes.
  cbn [shape heatmaps_tensor weights_tensor unsqueeze_last app rev bshape_rev
       tw_B tw_K hm_B hm_K hm_H hm_W].
  rewrite !bdim_1_r, !bdim_refl. cbn [option_map rev app bind].
  rewrite mse_mean_same_shape by reflexivity.
  cbn [shape data bind]. rewrite lmean_map_indices4 by assumption.
  cbn [fscale]. do 4 f_equal.
  apply sum4_ext. intros b k h w' Hb Hk Hh Hw.
  unfold bidx. cbn [rev app bidx_rev removelast hm_at tw_at].
  rewrite !(bsel_lt B b), !(bsel_lt K k), !(bsel_lt H h), !(bsel_lt W w')
    by assumption.
  reflexivity.
Qed.

(** C5.  On heat maps [[B, K, H, W]] with at least one entry
    [forward] without weighting returns the mean over the
    [B * K * H * W] entries of the squared error times [loss_weight];
    with weighting it returns the same mean after output and target are
    multiplied by the weight of their sample and keypoint, the
    denominator being [B * K * H * W] still. *)
Theorem keypoint_mse_forward_mean :
  forall (lw : Qc) (B K H W : nat) (o g : nat -> nat -> nat -> nat -> Qc)
         (w : nat -> nat -> Qc) (tw : option Weights),
    0 < B * K * H * W ->
    KeypointMSELoss.forward (KeypointMSELoss.mk false lw)
      (mkHeatmaps B K H W o) (mkHeatmaps B K H W g) tw
    = Ok (Fin (sum4 B K H W (fun b k h x => sq (o b k h x - g b k h x))
               / qn (B * K * H * W) * lw)%Qc)
    /\ KeypointMSELoss.forward (KeypointMSELoss.mk true lw)
         (mkHeatmaps B K H W o) (mkHeatmaps B K H W g)
         (Some (mkWeights B K w))
       = Ok (Fin (sum4 B K H W
                    (fun b k h x => sq (o b k h x * w b k - g b k h x * w b k))
                  / qn (B * K * H * W) * lw)%Qc).
Proof.
  intros lw B K H W o g w tw Hpos. split.
  - now apply forward_unweighted.
  - now apply forward_weighted.
Qed.

Lemma keypoint_mse_forward_mean_witness :
  KeypointMSELoss.forward (KeypointMSELoss.mk false (qz 2))
    mse_example_output mse_example_target None
  = Ok (Fin (sum4 1 2 1 2
               (fun b k h x => sq (hm_at mse_example_output b k h x
                                   - hm_at mse_example_target b k h x))
             / qn (1 * 2 * 1 * 2) * qz 2)%Qc).
Proof.
  apply (proj1 (keypoint_mse_forward_mean (qz 2) 1 2 1 2
                  (hm_at mse_example_output) (hm_at mse_example_target)
                  (fun _ _ => 1%Qc) None ltac:(simpl; lia))).
Defined.

(** C6.  With weighting enabled and no target weights [forward] raises
    (the assertion that the weights are not [None] fails) and returns no
    value. *)
Theorem keypoint_mse_none_weights_raises :
  forall (lw : Qc) (output target : Heatmaps),
    KeypointMSELoss.forward (KeypointMSELoss.mk true lw) output target None
    = Raise AssertionError.
Proof. reflexivity. Qed.

(** With every target weight zero the loss on rationals is 0. *)
Lemma forward_zero_weights lw B K H W o g w :
  0 < B * K * H * W ->
  (forall b k, b < B -> k < K -> w b k = 0%Qc) ->
  forward (mk true lw) (mkHeatmaps B K H W o) (mkHeatmaps B K H W g)
          (Some (mkWeights B K w))
  = Ok (Fin 0%Qc).
Proof.
  intros Hpos Hz. rewrite forward_weighted by assumption.
  rewrite sum4_zero.
  - do 2 f_equal. unfold Qcdiv. ring.
  - intros b k h x Hb Hk _ _. rewrite Hz by assumption. unfold sq. ring.
Qed.

End KeypointMSELossFacts.

(* ===================================================================== *)
(** ** Facts on [KeypointOHKMMSELoss] *)
(* ===================================================================== *)

Module KeypointOHKMMSELossFacts.
Import KeypointOHKMMSELoss.

Lemma row_length K L : List.length (row K L) = K.
Proof. unfold row. now rewrite length_map, length_seq. Qed.

Lemma row_nth K L j : j < K -> nth j (row K L) 0%Qc = L j.
Proof.
  intros Hj. unfold row.
  rewrite (nth_indep _ 0%Qc (L 0)) by now rewrite length_map, length_seq.
  rewrite map_nth, seq_nth by assumption. reflexivity.
Qed.

Lemma ohkm_matrix self (M : Tensor float) B K (L : nat -> nat -> Qc) :
  shape M = [B; K] ->
  (forall b j, b < B -> j < K -> data M [b; j] = Fin (L b j)) ->
  0 < B -> topk self <= K ->
  _ohkm self M
  = Ok (Fin (sum_n B (fun b =>
               qsum (map (fun i => nth i (row K (L b)) 0%Qc)
                         (model_selection (topk self) K (L b)))
               / qn (topk self)) / qn B)%Qc).
Proof.
  intros HS HD HB Hk. unfold _ohkm, size. rewrite HS. cbn [nth_error bind].
  rewrite (for_each_fadd _ _ (fun b =>
     qsum (map (fun i => nth i (row K (L b)) 0%Qc)
               (model_selection (topk self) K (L b))) / qn (topk self))%Qc).
  - cbn [bind]. destruct (Nat.eqb_spec B 0); [lia|].
    cbn [fdivq]. unfold sum_n, range. do 2 f_equal. unfold Qcdiv. ring.
  - intros b acc Hb. apply in_seq in Hb.
    unfold select0. rewrite HS.
    destruct (Nat.ltb_spec b B); [|lia]. cbn [bind].
    unfold Torch.topk, to_list. cbn [shape data]. rewrite indices1, map_map.
    assert (EL : map (fun j => data M [b; j]) (seq 0 K)
                 = map Fin (row K (L b))).
    { unfold row. rewrite map_map. apply map_ext_in. intros j Hj.
      apply in_seq in Hj. apply HD; lia. }
    rewrite EL. rewrite length_map, row_length.
    destruct (Nat.ltb_spec K (topk self)); [lia|]. cbn [bind].
    fold (model_selection (topk self) K (L b)).
    pose proof (topk_model_is_selection (topk self) (row K (L b))) as Sel.
    rewrite row_length in Sel. specialize (Sel Hk).
    fold (model_selection (topk self) K (L b)) in Sel.
    destruct Sel as (_ & _ & Sb & _). rewrite row_length in Sb.
    unfold tfsum, gather0, to_list, of_list. cbn [shape data].
    rewrite indices1, map_map. cbn [hd].
    rewrite (map_nth_seq (fun m => data M [b; m])).
    assert (EM : map (fun m => data M [b; m])
                     (model_selection (topk self) K (L b))
                 = map Fin (map (fun i => nth i (row K (L b)) 0%Qc)
                                (model_selection (topk self) K (L b)))).
    { rewrite map_map. apply map_ext_in. intros m Hm.
      rewrite row_nth by auto. apply HD; [lia|auto]. }
    rewrite EM, fsum_Fin. reflexivity.
Qed.

Lemma comprehension_spec {A T U} (f : T -> result U) (P : A -> T -> Prop)
  (Q : A -> U -> Prop) xs ts :
  Forall2 P xs ts ->
  (forall x t, P x t -> exists m, f t = Ok m /\ Q x m) ->
  exists ms, comprehension f ts = Ok ms /\ Forall2 Q xs ms.
Proof.
  intros H Hf. induction H as [|x t xs ts Pxt _ IH]; simpl.
  - exists []. split; [reflexivity|constructor].
  - destruct (Hf x t Pxt) as (m & E & Qm). destruct IH as (ms & E' & Qs).
    rewrite E, E'. simpl. exists (m :: ms).
    split; [reflexivity|now constructor].
Qed.

Lemma Forall2_seq_nth {T} (P : nat -> T -> Prop) n K ts d :
  Forall2 P (seq n K) ts ->
  List.length ts = K /\ forall j, j < K -> P (n + j) (nth j ts d).
Proof.
  revert n ts. induction K as [|K IH]; intros n ts H; simpl in H.
  - inversion H. split; [reflexivity|]. intros; lia.
  - inversion H as [|x t xs ts' Pt Pts]; subst.
    apply IH in Pts as [EL Pn]. split; [simpl; lia|].
    intros [|j] Hj; simpl.
    + now rewrite Nat.add_0_r.
    + replace (n + S j) with (S n + j) by lia. apply Pn. lia.
Qed.

Lemma cat_pick_unit {A} (ms : list (Tensor A)) j (k : Tensor A -> nat -> A)
  d m0 :
  (forall m, In m ms -> dim_at 1 m = 1) -> j < List.length ms ->
  cat_pick (dim_at 1) ms j k d = k (nth j ms m0) 0.
Proof.
  revert j. induction ms as [|m ms IH]; intros j Hd Hj; simpl in *; [lia|].
  rewrite (Hd m) by now left. destruct j as [|j]; simpl; [reflexivity|].
  rewrite Nat.sub_0_r. apply IH; [auto|lia].
Qed.

Lemma sum_nat_units {A} (f : A -> nat) l :
  (forall x, In x l -> f x = 1) -> sum_nat (map f l) = List.length l.
Proof.
  induction l as [|x l IH]; intros H; simpl; [reflexivity|].
  rewrite H by now left. rewrite IH; [reflexivity|]. intros; apply H; now right.
Qed.

Lemma qsum_indices2 H W (g : list nat -> Qc) :
  qsum (map g (indices [H; W])) = sum2 H W (fun h w => g [h; w]).
Proof.
  unfold sum2. rewrite qsum_indices_cons. apply sum_n_ext; intros h _.
  rewrite qsum_indices_cons. apply sum_n_ext; intros w _.
  apply qsum_indices_nil.
Qed.

Lemma sum2_ext H W f f' :
  (forall h w, h < H -> w < W -> f h w = f' h w) -> sum2 H W f = sum2 H W f'.
Proof.
  intros E. unfold sum2.
  apply sum_n_ext; intros h Hh. apply sum_n_ext; intros w Hw. now apply E.
Qed.

Lemma spatial_mean_spec B H W e T :
  0 < H * W -> kp_spec B H W e T ->
  exists m, (m <- mean_dims12 T ;; unsqueeze1 m) = Ok m /\
            col_spec B (fun b => sum2 H W (e b) / qn (H * W))%Qc m.
Proof.
  intros Hpos (HS & HD). unfold mean_dims12. rewrite HS.
  cbn [bind unsqueeze1 shape].
  eexists. split; [reflexivity|]. split; [reflexivity|].
  intros b Hb. cbn [data]. rewrite tmean_to_list. unfold to_list, lmean.
  cbn [shape data].
  rewrite length_map, length_indices. cbn [numel fold_right].
  replace (H * (W * 1)) with (H * W) by lia.
  destruct (Nat.eqb_spec (H * W) 0); [lia|].
  rewrite qsum_indices2. do 2 f_equal. apply sum2_ext. intros h w Hh Hw.
  now apply HD.
Qed.

Lemma cat1_columns B K (L : nat -> nat -> Qc) ms :
  0 < K ->
  Forall2 (fun j m => col_spec B (fun b => L b j) m) (seq 0 K) ms ->
  exists M, cat1 ms = Ok M /\ shape M = [B; K] /\
            forall b j, b < B -> j < K -> data M [b; j] = Fin (L b j).
Proof.
  intros HK HF.
  destruct ms as [|m0 ms'].
  { destruct K; [lia|]. inversion HF. }
  pose proof (Forall2_seq_nth _ 0 K _ m0 HF) as [HL Hn].
  assert (Hall : forall m, In m (m0 :: ms') -> shape m = [B; 1]).
  { intros m Hm. apply (In_nth _ _ m0) in Hm as (j & Hj & <-).
    rewrite HL in Hj. apply (Hn j Hj). }
  assert (H0 : shape m0 = [B; 1]).
  { apply Hall. now left. }
  assert (Hchk : forallb (fun t : Tensor float =>
             match shape t with
             | d :: _ :: r =>
                 if list_eq_dec Nat.eq_dec (d :: r) [B] then true else false
             | _ => false
             end) (m0 :: ms') = true).
  { apply forallb_forall. intros m Hm. rewrite (Hall m Hm).
    destruct (list_eq_dec Nat.eq_dec [B] [B]); congruence. }
  assert (Hdim : forall m, In m (m0 :: ms') -> dim_at 1 m = 1).
  { intros m Hm. unfold dim_at. now rewrite (Hall m Hm). }
  unfold cat1. rewrite H0, Hchk.
  eexists. split; [reflexivity|]. cbn [shape data].
  split.
  - rewrite sum_nat_units by assumption. now rewrite HL.
  - intros b j Hb Hj. cbn [nth hd tl].
    rewrite (cat_pick_unit (m0 :: ms') j _ _ m0) by (auto; lia).
    apply (Hn j Hj). assumption.
Qed.

Lemma bidx3 B H W b h w :
  b < B -> h < H -> w < W -> bidx [B; H; W] [b; h; w] = [b; h; w].
Proof.
  intros. unfold bidx. cbn [rev app bidx_rev]. now rewrite !bsel_lt.
Qed.

Lemma bidx3_unit B b h w : b < B -> bidx [B; 1; 1] [b; h; w] = [b; 0; 0].
Proof.
  intros. unfold bidx. cbn [rev app bidx_rev Nat.eqb]. now rewrite bsel_lt.
Qed.

Lemma ohkm_forward_value u k lw B K H W o g w tw :
  0 < B -> 0 < H * W -> 0 < k -> k <= K ->
  (u = true -> tw = Some (mkWeights B K w)) ->
  forward (mk u k lw) (mkHeatmaps B K H W o) (mkHeatmaps B K H W g) tw
  = Ok (Fin (sum_n B (fun b =>
               qsum (map (fun i =>
                            nth i (row K (keypoint_loss u H W o g w b)) 0%Qc)
                         (model_selection k K (keypoint_loss u H W o g w b)))
               / qn k) / qn B * lw)%Qc).
Proof.
  intros HB HHW Hk HkK Htw. unfold forward.
  cbn [size heatmaps_tensor shape nth_error hm_B hm_K hm_H hm_W bind topk
       use_target_weight loss_weight].
  destruct (Nat.ltb_spec K k); [lia|].
  match goal with
  | |- context [for_each ?xs ?body ?acc] =>
      destruct (for_each_collect xs body
                  (fun j T =>
                     kp_spec B H W (fun b h x => sq_err u o g w b j h x) T)
                  acc)
        as (ts & E & F)
  end.
  { intros idx acc Hidx. apply in_seq in Hidx.
    destruct u.
    - rewrite (Htw eq_refl).
      unfold select1_none_none, select1, unsqueeze1. tsimpl.
      destruct (Nat.ltb_spec idx K); [|lia]. tsimpl.
      unfold mul, mse_none, map2, broadcast_shapes. tsimpl.
      rewrite !bdim_1_r, !bdim_refl. tsimpl.
      rewrite !bdim_refl. tsimpl.
      eexists. split; [reflexivity|]. split; [reflexivity|].
      intros b h x Hb Hh Hx. tsimpl.
      rewrite !bidx3, !bidx3_unit by assumption.
      reflexivity.
    - unfold select1. tsimpl.
      destruct (Nat.ltb_spec idx K); [|lia]. tsimpl.
      unfold mse_none, map2. tsimpl. rewrite broadcast_shapes_refl.
      tsimpl. eexists. split; [reflexivity|]. split; [reflexivity|].
      intros b h x Hb Hh Hx. tsimpl.
      rewrite !bidx3 by assumption.
      unfold sq_err, weight_factor. f_equal. ring. }
  rewrite E. cbn [bind app].
  destruct (comprehension_spec
              (fun loss : Tensor Qc => m <- mean_dims12 loss ;; unsqueeze1 m)
              _ (fun j m =>
                   col_spec B (fun b => keypoint_loss u H W o g w b j) m)
              _ _ F) as (ms & E2 & F2).
  { intros j T PT. apply (spatial_mean_spec B H W _ T HHW PT). }
  rewrite E2. cbn [bind].
  destruct (cat1_columns B K (keypoint_loss u H W o g w) ms)
    as (M & E3 & HS & HD);
    [lia|exact F2|].
  rewrite E3. cbn [bind].
  rewrite (ohkm_matrix _ M B K (keypoint_loss u H W o g w) HS HD HB)
    by assumption.
  reflexivity.
Qed.

(** C1.  On heat maps [[B, K, H, W]] (with a batch, a grid and
    [0 < topk <= K]) [forward] takes the squared error of every entry,
    the target weight applied to output and target when weighting is
    enabled, reduces it by the spatial mean to the loss matrix
    [[B, K]], and for each sample sums [topk] largest losses of its row
    and divides by [topk]; the mean of these values over the batch
    times [loss_weight] is returned.  Any selection of [topk] largest
    entries gives the returned value, and one exists.  On one sample
    with the losses 9, 1, 8, 2, 7, 3, 6, 4, 5, 0 and [topk = 3] the
    result is 8, from the loss matrix and from heat maps with these
    losses. *)
Theorem ohkm_forward_topk_mean :
  forall (u : bool) (k : nat) (lw : Qc) (B K H W : nat)
         (o g : nat -> nat -> nat -> nat -> Qc) (w : nat -> nat -> Qc)
         (tw : option Weights),
    0 < B -> 0 < H * W -> 0 < k -> k <= K ->
    (u = true -> tw = Some (mkWeights B K w)) ->
    let L := keypoint_loss u H W o g w in
    (exists sel, forall b, b < B -> is_topk_selection k (row K (L b)) (sel b))
    /\ (forall sel : nat -> list nat,
          (forall b, b < B -> is_topk_selection k (row K (L b)) (sel b)) ->
          forward (mk u k lw) (mkHeatmaps B K H W o) (mkHeatmaps B K H W g) tw
          = Ok (Fin (sum_n B (fun b =>
                       qsum (map (fun i => nth i (row K (L b)) 0%Qc) (sel b))
                       / qn k) / qn B * lw)%Qc))
    /\ _ohkm (mk false 3 1%Qc) ohkm_example_losses = Ok (Fin (qz 8))
    /\ row 10 (keypoint_loss false 2 2 (hm_at ohkm_example_output)
                 (hm_at ohkm_example_target) (fun _ _ => 1%Qc) 0)
       = map qz [9; 1; 8; 2; 7; 3; 6; 4; 5; 0]%Z
    /\ forward (mk false 3 1%Qc) ohkm_example_output ohkm_example_target None
       = Ok (Fin (qz 8)).
Proof.
  intros u k lw B K H W o g w tw HB HHW Hk HkK Htw L.
  assert (Hsel : forall b,
             is_topk_selection k (row K (L b)) (model_selection k K (L b))).
  { intros b. apply topk_model_is_selection. now rewrite row_length. }
  split; [|split; [|split; [|split]]].
  - exists (fun b => model_selection k K (L b)). auto.
  - intros sel Hs.
    rewrite (ohkm_forward_value u k lw B K H W o g w tw) by assumption.
    do 2 f_equal. f_equal. f_equal. apply sum_n_ext. intros b Hb.
    fold L. f_equal.
    apply (topk_selection_sum_unique k); auto.
  - apply is_value_true. vm_compute. reflexivity.
  - unfold row. cbn [seq map].
    repeat (apply (f_equal2 cons);
            [apply Qc_is_canon; vm_compute; reflexivity|]).
    reflexivity.
  - apply is_value_true. vm_compute. reflexivity.
Qed.

Lemma ohkm_forward_topk_mean_witness :
  forward (mk false 3 1%Qc) ohkm_example_output ohkm_example_target None
  = Ok (Fin (sum_n 1 (fun b =>
          qsum (map (fun i => nth i (row 10 (keypoint_loss false 2 2
                  (hm_at ohkm_example_output) (hm_at ohkm_example_target)
                  (fun _ _ => 1%Qc) b)) 0%Qc) [0; 2; 4]%nat)
          / qn 3) / qn 1 * 1)%Qc).
Proof.
  refine (proj1 (proj2 (ohkm_forward_topk_mean false 3 1%Qc 1 10 2 2
            (hm_at ohkm_example_output) (hm_at ohkm_example_target)
            (fun _ _ => 1%Qc) None _ _ _ _ _)) (fun _ => [0; 2; 4]) _);
    [lia | lia | lia | lia | intros E; discriminate E | ].
  intros b Hb. assert (b = 0) by lia. subst b.
  assert (R : row 10 (keypoint_loss false 2 2 (hm_at ohkm_example_output)
                 (hm_at ohkm_example_target) (fun _ _ => 1%Qc) 0)
              = map qz [9; 1; 8; 2; 7; 3; 6; 4; 5; 0]%Z).
  { unfold row. cbn [seq map].
    repeat (apply (f_equal2 cons);
            [apply Qc_is_canon; vm_compute; reflexivity|]).
    reflexivity. }
  rewrite R. repeat split.
  - repeat constructor; simpl; intuition lia.
  - simpl. intuition lia.
  - intros i j Hi Hj Hn. simpl in Hj.
    assert (Hi' : i = 0 \/ i = 2 \/ i = 4) by (simpl in Hi; intuition lia).
    assert (Hj' : j = 1 \/ j = 3 \/ j = 5 \/ j = 6 \/ j = 7 \/ j = 8
                  \/ j = 9).
    { simpl in Hn. lia. }
    destruct Hi' as [E|[E|E]];
      destruct Hj' as [F|[F|[F|[F|[F|[F|F]]]]]];
      subst i j; apply Qcleb_le; vm_compute; reflexivity.
Defined.

(** C2.  When the output has fewer keypoint channels than [topk],
    [forward] raises the [ValueError] whose message says that topk
    should not be larger than num_keypoints: whatever the target and
    the weights are, also when they are missing or of another shape, so
    before anything is computed from them, and no value is returned. *)
Theorem ohkm_topk_exceeds_num_keypoints :
  forall (u : bool) (k : nat) (lw : Qc) (output target : Heatmaps)
         (tw : option Weights),
    hm_K output < k ->
    forward (mk u k lw) output target tw
    = Raise (ValueError (topk_message k (hm_K output))).
Proof.
  intros u k lw output target tw Hlt. unfold forward.
  cbn [size heatmaps_tensor shape nth_error bind topk].
  destruct (Nat.ltb_spec (hm_K output) k); [reflexivity|lia].
Qed.

Lemma ohkm_topk_exceeds_num_keypoints_witness :
  forward (mk true 8 1%Qc) (mkHeatmaps 2 5 1 1 (fun _ _ _ _ => 1%Qc))
          (mkHeatmaps 3 4 2 2 (fun _ _ _ _ => 0%Qc)) None
  = Raise (ValueError "topk (8) should not be larger than num_keypoints (5).").
Proof.
  apply (ohkm_topk_exceeds_num_keypoints true 8 1%Qc
           (mkHeatmaps 2 5 1 1 (fun _ _ _ _ => 1%Qc))). simpl. lia.
Defined.

End KeypointOHKMMSELossFacts.

(* ===================================================================== *)
(** ** Facts on [CombinedTargetMSELoss] *)
(* ===================================================================== *)

Module CombinedTargetMSELossFacts.
Import CombinedTargetMSELoss.

Lemma divmod_unique a m q r :
  r < m -> a = m * q + r -> a / m = q /\ a mod m = r.
Proof.
  intros Hr E. split.
  - symmetry. eapply Nat.div_unique; eassumption.
  - symmetry. eapply Nat.mod_unique; eassumption.
Qed.

Lemma unravel_ravel_hw B C H W b j k :
  j < C -> k < H * W ->
  unravel [B; C; H; W] (ravel [B; C; H * W] [b; j; k]) = [b; j; k / W; k mod W].
Proof.
  intros Hj Hk. cbn [ravel unravel numel fold_right].
  set (L := H * W) in *.
  assert (HL : H * (W * 1) = L) by (unfold L; lia).
  rewrite HL, !Nat.mul_1_r, Nat.add_0_r.
  assert (Hr : j * L + k < C * L).
  { apply Nat.lt_le_trans with (S j * L); [simpl; lia|].
    apply Nat.mul_le_mono_r. lia. }
  destruct (divmod_unique (b * (C * L) + (j * L + k)) (C * L) b (j * L + k) Hr)
    as [E1 E2]; [lia|].
  rewrite E1, E2.
  destruct (divmod_unique (j * L + k) L j k Hk) as [E3 E4]; [lia|].
  rewrite E3, E4. now rewrite Nat.div_1_r.
Qed.

Lemma split_channels_heatmaps x :
  0 < hm_B x * hm_K x ->
  split_channels (heatmaps_tensor x) (hm_B x) (hm_K x)
  = Ok (map (channel x) (seq 0 (hm_K x))).
Proof.
  intros Hpos. unfold split_channels, reshape3.
  destruct (Nat.eqb_spec (hm_B x * hm_K x) 0); [lia|].
  assert (EN : numel (shape (heatmaps_tensor x))
               = hm_H x * hm_W x * (hm_B x * hm_K x)).
  { cbn [heatmaps_tensor shape numel fold_right]. lia. }
  rewrite EN, Nat.Div0.mod_mul, Nat.div_mul by lia.
  reflexivity.
Qed.

Lemma channel_data B C H W f b j k :
  j < C -> k < H * W ->
  data (channel (mkHeatmaps B C H W f) j) [b; 0; k] = f b j (k / W) (k mod W).
Proof.
  intros Hj Hk. unfold channel, reshaped.
  cbn [data shape heatmaps_tensor hm_B hm_K hm_H hm_W hm_at].
  now rewrite unravel_ravel_hw.
Qed.

Lemma py_getitem_map_seq {A} (F : nat -> A) n j :
  j < n -> py_getitem (map F (seq 0 n)) j = Ok (F j).
Proof.
  intros Hj. unfold py_getitem.
  rewrite nth_error_map, nth_error_seq.
  destruct (Nat.ltb_spec j n); [reflexivity|lia].
Qed.

(** The three dimensions of a channel and the indices of its entries. *)
Lemma in_indices_channel B L idx :
  In idx (indices [B; 1; L]) <-> exists b k, idx = [b; 0; k] /\ b < B /\ k < L.
Proof.
  rewrite in_indices. split.
  - intros F. inversion F as [|b ? r1 ? Hb F1]; subst.
    inversion F1 as [|z ? r2 ? Hz F2]; subst.
    inversion F2 as [|k ? r3 ? Hk F3]; subst. inversion F3; subst.
    exists b, k. repeat split; try assumption. f_equal. f_equal. lia.
  - intros (b & k & -> & Hb & Hk). repeat constructor; assumption.
Qed.

Lemma sum_n_S n f : sum_n (S n) f = (sum_n n f + f n)%Qc.
Proof.
  unfold sum_n. rewrite seq_S, map_app, qsum_app. simpl. ring.
Qed.

Lemma sum_n_add a b f :
  sum_n (a + b) f = (sum_n a f + sum_n b (fun i => f (a + i)%nat))%Qc.
Proof.
  induction b as [|b IH].
  - rewrite Nat.add_0_r. unfold sum_n at 3. simpl. ring.
  - rewrite Nat.add_succ_r, !sum_n_S, IH. ring.
Qed.

(** A sum over a flattened grid is the double sum. *)
Lemma sum_n_grid H W (f : nat -> nat -> Qc) :
  0 < W ->
  sum_n (H * W) (fun k => f (k / W) (k mod W)) = sum2 H W f.
Proof.
  intros HW. unfold sum2. induction H as [|H IH].
  - reflexivity.
  - replace (S H * W) with (H * W + W) by lia.
    rewrite sum_n_add, sum_n_S, IH. f_equal.
    apply sum_n_ext. intros w Hw.
    destruct (divmod_unique (H * W + w) W H w Hw) as [E1 E2]; [lia|].
    now rewrite E1, E2.
Qed.

Lemma squeezed_shapes B L :
  0 < B -> 0 < L ->
  exists Sw,
    broadcast_shapes (squeeze_shape [B; 1; L]) [B; 1] = Some Sw /\
    broadcast_shapes Sw (squeeze_shape [B; 1; L]) = Some Sw /\
    numel Sw <> 0.
Proof.
  intros HB HL. cbn [squeeze_shape Nat.eqb].
  destruct (Nat.eqb_spec B 1) as [->|NB];
    destruct (Nat.eqb_spec L 1) as [->|NL].
  - exists [1; 1]. repeat split; simpl; lia.
  - exists [1; L]. unfold broadcast_shapes. cbn [rev app bshape_rev].
    rewrite bdim_1_r, bdim_refl. repeat split. simpl; lia.
  - exists [B; B]. unfold broadcast_shapes. cbn [rev app bshape_rev].
    rewrite bdim_1_r, bdim_refl. repeat split. simpl. nia.
  - exists [B; L]. unfold broadcast_shapes. cbn [rev app bshape_rev].
    rewrite bdim_1_r, !bdim_refl. repeat split. simpl. nia.
Qed.

Lemma mul_shape X Y S :
  broadcast_shapes (shape X) (shape Y) = Some S ->
  exists R, mul X Y = Ok R /\ shape R = S.
Proof.
  intros E. unfold mul, map2. rewrite E. eexists. split; reflexivity.
Qed.

Lemma regression_mse_masked hg p q S :
  shape hg = S -> numel S <> 0 -> all_zero hg ->
  broadcast_shapes S (shape p) = Some S ->
  broadcast_shapes S (shape q) = Some S ->
  regression_mse hg p q = Ok (Fin 0%Qc).
Proof.
  intros HS HN HZ Bp Bq. unfold regression_mse. subst S.
  destruct (mul_zero_l hg p _ Bp HZ) as (R1 & E1 & S1 & Z1).
  destruct (mul_zero_l hg q _ Bq HZ) as (R2 & E2 & S2 & Z2).
  rewrite E1, E2. cbn [bind].
  apply mse_mean_zero; try assumption; congruence.
Qed.

Lemma maps_masked_terms m :
  maps_masked m ->
  exists c,
    classification_mse m = Ok (Fin c) /\
    regression_mse (heatmap_gt m) (offset_x_pred m) (offset_x_gt m)
    = Ok (Fin 0%Qc) /\
    regression_mse (heatmap_gt m) (offset_y_pred m) (offset_y_gt m)
    = Ok (Fin 0%Qc).
Proof.
  intros (S & Hp & Hg & HN & HZ & B1 & B2 & B3 & B4).
  destruct (mse_mean_value (heatmap_pred m) (heatmap_gt m)) as (c & Ec);
    [congruence|congruence|].
  exists c. split; [exact Ec|].
  split; eapply regression_mse_masked; eassumption.
Qed.

Lemma squeeze_channel_zero B C H W g j :
  0 < W -> j < C ->
  (forall b h x, b < B -> h < H -> x < W -> g b j h x = 0%Qc) ->
  all_zero (squeeze (channel (mkHeatmaps B C H W g) j)).
Proof.
  intros HW Hj Hz idx Hidx.
  cbn [squeeze shape data channel hm_B hm_H hm_W] in *.
  apply squeeze_idx_valid in Hidx.
  apply in_indices_channel in Hidx as (b & k & E & Hb & Hk).
  rewrite E. fold (channel (mkHeatmaps B C H W g) j). 
  change (data (channel (mkHeatmaps B C H W g) j) [b; 0; k] = 0%Qc).
  rewrite channel_data by assumption.
  apply Hz; [assumption| |apply Nat.mod_upper_bound; lia].
  apply Nat.Div0.div_lt_upper_bound. lia.
Qed.

Lemma keypoint_maps_masked u B K H W o g w tw k :
  0 < B -> 0 < H * W -> k < K ->
  (u = true -> tw = Some (mkWeights B K w)) ->
  (forall b h x, b < B -> h < H -> x < W -> g b (k * 3) h x = 0%Qc) ->
  exists m,
    keypoint_maps u
      (map (channel (mkHeatmaps B (K * 3) H W o)) (seq 0 (K * 3)))
      (map (channel (mkHeatmaps B (K * 3) H W g)) (seq 0 (K * 3))) tw k
    = Ok m /\ maps_masked m.
Proof.
  intros HB HHW Hk Htw Hz. unfold keypoint_maps.
  rewrite !py_getitem_map_seq by lia. cbn [bind].
  assert (HZ : all_zero
                 (squeeze (channel (mkHeatmaps B (K * 3) H W g) (k * 3)))).
  { apply squeeze_channel_zero; [lia|lia|assumption]. }
  destruct (squeezed_shapes B (H * W) HB HHW) as (Sw & E1 & E2 & HN).
  destruct u.
  - rewrite (Htw eq_refl). unfold select1_none, select1, unsqueeze1.
    cbn [weights_tensor shape tw_B tw_K bind].
    destruct (Nat.ltb_spec k K); [|lia].
    cbn [bind shape heatmap_pred heatmap_gt].
    match goal with
    | |- context [mul (squeeze ?c) ?t] =>
        destruct (mul_shape (squeeze c) t Sw E1) as (R1 & M1 & S1)
    end.
    rewrite M1. cbn [bind].
    match goal with
    | |- context [mul (squeeze ?c) ?t] =>
        destruct (mul_zero_l (squeeze c) t Sw E1 HZ) as (R2 & M2 & S2 & Z2)
    end.
    rewrite M2. cbn [bind].
    eexists. split; [reflexivity|]. exists Sw.
    cbn [heatmap_pred heatmap_gt offset_x_pred offset_x_gt offset_y_pred
         offset_y_gt].
    repeat split; assumption.
  - eexists. split; [reflexivity|]. exists (squeeze_shape [B; 1; H * W]).
    cbn [heatmap_pred heatmap_gt offset_x_pred offset_x_gt offset_y_pred
         offset_y_gt].
    repeat split; try assumption; try apply broadcast_shapes_refl.
    rewrite numel_squeeze. simpl. nia.
Qed.

Lemma broadcast_weighted B L :
  broadcast_shapes (squeeze_shape [B; 1; L]) [B; 1] = Some (weighted_shape B L).
Proof.
  unfold weighted_shape. cbn [squeeze_shape Nat.eqb].
  destruct (Nat.eqb_spec B 1) as [->|NB];
    destruct (Nat.eqb_spec L 1) as [->|NL];
    unfold broadcast_shapes; cbn [rev app bshape_rev];
    rewrite ?bdim_1_r, ?bdim_refl; reflexivity.
Qed.

Lemma keypoint_maps_shape u B K H W o g w tw k :
  k < K ->
  (u = true -> tw = Some (mkWeights B K w)) ->
  exists m,
    keypoint_maps u
      (map (channel (mkHeatmaps B (K * 3) H W o)) (seq 0 (K * 3)))
      (map (channel (mkHeatmaps B (K * 3) H W g)) (seq 0 (K * 3))) tw k
    = Ok m /\
    shape (heatmap_pred m) = class_shape u B (H * W) /\
    shape (heatmap_gt m) = class_shape u B (H * W) /\
    shape (offset_x_pred m) = squeeze_shape [B; 1; H * W] /\
    shape (offset_x_gt m) = squeeze_shape [B; 1; H * W] /\
    shape (offset_y_pred m) = squeeze_shape [B; 1; H * W] /\
    shape (offset_y_gt m) = squeeze_shape [B; 1; H * W].
Proof.
  intros Hk Htw. unfold keypoint_maps.
  rewrite !py_getitem_map_seq by lia. cbn [bind].
  destruct u.
  - rewrite (Htw eq_refl). unfold select1_none, select1, unsqueeze1.
    cbn [weights_tensor shape tw_B tw_K bind].
    destruct (Nat.ltb_spec k K); [|lia].
    cbn [bind shape heatmap_pred heatmap_gt].
    unfold mul, map2.
    cbn [squeeze channel shape hm_B hm_K hm_H hm_W].
    rewrite broadcast_weighted. cbn [bind].
    eexists. split; [reflexivity|]. repeat split.
  - eexists. split; [reflexivity|]. repeat split.
Qed.

Lemma classification_mse_ok m S :
  shape (heatmap_pred m) = S -> shape (heatmap_gt m) = S ->
  exists c, classification_mse m = Ok c.
Proof.
  intros E1 E2. unfold classification_mse.
  rewrite mse_mean_same_shape by congruence. eexists. reflexivity.
Qed.

(** With every ground truth classification value zero, both regression
    terms of every keypoint are 0 on rationals and the loss is the sum
    of the classification terms alone. *)
Lemma forward_regression_masked :
  forall (u : bool) (lw : Qc) (B K H W : nat)
         (o g : nat -> nat -> nat -> nat -> Qc) (w : nat -> nat -> Qc)
         (tw : option Weights),
    0 < B -> 0 < K -> 0 < H * W ->
    (u = true -> tw = Some (mkWeights B K w)) ->
    (forall b k h x,
        b < B -> k < K -> h < H -> x < W -> g b (k * 3) h x = 0%Qc) ->
    let output := mkHeatmaps B (K * 3) H W o in
    let target := mkHeatmaps B (K * 3) H W g in
    exists (heatmaps_pred heatmaps_gt : list (Tensor Qc)) (c : nat -> Qc),
      split_channels (heatmaps_tensor output) B (K * 3) = Ok heatmaps_pred /\
      split_channels (heatmaps_tensor target) B (K * 3) = Ok heatmaps_gt /\
      (forall k, k < K ->
         exists m,
           keypoint_maps u heatmaps_pred heatmaps_gt tw k = Ok m /\
           classification_mse m = Ok (Fin (c k)) /\
           regression_mse (heatmap_gt m) (offset_x_pred m) (offset_x_gt m)
           = Ok (Fin 0%Qc) /\
           regression_mse (heatmap_gt m) (offset_y_pred m) (offset_y_gt m)
           = Ok (Fin 0%Qc)) /\
      forward (mk u lw) output target tw
      = Ok (Fin (sum_n K (fun k => c k * half) / qn K * lw)%Qc).
Proof.
  intros u lw B K H W o g w tw HB HK HHW Htw Hz output target.
  set (hps := map (channel output) (seq 0 (K * 3))).
  set (hgs := map (channel target) (seq 0 (K * 3))).
  assert (Eo : split_channels (heatmaps_tensor output) B (K * 3) = Ok hps).
  { apply (split_channels_heatmaps output). simpl. nia. }
  assert (Eg : split_channels (heatmaps_tensor target) B (K * 3) = Ok hgs).
  { apply (split_channels_heatmaps target). simpl. nia. }
  assert (Terms : forall k, k < K ->
            exists m,
              keypoint_maps u hps hgs tw k = Ok m /\
              classification_mse m
              = Ok (Fin (classification_value u hps hgs tw k)) /\
              regression_mse (heatmap_gt m) (offset_x_pred m) (offset_x_gt m)
              = Ok (Fin 0%Qc) /\
              regression_mse (heatmap_gt m) (offset_y_pred m) (offset_y_gt m)
              = Ok (Fin 0%Qc)).
  { intros k Hk.
    destruct (keypoint_maps_masked u B K H W o g w tw k HB HHW Hk Htw)
      as (m & Em & Mm).
    { intros b h x Hb Hh Hx. now apply Hz. }
    destruct (maps_masked_terms m Mm) as (c & Ec & Ex & Ey).
    exists m. fold output target hps hgs in Em.
    repeat split; try assumption.
    unfold classification_value. rewrite Em. cbn [bind]. now rewrite Ec. }
  exists hps, hgs, (classification_value u hps hgs tw).
  repeat split; try assumption.
  unfold forward. cbn [use_target_weight loss_weight].
  change (size (heatmaps_tensor output) 0) with (@Ok nat B).
  change (size (heatmaps_tensor output) 1) with (@Ok nat (K * 3)).
  cbn [bind]. rewrite Eo, Eg. cbn [bind]. rewrite Nat.div_mul by lia.
  rewrite (for_each_fadd _ _
             (fun k => classification_value u hps hgs tw k * half)%Qc).
  - cbn [bind]. destruct (Nat.eqb_spec K 0); [lia|].
    cbn [fdivq fscale]. unfold sum_n, range. do 2 f_equal. unfold Qcdiv. ring.
  - intros k acc Hk. apply in_seq in Hk.
    destruct (Terms k) as (m & Em & Ec & Ex & Ey); [lia|].
    rewrite Em. cbn [bind]. rewrite Ec. cbn [bind]. rewrite Ex. cbn [bind].
    rewrite Ey. cbn [bind fadd fscale]. do 2 f_equal. ring.
Qed.

Lemma good_squeezed B L : good_shape B L (squeeze_shape [B; 1; L]).
Proof.
  split; [|apply broadcast_shapes_refl].
  rewrite <- (squeeze_indices [B; 1; L]).
  apply map_ext_in. intros i Hi. unfold reindex. now rewrite bidx_valid.
Qed.

Lemma in_indices2 A B i :
  In i (indices [A; B]) <-> exists a b, i = [a; b] /\ a < A /\ b < B.
Proof.
  rewrite in_indices. split.
  - intros F. inversion F as [|a ? r1 ? Ha F1]; subst.
    inversion F1 as [|b ? r2 ? Hb F2]; subst. inversion F2; subst.
    exists a, b. auto.
  - intros (a & b & -> & Ha & Hb). repeat constructor; assumption.
Qed.

Lemma indices_unit_head s : indices (1 :: s) = map (cons 0) (indices s).
Proof. cbn [indices seq flat_map]. apply app_nil_r. Qed.

Lemma good_weighted B L :
  0 < B -> 0 < L -> B = 1 \/ 1 < L -> good_shape B L (weighted_shape B L).
Proof.
  intros HB HL Hc. unfold weighted_shape.
  destruct (Nat.eqb_spec B 1) as [->|NB].
  - destruct (Nat.eqb_spec L 1) as [->|NL].
    + split; reflexivity.
    + split.
      * rewrite !indices_unit_head, indices1, !map_map.
        apply map_ext_in. intros x Hx. apply in_seq in Hx.
        unfold reindex, bidx. cbn [squeeze_shape Nat.eqb].
        destruct (Nat.eqb_spec L 1); [contradiction|].
        cbn [rev app bidx_rev unsqueeze_idx Nat.eqb].
        destruct (Nat.eqb_spec L 1); [contradiction|reflexivity].
      * cbn [squeeze_shape Nat.eqb].
        destruct (Nat.eqb_spec L 1); [contradiction|].
        unfold broadcast_shapes. cbn [rev app bshape_rev].
        now rewrite bdim_refl.
  - destruct (Nat.eqb_spec L 1) as [->|NL]; [lia|].
    replace [B; L] with (squeeze_shape [B; 1; L]); [apply good_squeezed|].
    cbn [squeeze_shape Nat.eqb].
    destruct (Nat.eqb_spec B 1); [contradiction|].
    destruct (Nat.eqb_spec L 1); [contradiction|reflexivity].
Qed.

Lemma reindex_in B L S i :
  good_shape B L S -> In i (indices S) ->
  In (reindex B L i) (indices [B; 1; L]).
Proof.
  intros [E _] Hi. rewrite <- E. now apply in_map.
Qed.

Lemma views_ext B L S t F F' :
  good_shape B L S -> views B L S t F ->
  (forall i, In i (indices [B; 1; L]) -> F i = F' i) ->
  views B L S t F'.
Proof.
  intros G [HS HD] E. split; [assumption|].
  intros i Hi. rewrite HD by assumption. apply E.
  eapply reindex_in; eassumption.
Qed.

Lemma views_squeeze B L (P : Tensor Qc) :
  shape P = [B; 1; L] ->
  views B L (squeeze_shape [B; 1; L]) (squeeze P) (data P).
Proof.
  intros HS. split; [cbn [squeeze shape]; now rewrite HS|].
  intros i Hi. cbn [squeeze data]. rewrite HS. unfold reindex.
  now rewrite bidx_valid.
Qed.

Lemma mse_mean_views B L S X Y FX FY :
  good_shape B L S -> views B L S X FX -> views B L S Y FY ->
  mse_mean X Y
  = Ok (lmean (map (fun i => sq (FX i - FY i)%Qc) (indices [B; 1; L]))).
Proof.
  intros [E _] [SX DX] [SY DY]. rewrite mse_mean_same_shape by congruence.
  rewrite SX, <- E, map_map. do 2 f_equal.
  apply map_ext_in. intros i Hi. now rewrite DX, DY.
Qed.

Lemma mul_views_offset B L S X FX (Q : Tensor Qc) :
  good_shape B L S -> views B L S X FX -> shape Q = [B; 1; L] ->
  exists R, mul X (squeeze Q) = Ok R /\
            views B L S R (fun i => FX i * data Q i)%Qc.
Proof.
  intros [E Bc] [SX DX] SQ. unfold mul, map2.
  cbn [squeeze shape]. rewrite SX, SQ, Bc.
  eexists. split; [reflexivity|]. split; [reflexivity|].
  intros i Hi. cbn [data squeeze]. rewrite bidx_valid by assumption.
  rewrite DX by assumption. rewrite SQ. reflexivity.
Qed.

Lemma regression_mse_views B L S hg FG (P Q : Tensor Qc) :
  good_shape B L S -> views B L S hg FG ->
  shape P = [B; 1; L] -> shape Q = [B; 1; L] ->
  regression_mse hg (squeeze P) (squeeze Q)
  = Ok (lmean (map (fun i => sq (FG i * data P i - FG i * data Q i)%Qc)
                   (indices [B; 1; L]))).
Proof.
  intros G V SP SQ. unfold regression_mse.
  destruct (mul_views_offset B L S hg FG P G V SP) as (R1 & E1 & V1).
  destruct (mul_views_offset B L S hg FG Q G V SQ) as (R2 & E2 & V2).
  rewrite E1, E2. cbn [bind].
  apply (mse_mean_views B L S R1 R2 _ _ G V1 V2).
Qed.

Lemma sum_n_1 f : sum_n 1 f = f 0.
Proof. unfold sum_n. simpl. ring. Qed.

Lemma lmean_channel B H W (G : list nat -> Qc) (F : nat -> nat -> nat -> Qc) :
  0 < B -> 0 < H * W ->
  (forall b k, b < B -> k < H * W -> G [b; 0; k] = F b (k / W) (k mod W)) ->
  lmean (map G (indices [B; 1; H * W])) = Fin (mse3 B H W F).
Proof.
  intros HB HL E. unfold lmean, mse3.
  rewrite length_map, length_indices. cbn [numel fold_right].
  replace (B * (1 * (H * W * 1))) with (B * H * W) by lia.
  destruct (Nat.eqb_spec (B * H * W) 0); [nia|].
  do 2 f_equal.
  rewrite qsum_indices_cons. apply sum_n_ext. intros b Hb.
  rewrite qsum_indices_cons, sum_n_1, qsum_indices_cons.
  rewrite <- (sum_n_grid H W (F b)) by nia.
  apply sum_n_ext. intros k Hk. rewrite qsum_indices_nil. now apply E.
Qed.

Lemma select1_none_weights ws k :
  k < tw_K ws -> select1_none (weights_tensor ws) k = Ok (weight_column ws k).
Proof.
  intros Hk. unfold weight_column, select1_none, select1, unsqueeze1.
  cbn [weights_tensor shape bind].
  destruct (Nat.ltb_spec k (tw_K ws)); [reflexivity|lia].
Qed.

Lemma weight_column_shape ws k :
  k < tw_K ws -> shape (weight_column ws k) = [tw_B ws; 1].
Proof.
  intros Hk. unfold weight_column, select1_none, select1, unsqueeze1.
  cbn [weights_tensor shape bind].
  destruct (Nat.ltb_spec k (tw_K ws)); [reflexivity|lia].
Qed.

Lemma weight_column_data B K w k b z :
  k < K -> data (weight_column (mkWeights B K w) k) [b; z] = w b k.
Proof.
  intros Hk. unfold weight_column, select1_none, select1, unsqueeze1.
  cbn [weights_tensor shape bind tw_B tw_K].
  destruct (Nat.ltb_spec k K); [reflexivity|lia].
Qed.

Lemma weighted_views B K L w k (P : Tensor Qc) :
  0 < B -> 0 < L -> B = 1 \/ 1 < L -> k < K -> shape P = [B; 1; L] ->
  exists R, mul (squeeze P) (weight_column (mkWeights B K w) k) = Ok R /\
            views B L (weighted_shape B L) R
                  (fun i => data P i * w (hd 0%nat i) k)%Qc.
Proof.
  intros HB HL Hc Hk SP. unfold mul, map2.
  cbn [squeeze shape]. rewrite SP, weight_column_shape by assumption.
  cbn [tw_B]. rewrite broadcast_weighted.
  eexists. split; [reflexivity|]. split; [reflexivity|].
  intros i Hi. cbn [data squeeze]. rewrite SP.
  change (unsqueeze_idx [B; 1; L] (bidx (squeeze_shape [B; 1; L]) i))
    with (reindex B L i). f_equal.
  revert Hi. unfold weighted_shape, reindex, bidx. cbn [squeeze_shape Nat.eqb].
  destruct (Nat.eqb_spec B 1) as [->|NB];
    destruct (Nat.eqb_spec L 1) as [->|NL];
    try lia; intros Hi; apply in_indices2 in Hi as (a & x & -> & Ha & Hx);
    cbn [rev app bidx_rev unsqueeze_idx Nat.eqb hd].
  - now rewrite weight_column_data.
  - destruct (Nat.eqb_spec L 1); [contradiction|].
    cbn [hd]. rewrite weight_column_data by assumption. reflexivity.
  - destruct (Nat.eqb_spec B 1); [contradiction|].
    destruct (Nat.eqb_spec L 1); [contradiction|].
    cbn [rev app unsqueeze_idx hd Nat.eqb].
    destruct (Nat.eqb_spec B 1); [contradiction|].
    cbn [hd]. now rewrite weight_column_data.
Qed.

Lemma keypoint_maps_views u B K H W o g w tw k :
  0 < B -> 0 < H * W -> k < K ->
  (u = true -> tw = Some (mkWeights B K w)) ->
  u = false \/ B = 1 \/ 1 < H * W ->
  let O := mkHeatmaps B (K * 3) H W o in
  let G := mkHeatmaps B (K * 3) H W g in
  exists m S,
    keypoint_maps u (map (channel O) (seq 0 (K * 3)))
                  (map (channel G) (seq 0 (K * 3))) tw k = Ok m /\
    good_shape B (H * W) S /\
    views B (H * W) S (heatmap_pred m)
      (fun i => data (channel O (k * 3)%nat) i
                * weight_factor u w (hd 0%nat i) k)%Qc /\
    views B (H * W) S (heatmap_gt m)
      (fun i => data (channel G (k * 3)%nat) i
                * weight_factor u w (hd 0%nat i) k)%Qc /\
    offset_x_pred m = squeeze (channel O (k * 3 + 1)) /\
    offset_x_gt m = squeeze (channel G (k * 3 + 1)) /\
    offset_y_pred m = squeeze (channel O (k * 3 + 2)) /\
    offset_y_gt m = squeeze (channel G (k * 3 + 2)).
Proof.
  intros HB HL Hk Htw Hc O G. unfold keypoint_maps.
  rewrite !py_getitem_map_seq by lia. cbn [bind].
  destruct u.
  - rewrite (Htw eq_refl), select1_none_weights by (simpl; lia). cbn [bind].
    assert (Hc' : B = 1 \/ 1 < H * W)
      by (destruct Hc as [|[|]]; [discriminate|auto|auto]).
    destruct (weighted_views B K (H * W) w k (channel O (k * 3))
                HB HL Hc' Hk eq_refl)
      as (R1 & E1 & V1).
    destruct (weighted_views B K (H * W) w k (channel G (k * 3))
                HB HL Hc' Hk eq_refl)
      as (R2 & E2 & V2).
    cbn [heatmap_pred heatmap_gt]. rewrite E1. cbn [bind]. rewrite E2.
    cbn [bind].
    exists (mkMaps R1 R2 (squeeze (channel O (k * 3 + 1)))
                   (squeeze (channel G (k * 3 + 1)))
                   (squeeze (channel O (k * 3 + 2)))
                   (squeeze (channel G (k * 3 + 2)))),
           (weighted_shape B (H * W)).
    split; [reflexivity|]. split; [now apply good_weighted|].
    cbn [heatmap_pred heatmap_gt offset_x_pred offset_x_gt offset_y_pred
         offset_y_gt weight_factor].
    repeat split; try reflexivity; try apply V1; try apply V2.
  - eexists. exists (squeeze_shape [B; 1; H * W]).
    split; [reflexivity|]. split; [apply good_squeezed|].
    cbn [heatmap_pred heatmap_gt offset_x_pred offset_x_gt offset_y_pred
         offset_y_gt weight_factor].
    split; [|split; [|repeat split]].
    + eapply views_ext; [apply good_squeezed|apply views_squeeze; reflexivity|].
      intros i _. ring.
    + eapply views_ext; [apply good_squeezed|apply views_squeeze; reflexivity|].
      intros i _. ring.
Qed.

(** X16.  Without weighting, on one sample, or on a grid of more than one
    location, [forward] returns the sum over the keypoints of half the mean
    squared error of the classification maps, which are multiplied by the
    weight of the keypoint when weighting is enabled, and of half the mean
    squared errors of the two offset maps, each multiplied by that ground
    truth classification map, divided by the number of keypoints and
    multiplied by [loss_weight]. *)
Lemma combined_target_forward_formula u lw B K H W o g w tw :
  0 < B -> 0 < K -> 0 < H * W ->
  (u = true -> tw = Some (mkWeights B K w)) ->
  u = false \/ B = 1 \/ 1 < H * W ->
  forward (mk u lw) (mkHeatmaps B (K * 3) H W o) (mkHeatmaps B (K * 3) H W g) tw
  = Ok (Fin (combined_target_formula u lw B K H W o g w)).
Proof.
  intros HB HK HL Htw Hc.
  set (O := mkHeatmaps B (K * 3) H W o). set (G := mkHeatmaps B (K * 3) H W g).
  assert (Eo : split_channels (heatmaps_tensor O) B (K * 3)
               = Ok (map (channel O) (seq 0 (K * 3)))).
  { apply (split_channels_heatmaps O). simpl. nia. }
  assert (Eg : split_channels (heatmaps_tensor G) B (K * 3)
               = Ok (map (channel G) (seq 0 (K * 3)))).
  { apply (split_channels_heatmaps G). simpl. nia. }
  unfold forward. cbn [use_target_weight loss_weight].
  change (size (heatmaps_tensor O) 0) with (@Ok nat B).
  change (size (heatmaps_tensor O) 1) with (@Ok nat (K * 3)).
  cbn [bind]. rewrite Eo, Eg. cbn [bind]. rewrite Nat.div_mul by lia.
  rewrite (for_each_fadd _ _ (fun k =>
     half * mse3 B H W (class_err u o g w k)
     + half * mse3 B H W (offset_err u o g w 1 k)
     + half * mse3 B H W (offset_err u o g w 2 k))%Qc).
  - cbn [bind]. destruct (Nat.eqb_spec K 0); [lia|].
    cbn [fdivq fscale]. unfold combined_target_formula, sum_n, range.
    do 2 f_equal. unfold Qcdiv. ring.
  - intros k acc Hk. apply in_seq in Hk.
    destruct (keypoint_maps_views u B K H W o g w tw k HB HL) as
      (m & S & Em & GS & Vp & Vg & Exp & Exg & Eyp & Eyg);
      [lia|assumption|assumption|].
    fold O G in Em, Vp, Vg, Exp, Exg, Eyp, Eyg.
    rewrite Em. cbn [bind]. unfold classification_mse.
    rewrite (mse_mean_views _ _ _ _ _ _ _ GS Vp Vg). cbn [bind].
    rewrite Exp, Exg, Eyp, Eyg.
    rewrite (regression_mse_views _ _ _ _ _ (channel O (k * 3 + 1))
               (channel G (k * 3 + 1)) GS Vg eq_refl eq_refl). cbn [bind].
    rewrite (regression_mse_views _ _ _ _ _ (channel O (k * 3 + 2))
               (channel G (k * 3 + 2)) GS Vg eq_refl eq_refl). cbn [bind].
    rewrite (lmean_channel B H W _ (class_err u o g w k)); try assumption.
    2:{ intros b x Hb Hx. cbn [hd]. unfold O, G.
        rewrite !channel_data by (assumption || lia). reflexivity. }
    rewrite (lmean_channel B H W _ (offset_err u o g w 1 k)); try assumption.
    2:{ intros b x Hb Hx. cbn [hd]. unfold O, G.
        rewrite !channel_data by (assumption || lia). reflexivity. }
    rewrite (lmean_channel B H W _ (offset_err u o g w 2 k)); try assumption.
    2:{ intros b x Hb Hx. cbn [hd]. unfold O, G.
        rewrite !channel_data by (assumption || lia). reflexivity. }
    cbn [fadd fscale]. do 2 f_equal. ring.
Qed.

(** C3.  The code at a batch of two samples with one keypoint on a
    1 x 1 grid and weighting enabled: [forward] returns 1/8 where the
    claimed value is 0.  The squeezed classification map [[B]] is
    broadcast against the weight column [[B, 1]] to [[B, B]], so that
    the prediction of one sample meets the weight of the other. *)
Theorem combined_target_unit_grid_mixes_samples :
  CombinedTargetMSELoss.forward (CombinedTargetMSELoss.mk true 1%Qc)
    combined_example_output combined_example_target
    (Some combined_example_weights)
  = Ok (Fin (Q2Qc (1 # 8)))
  /\ combined_target_formula true 1%Qc 2 1 1 1
       (hm_at combined_example_output) (hm_at combined_example_target)
       (tw_at combined_example_weights)
     = 0%Qc.
Proof.
  split.
  - apply is_value_true. vm_compute. reflexivity.
  - apply Qc_is_canon. vm_compute. reflexivity.
Qed.

End CombinedTargetMSELossFacts.

(* ===================================================================== *)
(** ** Facts on [CombinedTargetIOULoss] *)
(* ===================================================================== *)

Module CombinedTargetIOULossFacts.
Import CombinedTargetMSELoss CombinedTargetIOULoss.
Import CombinedTargetMSELossFacts.

(** The exclusion test of a location on a batch of more than one
    sample. *)
Lemma exclusion_test_batch u B L (hg c : Tensor Qc) j :
  1 < B -> shape hg = class_shape u B L ->
  select1 hg j = Ok c ->
  tensor_bool (eq_zero c) = Raise (RuntimeError BoolAmbiguous).
Proof.
  intros HB HS. unfold select1. rewrite HS.
  unfold class_shape, weighted_shape. cbn [squeeze_shape Nat.eqb].
  destruct (Nat.eqb_spec B 1); [lia|].
  assert (N : (B * 1 =? 1) = false) by (apply Nat.eqb_neq; lia).
  destruct u; destruct (Nat.eqb_spec L 1); try discriminate;
    (destruct (j <? _); [|discriminate]);
    intros [= <-]; unfold tensor_bool, eq_zero, tmap;
    cbn [shape numel fold_right];
    now rewrite N.
Qed.

Lemma location_batch u B L H' (m : maps) x y st :
  1 < B -> shape (heatmap_gt m) = class_shape u B L ->
  exists e, location B H' m x y st = Raise e /\
            (x * H' + y < L -> (1 < L \/ u = true) ->
             e = RuntimeError BoolAmbiguous).
Proof.
  intros HB HS. unfold location. destruct st as [bg bp].
  destruct (select1 (heatmap_gt m) (x * H' + y)) as [c|e] eqn:Ec.
  - cbn [bind]. rewrite (exclusion_test_batch u B L _ c _ HB HS Ec). cbn [bind].
    eexists. split; [reflexivity|]. reflexivity.
  - cbn [bind]. exists e. split; [reflexivity|]. intros Hlt Hc. exfalso.
    revert Ec. unfold select1. rewrite HS.
    unfold class_shape, weighted_shape. cbn [squeeze_shape Nat.eqb].
    destruct (Nat.eqb_spec B 1); [lia|].
    destruct u; destruct (Nat.eqb_spec L 1);
      try (destruct Hc; [lia|discriminate]);
      try (destruct (Nat.ltb_spec (x * H' + y) L); [discriminate|lia]).
    subst L. destruct (Nat.ltb_spec (x * H' + y) B); [discriminate|lia].
Qed.

Lemma for_each_skip {A S} (xs : list A) (s : S) :
  for_each xs (fun _ st => Ok st) s = Ok s.
Proof. induction xs as [|x xs IH]; simpl; auto. Qed.

Lemma for_each_empty_inner {A S} (xs : list A)
  (body : A -> nat -> S -> result S) s :
  for_each xs (fun x st => for_each (range 0) (body x) st) s = Ok s.
Proof. induction xs as [|x xs IH]; simpl; auto. Qed.

Lemma iou_forward_batch u iou lw B K H W o g w tw :
  1 < B ->
  (u = true -> tw = Some (mkWeights B K w)) ->
  exists e,
    forward (mk iou u lw) (mkHeatmaps B (K * 3) H W o)
            (mkHeatmaps B (K * 3) H W g) tw = Raise e /\
    (0 < K -> 0 < H * W -> 1 < H * W \/ u = true ->
     e = RuntimeError BoolAmbiguous).
Proof.
  intros HB Htw.
  set (output := mkHeatmaps B (K * 3) H W o).
  set (target := mkHeatmaps B (K * 3) H W g).
  unfold forward. cbn [use_target_weight loss_weight iou_loss].
  change (size (heatmaps_tensor output) 2) with (@Ok nat H).
  change (size (heatmaps_tensor output) 3) with (@Ok nat W).
  change (size (heatmaps_tensor output) 0) with (@Ok nat B).
  change (size (heatmaps_tensor output) 1) with (@Ok nat (K * 3)).
  cbn [bind]. destruct K as [|K'].
  { unfold split_channels, reshape3. replace (B * (0 * 3)) with 0 by lia.
    cbn [Nat.eqb bind]. eexists. split; [reflexivity|]. intros; lia. }
  assert (Eo : split_channels (heatmaps_tensor output) B (S K' * 3)
               = Ok (map (channel output) (seq 0 (S K' * 3)))).
  { apply (split_channels_heatmaps output). simpl. nia. }
  assert (Eg : split_channels (heatmaps_tensor target) B (S K' * 3)
               = Ok (map (channel target) (seq 0 (S K' * 3)))).
  { apply (split_channels_heatmaps target). simpl. nia. }
  rewrite Eo, Eg. cbn [bind]. rewrite Nat.div_mul by lia.
  cbn [range seq for_each].
  destruct (keypoint_maps_shape u B (S K') H W o g w tw 0) as
    (m & Em & Sp & Sg & _); [lia|exact Htw|].
  fold output target in Em. rewrite Em. cbn [bind].
  destruct (classification_mse_ok m _ Sp Sg) as (c & Ec). rewrite Ec.
  cbn [bind].
  destruct H as [|H'].
  { cbn [seq for_each bind cat0]. eexists. split; [reflexivity|]. intros; lia. }
  destruct W as [|W'].
  { fold (range 0). fold (range (S H')).
    rewrite (for_each_empty_inner (range (S H'))
               (fun x y st => location B 0 m x y st)).
    cbn [bind cat0]. eexists. split; [reflexivity|]. intros; lia. }
  cbn [range seq for_each bind].
  destruct (location_batch u B (S H' * S W') (S W') m 0 0 ([], []) HB Sg)
    as (e & El & He).
  rewrite El. cbn [bind]. exists e. split; [reflexivity|].
  intros _ _ Hc. apply He; [simpl; lia|assumption].
Qed.



(** A batch of one sample: a location is skipped or the columns of the
    squeezed maps cannot be taken. *)
Lemma location_single u L H' (m : maps) x y st :
  shape (heatmap_gt m) = class_shape u 1 L ->
  shape (offset_x_gt m) = squeeze_shape [1; 1; L] ->
  location 1 H' m x y st = Ok st \/ exists e, location 1 H' m x y st = Raise e.
Proof.
  intros Sg Sx. unfold location. destruct st as [bg bp].
  destruct (select1 (heatmap_gt m) (x * H' + y)) as [c|e]; cbn [bind]; [|eauto].
  destruct (tensor_bool (eq_zero c)) as [[|]|e]; cbn [bind]; [auto| |eauto].
  right. unfold select1 at 1. rewrite Sx. cbn [squeeze_shape Nat.eqb].
  destruct (L =? 1); cbn [bind]; eauto.
Qed.

Lemma for_each_skip_or_raise {A S} (xs : list A) (body : A -> S -> result S) s :
  (forall x st, body x st = Ok st \/ exists e, body x st = Raise e) ->
  for_each xs body s = Ok s \/ exists e, for_each xs body s = Raise e.
Proof.
  intros Hb. induction xs as [|x xs IH]; simpl; [auto|].
  destruct (Hb x s) as [E|(e & E)]; rewrite E; simpl; eauto.
Qed.

(** On arguments of the documented shapes [forward] raises. *)
Lemma iou_forward_raises u iou lw B K H W o g w tw :
  (u = true -> tw = Some (mkWeights B K w)) ->
  exists e,
    forward (mk iou u lw) (mkHeatmaps B (K * 3) H W o)
            (mkHeatmaps B (K * 3) H W g) tw = Raise e.
Proof.
  intros Htw.
  destruct (Nat.lt_ge_cases 1 B) as [HB|HB].
  { destruct (iou_forward_batch u iou lw B K H W o g w tw HB Htw)
      as (e & E & _).
    eauto. }
  set (output := mkHeatmaps B (K * 3) H W o).
  set (target := mkHeatmaps B (K * 3) H W g).
  unfold forward. cbn [use_target_weight loss_weight iou_loss].
  change (size (heatmaps_tensor output) 2) with (@Ok nat H).
  change (size (heatmaps_tensor output) 3) with (@Ok nat W).
  change (size (heatmaps_tensor output) 0) with (@Ok nat B).
  change (size (heatmaps_tensor output) 1) with (@Ok nat (K * 3)).
  cbn [bind].
  destruct (Nat.eq_dec (B * (K * 3)) 0) as [Z|NZ].
  { unfold split_channels, reshape3. rewrite Z. cbn [Nat.eqb bind]. eauto. }
  assert (B = 1) by nia. subst B. destruct K as [|K']; [lia|].
  assert (Eo : split_channels (heatmaps_tensor output) 1 (S K' * 3)
               = Ok (map (channel output) (seq 0 (S K' * 3)))).
  { apply (split_channels_heatmaps output). simpl. nia. }
  assert (Eg : split_channels (heatmaps_tensor target) 1 (S K' * 3)
               = Ok (map (channel target) (seq 0 (S K' * 3)))).
  { apply (split_channels_heatmaps target). simpl. nia. }
  rewrite Eo, Eg. cbn [bind]. rewrite Nat.div_mul by lia.
  cbn [range seq for_each].
  destruct (keypoint_maps_shape u 1 (S K') H W o g w tw 0) as
    (m & Em & Sp & Sg & _ & Sx & _); [lia|exact Htw|].
  fold output target in Em. rewrite Em. cbn [bind].
  destruct (classification_mse_ok m _ Sp Sg) as (c & Ec). rewrite Ec.
  cbn [bind].
  match goal with
  | |- context [for_each ?xs ?body ?s] =>
      destruct (for_each_skip_or_raise xs body s) as [E|(e & E)]
  end.
  - intros x st. apply for_each_skip_or_raise. intros y st'.
    eapply location_single; eassumption.
  - rewrite E. cbn [bind cat0]. eauto.
  - rewrite E. cbn [bind]. eauto.
Qed.



(** C4.  The code at four inputs: on a batch of two samples whose
    ground truth is zero at one location each, [forward] raises at the
    exclusion test, with and without weights; on the first sample alone
    it raises when a column of a squeezed map is taken.  No box is
    built and no location is excluded per sample. *)
Theorem iou_forward_builds_no_box :
  forall iou : Tensor Qc -> Tensor Qc -> result float,
    forward (mk iou false 1%Qc) iou_example_output iou_example_target None
    = Raise (RuntimeError BoolAmbiguous)
    /\ forward (mk iou true 1%Qc) iou_example_output iou_example_target
         (Some (mkWeights 2 1 (fun _ _ => 1%Qc)))
       = Raise (RuntimeError BoolAmbiguous)
    /\ forward (mk iou false 1%Qc) iou_example_output1 iou_example_target1 None
       = Raise IndexError
    /\ forward (mk iou true 1%Qc) iou_example_output1 iou_example_target1
         (Some (mkWeights 1 1 (fun _ _ => 1%Qc)))
       = Raise IndexError.
Proof.
  intros iou. repeat split; vm_compute; reflexivity.
Qed.

End CombinedTargetIOULossFacts.

(* ===================================================================== *)
(** ** The loss weight *)
(* ===================================================================== *)

Lemma bind_scale {A} (c : result A) (k1 k2 : A -> result float) lw :
  (forall a, k2 a = scale_result lw (k1 a)) ->
  bind c k2 = scale_result lw (bind c k1).
Proof.
  intros E. destruct c as [a|e]; simpl; [apply E|reflexivity].
Qed.

Lemma fscale_unit v lw : fscale v lw = fscale (fscale v 1%Qc) lw.
Proof.
  destruct v as [x|]; simpl; [|reflexivity]. f_equal. ring.
Qed.

(** C9.  For [KeypointMSELoss], [CombinedTargetMSELoss] and
    [KeypointOHKMMSELoss] the result with a loss weight is the result
    with loss weight 1 multiplied by that weight; in particular the
    result with loss weight 2 is twice the result with loss weight 1,
    on the same arguments. *)
Theorem loss_weight_scaling :
  forall (u : bool) (k : nat) (lw : Qc) (output target : Heatmaps)
         (tw : option Weights),
    (KeypointMSELoss.forward (KeypointMSELoss.mk u lw) output target tw
     = scale_result lw
         (KeypointMSELoss.forward (KeypointMSELoss.mk u 1%Qc) output target tw))
    /\ (CombinedTargetMSELoss.forward (CombinedTargetMSELoss.mk u lw)
          output target tw
        = scale_result lw
            (CombinedTargetMSELoss.forward (CombinedTargetMSELoss.mk u 1%Qc)
               output target tw))
    /\ (KeypointOHKMMSELoss.forward (KeypointOHKMMSELoss.mk u k lw)
          output target tw
        = scale_result lw
            (KeypointOHKMMSELoss.forward (KeypointOHKMMSELoss.mk u k 1%Qc)
               output target tw))
    /\ (KeypointMSELoss.forward (KeypointMSELoss.mk u (qz 2)) output target tw
        = scale_result (qz 2)
            (KeypointMSELoss.forward (KeypointMSELoss.mk u 1%Qc)
               output target tw))
    /\ (CombinedTargetMSELoss.forward (CombinedTargetMSELoss.mk u (qz 2))
          output target tw
        = scale_result (qz 2)
            (CombinedTargetMSELoss.forward (CombinedTargetMSELoss.mk u 1%Qc)
               output target tw))
    /\ (KeypointOHKMMSELoss.forward (KeypointOHKMMSELoss.mk u k (qz 2))
          output target tw
        = scale_result (qz 2)
            (KeypointOHKMMSELoss.forward (KeypointOHKMMSELoss.mk u k 1%Qc)
               output target tw)).
Proof.
  intros u k lw output target tw.
  assert (G1 : forall c,
    KeypointMSELoss.forward (KeypointMSELoss.mk u c) output target tw
    = scale_result c
        (KeypointMSELoss.forward (KeypointMSELoss.mk u 1%Qc) output target tw)).
  { intros c. unfold KeypointMSELoss.forward.
    cbn [KeypointMSELoss.use_target_weight KeypointMSELoss.loss_weight].
    apply bind_scale. intros v. simpl. now rewrite <- fscale_unit. }
  assert (G2 : forall c,
    CombinedTargetMSELoss.forward (CombinedTargetMSELoss.mk u c)
      output target tw
    = scale_result c
        (CombinedTargetMSELoss.forward (CombinedTargetMSELoss.mk u 1%Qc)
           output target tw)).
  { intros c. unfold CombinedTargetMSELoss.forward.
    cbn [CombinedTargetMSELoss.use_target_weight
         CombinedTargetMSELoss.loss_weight].
    do 5 (apply bind_scale; intro).
    destruct (_ =? 0); simpl; [reflexivity|]. now rewrite <- fscale_unit. }
  assert (G3 : forall c,
    KeypointOHKMMSELoss.forward (KeypointOHKMMSELoss.mk u k c) output target tw
    = scale_result c
        (KeypointOHKMMSELoss.forward (KeypointOHKMMSELoss.mk u k 1%Qc)
           output target tw)).
  { intros c. unfold KeypointOHKMMSELoss.forward.
    cbn [KeypointOHKMMSELoss.use_target_weight KeypointOHKMMSELoss.loss_weight
         KeypointOHKMMSELoss.topk].
    apply bind_scale; intro.
    destruct (_ <? _); [reflexivity|].
    do 4 (apply bind_scale; intro).
    simpl. now rewrite <- fscale_unit. }
  repeat split; auto.
Qed.

(* ===================================================================== *)
(** ** Signs of rationals and symmetry of broadcasting *)
(* ===================================================================== *)

Lemma Q_sq_nonneg (q : Q) : (0 <= q * q)%Q.
Proof.
  destruct (Qlt_le_dec q 0) as [H|H].
  - setoid_replace (q * q)%Q with ((- q) * (- q))%Q by ring.
    apply Qmult_le_0_compat; apply (Qopp_le_compat q 0), Qlt_le_weak, H.
  - now apply Qmult_le_0_compat.
Qed.

Lemma sq_nonneg x : (0 <= sq x)%Qc.
Proof.
  unfold sq, Qcle. cbn [this Qcmult Q2Qc]. rewrite !Qred_correct.
  apply Q_sq_nonneg.
Qed.

Lemma Qcmult_nonneg x y : (0 <= x -> 0 <= y -> 0 <= x * y)%Qc.
Proof.
  unfold Qcle. cbn [this Qcmult Q2Qc]. rewrite !Qred_correct.
  apply Qmult_le_0_compat.
Qed.

Lemma Qcplus_nonneg x y : (0 <= x -> 0 <= y -> 0 <= x + y)%Qc.
Proof.
  intros. replace 0%Qc with (0 + 0)%Qc by ring. now apply Qcplus_le_compat.
Qed.

Lemma qn_nonneg n : (0 <= qn n)%Qc.
Proof.
  unfold qn, qz, Qcle. cbn [this Q2Qc]. rewrite !Qred_correct.
  unfold Qle. simpl. lia.
Qed.

Lemma Qcinv_nonneg x : (0 <= x -> 0 <= / x)%Qc.
Proof.
  unfold Qcle. cbn [this Qcinv Q2Qc]. rewrite !Qred_correct.
  apply Qinv_le_0_compat.
Qed.

Lemma Qcdiv_nonneg x y : (0 <= x -> 0 <= y -> 0 <= x / y)%Qc.
Proof.
  intros Hx Hy. unfold Qcdiv. apply Qcmult_nonneg; [assumption|].
  now apply Qcinv_nonneg.
Qed.

Lemma half_nonneg : (0 <= half)%Qc.
Proof. discriminate. Qed.

Lemma qsum_nonneg l : (forall x, In x l -> (0 <= x)%Qc) -> (0 <= qsum l)%Qc.
Proof.
  induction l as [|x l IH]; intros H; simpl.
  - apply Qcle_refl.
  - apply Qcplus_nonneg; [apply H; now left|]. apply IH. intros; apply H.
    now right.
Qed.

(** *** Broadcasting is symmetric *)

Lemma bdim_comm a b : bdim a b = bdim b a.
Proof.
  unfold bdim. destruct (Nat.eqb_spec a b) as [->|N].
  - now rewrite Nat.eqb_refl.
  - destruct (Nat.eqb_spec b a); [congruence|].
    destruct (Nat.eqb_spec a 1), (Nat.eqb_spec b 1); congruence.
Qed.

Lemma bshape_rev_comm s1 : forall s2, bshape_rev s1 s2 = bshape_rev s2 s1.
Proof.
  induction s1 as [|a r1 IH]; intros [|b r2]; cbn [bshape_rev];
    try reflexivity.
  now rewrite bdim_comm, IH.
Qed.

Lemma broadcast_shapes_comm s1 s2 :
  broadcast_shapes s1 s2 = broadcast_shapes s2 s1.
Proof. unfold broadcast_shapes. now rewrite bshape_rev_comm. Qed.

Lemma sq_sub_comm x y : sq (x - y)%Qc = sq (y - x)%Qc.
Proof. unfold sq. ring. Qed.

Lemma mse_mean_comm a b : mse_mean a b = mse_mean b a.
Proof.
  unfold mse_mean, mse_none, map2. rewrite (broadcast_shapes_comm (shape b)).
  destruct (broadcast_shapes (shape a) (shape b)) as [s|]; [|reflexivity].
  cbn [bind]. f_equal. rewrite !tmean_to_list. unfold to_list. cbn [shape data].
  f_equal. apply map_ext. intros i. apply sq_sub_comm.
Qed.

Lemma mul_raise a b e :
  mul a b = Raise e -> e = RuntimeError BroadcastMismatch.
Proof.
  unfold mul, map2. destruct (broadcast_shapes _ _); [discriminate|].
  now intros [= <-].
Qed.

Lemma Ok_inj {A} (a b : A) : Ok a = Ok b -> a = b.
Proof. intros H. now injection H. Qed.

(* ===================================================================== *)
(** ** Properties of [KeypointMSELoss] *)
(* ===================================================================== *)

Module KeypointMSELossProperties.
Import KeypointMSELoss KeypointMSELossFacts.

Lemma lmean_empty_indices4 B K H W (g : list nat -> Qc) :
  B * K * H * W = 0 -> lmean (map g (indices [B; K; H; W])) = NaN.
Proof.
  intros Z. unfold lmean. rewrite length_map, length_indices, numel4, Z.
  reflexivity.
Qed.

Lemma broadcast_weights4 B K H W B' K' :
  broadcast_shapes [B; K; H; W] [B'; K'; 1; 1]
  = match bdim K K', bdim B B' with
    | Some k, Some b => Some [b; k; H; W]
    | _, _ => None
    end.
Proof.
  unfold broadcast_shapes. cbn [rev app bshape_rev].
  rewrite !bdim_1_r. destruct (bdim K K'), (bdim B B'); reflexivity.
Qed.

(** The weighted branch up to the mean, on weights whose sizes broadcast. *)
Lemma forward_broadcast_weights lw B K H W o g B' K' w :
  bdim B B' = Some B -> bdim K K' = Some K ->
  forward (mk true lw) (mkHeatmaps B K H W o) (mkHeatmaps B K H W g)
          (Some (mkWeights B' K' w))
  = Ok (fscale
          (lmean (map (fun i =>
                    let b := nth 0 i 0 in
                    let k := nth 1 i 0 in
                    let h := nth 2 i 0 in
                    let x := nth 3 i 0 in
                    let wf := w (if B' =? 1 then 0 else b)
                                (if K' =? 1 then 0 else k) in
                    sq (o b k h x * wf - g b k h x * wf)%Qc)
                  (indices [B; K; H; W]))) lw).
Proof.
  intros EB EK. unfold forward. cbn [use_target_weight loss_weight].
  cbn [ndim heatmaps_tensor weights_tensor shape List.length Nat.ltb Nat.leb
       Nat.sub Nat.iter nat_rect unsqueeze_last app tw_B tw_K hm_B hm_K hm_H
       hm_W].
  unfold mul, map2.
  cbn [shape heatmaps_tensor weights_tensor unsqueeze_last app
       tw_B tw_K hm_B hm_K hm_H hm_W].
  rewrite broadcast_weights4, EB, EK. cbn [bind].
  rewrite mse_mean_same_shape by reflexivity.
  cbn [shape data bind]. do 3 f_equal.
  apply map_ext_in. intros i Hi. apply in_indices in Hi.
  inversion Hi as [|b ? r1 ? Hb F1]; subst.
  inversion F1 as [|k ? r2 ? Hk F2]; subst.
  inversion F2 as [|h ? r3 ? Hh F3]; subst.
  inversion F3 as [|x ? r4 ? Hx F4]; subst. inversion F4; subst.
  unfold bidx. cbn [rev app bidx_rev removelast hm_at tw_at Nat.eqb nth].
  rewrite !(bsel_lt B b), !(bsel_lt K k), !(bsel_lt H h), !(bsel_lt W x)
    by assumption.
  reflexivity.
Qed.

(** X1.  On heat maps without any entry the mean squared error is the mean
    over no element: [forward] returns NaN and raises nothing, without
    weights and with weights. *)
Theorem keypoint_mse_empty_input_nan :
  forall (lw : Qc) (B K H W : nat) (o g : nat -> nat -> nat -> nat -> Qc)
         (w : nat -> nat -> Qc) (tw : option Weights),
    B * K * H * W = 0 ->
    forward (mk false lw) (mkHeatmaps B K H W o) (mkHeatmaps B K H W g) tw
    = Ok NaN
    /\ forward (mk true lw) (mkHeatmaps B K H W o) (mkHeatmaps B K H W g)
         (Some (mkWeights B K w))
       = Ok NaN.
Proof.
  intros lw B K H W o g w tw Z. split.
  - unfold forward. cbn [use_target_weight loss_weight].
    rewrite mse_mean_same_shape by reflexivity.
    cbn [heatmaps_tensor shape data hm_B hm_K hm_H hm_W hm_at bind].
    now rewrite lmean_empty_indices4.
  - rewrite forward_broadcast_weights by apply bdim_refl.
    now rewrite lmean_empty_indices4.
Qed.

Lemma keypoint_mse_empty_input_nan_witness :
  forward (mk true 1%Qc) (mkHeatmaps 0 17 64 48 (fun _ _ _ _ => 1%Qc))
    (mkHeatmaps 0 17 64 48 (fun _ _ _ _ => 0%Qc))
    (Some (mkWeights 0 17 (fun _ _ => 1%Qc)))
  = Ok NaN.
Proof.
  apply (proj2 (keypoint_mse_empty_input_nan 1%Qc 0 17 64 48
                  (fun _ _ _ _ => 1%Qc) (fun _ _ _ _ => 0%Qc)
                  (fun _ _ => 1%Qc) None ltac:(reflexivity))).
Defined.

(** X3.  Output and target may be exchanged: [forward] gives the same
    result, a value or an exception of the same kind. *)
Theorem keypoint_mse_symmetric :
  forall (self : t) (output target : Heatmaps) (tw : option Weights),
    forward self output target tw = forward self target output tw.
Proof.
  intros [u lw] output target tw. unfold forward.
  cbn [use_target_weight loss_weight]. f_equal.
  destruct u; [|apply mse_mean_comm].
  destruct tw as [tw|]; [|reflexivity].
  cbn [ndim heatmaps_tensor shape List.length].
  destruct (4 <? ndim (weights_tensor tw)); [reflexivity|].
  set (W := Nat.iter _ _ _).
  destruct (mul (heatmaps_tensor output) W) as [a|e1] eqn:E1;
    destruct (mul (heatmaps_tensor target) W) as [b|e2] eqn:E2;
    cbn [bind]; try reflexivity.
  - apply mse_mean_comm.
  - apply mul_raise in E1, E2. congruence.
Qed.

(** X4.  Weights whose batch size or number of keypoints differs from the
    one of the output, neither being 1, are refused by the multiplication:
    [forward] raises a [RuntimeError], whatever the target is. *)
Theorem keypoint_mse_weights_mismatch :
  forall (lw : Qc) (B K H W : nat) (o : nat -> nat -> nat -> nat -> Qc)
         (target : Heatmaps) (B' K' : nat) (w : nat -> nat -> Qc),
    (B' <> B /\ B' <> 1 /\ B <> 1) \/ (K' <> K /\ K' <> 1 /\ K <> 1) ->
    forward (mk true lw) (mkHeatmaps B K H W o) target
            (Some (mkWeights B' K' w))
    = Raise (RuntimeError BroadcastMismatch).
Proof.
  intros lw B K H W o target B' K' w Hm. unfold forward.
  cbn [use_target_weight loss_weight].
  cbn [ndim heatmaps_tensor weights_tensor shape List.length Nat.ltb Nat.leb
       Nat.sub Nat.iter nat_rect unsqueeze_last app tw_B tw_K hm_B hm_K hm_H
       hm_W].
  unfold mul at 1. unfold map2.
  cbn [shape heatmaps_tensor weights_tensor unsqueeze_last app
       tw_B tw_K hm_B hm_K hm_H hm_W].
  rewrite broadcast_weights4.
  assert (N : bdim K K' = None \/ bdim B B' = None).
  { unfold bdim. destruct Hm as [(N1 & N2 & N3)|(N1 & N2 & N3)]; [right|left].
    - destruct (Nat.eqb_spec B B'); [congruence|].
      destruct (Nat.eqb_spec B 1); [congruence|].
      destruct (Nat.eqb_spec B' 1); [congruence|reflexivity].
    - destruct (Nat.eqb_spec K K'); [congruence|].
      destruct (Nat.eqb_spec K 1); [congruence|].
      destruct (Nat.eqb_spec K' 1); [congruence|reflexivity]. }
  destruct N as [N|N]; rewrite N; [reflexivity|].
  destruct (bdim K K'); reflexivity.
Qed.

Lemma keypoint_mse_weights_mismatch_witness :
  forward (mk true 1%Qc) (mkHeatmaps 2 17 1 1 (fun _ _ _ _ => 1%Qc))
    (mkHeatmaps 2 17 1 1 (fun _ _ _ _ => 0%Qc))
    (Some (mkWeights 2 16 (fun _ _ => 1%Qc)))
  = Raise (RuntimeError BroadcastMismatch).
Proof.
  apply (keypoint_mse_weights_mismatch 1%Qc 2 17 1 1 (fun _ _ _ _ => 1%Qc)
           (mkHeatmaps 2 17 1 1 (fun _ _ _ _ => 0%Qc)) 2 16
           (fun _ _ => 1%Qc)).
  right. repeat split; discriminate.
Defined.

(** X5.  Weights with a single keypoint column are accepted: the column is
    broadcast and weighs every keypoint of its sample. No check compares the
    number of columns with the number of keypoints. *)
Theorem keypoint_mse_single_weight_column :
  forall (lw : Qc) (B K H W : nat) (o g : nat -> nat -> nat -> nat -> Qc)
         (w : nat -> nat -> Qc),
    0 < B * K * H * W ->
    forward (mk true lw) (mkHeatmaps B K H W o) (mkHeatmaps B K H W g)
            (Some (mkWeights B 1 w))
    = Ok (Fin (sum4 B K H W
                 (fun b k h x =>
                    sq (o b k h x * w b 0%nat - g b k h x * w b 0%nat))
               / qn (B * K * H * W) * lw)%Qc).
Proof.
  intros lw B K H W o g w Hpos.
  rewrite forward_broadcast_weights by (apply bdim_refl || apply bdim_1_r).
  rewrite lmean_map_indices4 by assumption. cbn [fscale nth Nat.eqb].
  do 4 f_equal. apply sum4_ext. intros b k h x Hb _ _ _.
  now rewrite bsel_lt.
Qed.

Lemma keypoint_mse_single_weight_column_witness :
  forward (mk true 1%Qc) mse_example_output mse_example_target
    (Some (mkWeights 1 1 (fun _ _ => qz 2)))
  = Ok (Fin (sum4 1 2 1 2
               (fun b k h x => sq (hm_at mse_example_output b k h x * qz 2
                                   - hm_at mse_example_target b k h x * qz 2))
             / qn (1 * 2 * 1 * 2) * 1)%Qc).
Proof.
  apply (keypoint_mse_single_weight_column 1%Qc 1 2 1 2
           (hm_at mse_example_output) (hm_at mse_example_target)
           (fun _ _ => qz 2)). simpl. lia.
Defined.



End KeypointMSELossProperties.

(* ===================================================================== *)
(** ** Properties of [KeypointOHKMMSELoss] *)
(* ===================================================================== *)

Module KeypointOHKMMSELossProperties.
Import KeypointOHKMMSELoss KeypointOHKMMSELossFacts.
Import CombinedTargetMSELossFacts.

(** The loss matrix that [forward] hands to [_ohkm], for every batch
    and grid size. *)
Lemma spatial_mean_column B H W e T :
  kp_spec B H W e T ->
  exists m, (m <- mean_dims12 T ;; unsqueeze1 m) = Ok m /\
            shape m = [B; 1] /\
            forall b, b < B ->
              data m [b; 0]
              = lmean (map (fun i => e b (nth 0 i 0) (nth 1 i 0))
                           (indices [H; W])).
Proof.
  intros (HS & HD). unfold mean_dims12. rewrite HS.
  cbn [bind unsqueeze1 shape].
  eexists. split; [reflexivity|]. split; [reflexivity|].
  intros b Hb. cbn [data]. rewrite tmean_to_list. unfold to_list.
  cbn [shape data]. f_equal. apply map_ext_in. intros i Hi.
  apply in_indices2 in Hi as (h & x & -> & Hh & Hx). cbn [nth].
  now apply HD.
Qed.

Lemma cat1_float_columns B K (F : nat -> nat -> float) ms :
  0 < K ->
  Forall2 (fun j m => shape m = [B; 1] /\
                      forall b, b < B -> data m [b; 0] = F b j)
          (seq 0 K) ms ->
  exists M, cat1 ms = Ok M /\ shape M = [B; K] /\
            forall b j, b < B -> j < K -> data M [b; j] = F b j.
Proof.
  intros HK HF.
  destruct ms as [|m0 ms'].
  { destruct K; [lia|]. inversion HF. }
  pose proof (Forall2_seq_nth _ 0 K _ m0 HF) as [HL Hn].
  assert (Hall : forall m, In m (m0 :: ms') -> shape m = [B; 1]).
  { intros m Hm. apply (In_nth _ _ m0) in Hm as (j & Hj & <-).
    rewrite HL in Hj. apply (Hn j Hj). }
  assert (H0 : shape m0 = [B; 1]).
  { apply Hall. now left. }
  assert (Hchk : forallb (fun t : Tensor float =>
             match shape t with
             | d :: _ :: r =>
                 if list_eq_dec Nat.eq_dec (d :: r) [B] then true else false
             | _ => false
             end) (m0 :: ms') = true).
  { apply forallb_forall. intros m Hm. rewrite (Hall m Hm).
    destruct (list_eq_dec Nat.eq_dec [B] [B]); congruence. }
  assert (Hdim : forall m, In m (m0 :: ms') -> dim_at 1 m = 1).
  { intros m Hm. unfold dim_at. now rewrite (Hall m Hm). }
  unfold cat1. rewrite H0, Hchk.
  eexists. split; [reflexivity|]. cbn [shape data].
  split.
  - rewrite sum_nat_units by assumption. now rewrite HL.
  - intros b j Hb Hj. cbn [nth hd tl].
    rewrite (cat_pick_unit (m0 :: ms') j _ _ m0) by (auto; lia).
    apply (Hn j Hj). assumption.
Qed.

Lemma ohkm_forward_matrix u k lw B K K' H W o g w tw :
  0 < K -> k <= K -> K <= K' ->
  (u = true -> tw = Some (mkWeights B K' w)) ->
  exists M,
    forward (mk u k lw) (mkHeatmaps B K H W o) (mkHeatmaps B K H W g) tw
    = (r <- _ohkm (mk u k lw) M ;; Ok (fscale r lw)) /\
    shape M = [B; K] /\
    forall b j, b < B -> j < K ->
                data M [b; j] = spatial_mean u H W o g w b j.
Proof.
  intros HK HkK HK' Htw. unfold forward.
  cbn [size heatmaps_tensor shape nth_error hm_B hm_K hm_H hm_W bind topk
       use_target_weight loss_weight].
  destruct (Nat.ltb_spec K k); [lia|].
  match goal with
  | |- context [for_each ?xs ?body ?acc] =>
      destruct (for_each_collect xs body
                  (fun j T =>
                     kp_spec B H W (fun b h x => sq_err u o g w b j h x) T)
                  acc)
        as (ts & E & F)
  end.
  { intros idx acc Hidx. apply in_seq in Hidx.
    destruct u.
    - rewrite (Htw eq_refl).
      unfold select1_none_none, select1, unsqueeze1. tsimpl.
      destruct (Nat.ltb_spec idx K'); [|lia]. tsimpl.
      destruct (Nat.ltb_spec idx K); [|lia]. tsimpl.
      unfold mul, mse_none, map2, broadcast_shapes. tsimpl.
      rewrite !bdim_1_r, !bdim_refl. tsimpl.
      rewrite !bdim_refl. tsimpl.
      eexists. split; [reflexivity|]. split; [reflexivity|].
      intros b h x Hb Hh Hx. tsimpl.
      rewrite !bidx3, !bidx3_unit by assumption.
      reflexivity.
    - unfold select1. tsimpl.
      destruct (Nat.ltb_spec idx K); [|lia]. tsimpl.
      unfold mse_none, map2. tsimpl. rewrite broadcast_shapes_refl.
      tsimpl. eexists. split; [reflexivity|]. split; [reflexivity|].
      intros b h x Hb Hh Hx. tsimpl.
      rewrite !bidx3 by assumption.
      unfold sq_err, weight_factor. f_equal. ring. }
  rewrite E. cbn [bind app].
  destruct (comprehension_spec
              (fun loss : Tensor Qc => m <- mean_dims12 loss ;; unsqueeze1 m)
              _ (fun j m =>
                   shape m = [B; 1] /\
                   forall b, b < B ->
                             data m [b; 0] = spatial_mean u H W o g w b j)
              _ _ F) as (ms & E2 & F2).
  { intros j T PT. apply (spatial_mean_column B H W _ T PT). }
  rewrite E2. cbn [bind].
  destruct (cat1_float_columns B K (spatial_mean u H W o g w) ms HK F2)
    as (M & E3 & HS & HD).
  rewrite E3. cbn [bind]. exists M. repeat split; assumption.
Qed.

(** X10.  On an empty batch the per-sample loop does not run and the
    division of the Python float [0.] by the batch size [0] raises
    [ZeroDivisionError]: no NaN is returned. *)
Theorem ohkm_empty_batch_zero_division :
  forall (u : bool) (k : nat) (lw : Qc) (K H W : nat)
         (o g : nat -> nat -> nat -> nat -> Qc) (w : nat -> nat -> Qc)
         (tw : option Weights),
    0 < K -> k <= K ->
    (u = true -> tw = Some (mkWeights 0 K w)) ->
    forward (mk u k lw) (mkHeatmaps 0 K H W o) (mkHeatmaps 0 K H W g) tw
    = Raise ZeroDivisionError.
Proof.
  intros u k lw K H W o g w tw HK HkK Htw.
  destruct (ohkm_forward_matrix u k lw 0 K K H W o g w tw HK HkK (le_n K) Htw)
    as (M & E & HS & _).
  rewrite E. unfold _ohkm, size. rewrite HS. reflexivity.
Qed.

Lemma ohkm_empty_batch_zero_division_witness :
  forward (mk true 8 1%Qc) (mkHeatmaps 0 17 64 48 (fun _ _ _ _ => 1%Qc))
    (mkHeatmaps 0 17 64 48 (fun _ _ _ _ => 0%Qc))
    (Some (mkWeights 0 17 (fun _ _ => 1%Qc)))
  = Raise ZeroDivisionError.
Proof.
  apply (ohkm_empty_batch_zero_division true 8 1%Qc 17 64 48
           (fun _ _ _ _ => 1%Qc) (fun _ _ _ _ => 0%Qc) (fun _ _ => 1%Qc));
    [lia|lia|reflexivity].
Defined.

Lemma for_each_nan {A} (xs : list A) (body : A -> float -> result float) acc :
  xs <> [] -> (forall i a, In i xs -> body i a = Ok NaN) ->
  for_each xs body acc = Ok NaN.
Proof.
  revert acc. induction xs as [|x xs IH]; intros acc N Hb; [contradiction|].
  simpl. rewrite Hb by now left. simpl.
  destruct xs as [|y ys]; [reflexivity|].
  apply IH; [discriminate|]. intros; apply Hb; now right.
Qed.

Lemma fsum_nan l : l <> [] -> (forall v, In v l -> v = NaN) -> fsum l = NaN.
Proof.
  destruct l as [|v l]; intros N H; [contradiction|].
  simpl. now rewrite (H v) by now left.
Qed.

Lemma ohkm_nan_matrix self (M : Tensor float) B K :
  shape M = [B; K] ->
  (forall b j, b < B -> j < K -> data M [b; j] = NaN) ->
  0 < B -> 0 < topk self -> topk self <= K ->
  _ohkm self M = Ok NaN.
Proof.
  intros HS HD HB Hk HkK. unfold _ohkm, size. rewrite HS. cbn [nth_error bind].
  rewrite for_each_nan.
  - cbn [bind]. destruct (Nat.eqb_spec B 0); [lia|reflexivity].
  - unfold range. destruct B; [lia|discriminate].
  - intros b acc Hb. apply in_seq in Hb.
    unfold select0. rewrite HS.
    destruct (Nat.ltb_spec b B); [|lia]. cbn [bind].
    unfold Torch.topk, to_list. cbn [shape data]. rewrite indices1, map_map.
    rewrite length_map, length_seq.
    destruct (Nat.ltb_spec K (topk self)); [lia|]. cbn [bind].
    set (l := map (fun j => data M [b; j]) (seq 0 K)).
    assert (Ll : List.length l = K).
    { unfold l. now rewrite length_map, length_seq. }
    unfold tfsum, gather0, to_list, of_list. cbn [shape data].
    rewrite indices1, map_map. cbn [hd].
    rewrite fsum_nan; [destruct acc; reflexivity| |].
    + rewrite length_map, top_entries_length by lia.
      destruct (topk self); [lia|discriminate].
    + intros v Hv. apply in_map_iff in Hv as (i & <- & Hi).
      apply in_seq in Hi. rewrite length_map in Hi.
      rewrite top_entries_length in Hi by lia.
      apply HD; [lia|].
      assert (Hin : In (nth i (map fst (top_entries fleb l (topk self))) 0)
                       (map fst (top_entries fleb l (topk self)))).
      { apply nth_In. rewrite length_map, top_entries_length; lia. }
      apply in_map_iff in Hin as ([m v] & Em & Hin). cbn [fst] in Em.
      rewrite <- Em. apply (top_entries_in fleb NaN) in Hin as [Hm _].
      lia.
Qed.

Lemma lmean_empty_grid H W (f : list nat -> Qc) :
  H * W = 0 -> lmean (map f (indices [H; W])) = NaN.
Proof.
  intros Z. unfold lmean. rewrite length_map, length_indices.
  cbn [numel fold_right]. rewrite Nat.mul_1_r, Z. reflexivity.
Qed.

(** X11.  On a grid without location the spatial mean of every keypoint is
    NaN, and with a batch, [0 < topk <= K], [forward] returns NaN and raises
    nothing. *)
Theorem ohkm_empty_grid_nan :
  forall (u : bool) (k : nat) (lw : Qc) (B K H W : nat)
         (o g : nat -> nat -> nat -> nat -> Qc) (w : nat -> nat -> Qc)
         (tw : option Weights),
    0 < B -> 0 < k -> k <= K -> H * W = 0 ->
    (u = true -> tw = Some (mkWeights B K w)) ->
    forward (mk u k lw) (mkHeatmaps B K H W o) (mkHeatmaps B K H W g) tw
    = Ok NaN.
Proof.
  intros u k lw B K H W o g w tw HB Hk HkK Z Htw.
  destruct (ohkm_forward_matrix u k lw B K K H W o g w tw)
    as (M & E & HS & HD); [lia|assumption|lia|assumption|].
  rewrite E, (ohkm_nan_matrix _ M B K); try assumption; [reflexivity|].
  intros b j Hb Hj. rewrite HD by assumption.
  now apply lmean_empty_grid.
Qed.

Lemma ohkm_empty_grid_nan_witness :
  forward (mk false 2 1%Qc) (mkHeatmaps 1 3 0 4 (fun _ _ _ _ => 1%Qc))
    (mkHeatmaps 1 3 0 4 (fun _ _ _ _ => 0%Qc)) None
  = Ok NaN.
Proof.
  apply (ohkm_empty_grid_nan false 2 1%Qc 1 3 0 4 (fun _ _ _ _ => 1%Qc)
           (fun _ _ _ _ => 0%Qc) (fun _ _ => 1%Qc) None);
    [lia|lia|lia|reflexivity|discriminate].
Defined.

(** X12.  [_ohkm] itself does not compare [topk] with the number of
    keypoints: on a loss matrix with fewer columns than [topk] the call of
    [torch.topk] for the first sample raises a [RuntimeError]. The test at
    the head of [forward] is what turns this case into the [ValueError]. *)
Theorem ohkm_unguarded_topk_out_of_range :
  forall (self : t) (losses : Tensor float) (B K : nat),
    shape losses = [B; K] -> 0 < B -> K < topk self ->
    _ohkm self losses = Raise (RuntimeError TopkOutOfRange).
Proof.
  intros self M B K HS HB HK. unfold _ohkm, size. rewrite HS.
  cbn [nth_error bind]. unfold range.
  destruct B as [|B']; [lia|]. cbn [seq for_each].
  unfold select0. rewrite HS. cbn [Nat.ltb Nat.leb bind].
  unfold Torch.topk, to_list. cbn [shape data].
  rewrite length_map, length_indices. cbn [numel fold_right].
  rewrite Nat.mul_1_r.
  destruct (Nat.ltb_spec K (topk self)); [reflexivity|lia].
Qed.

Lemma ohkm_unguarded_topk_out_of_range_witness :
  _ohkm (mk false 11 1%Qc) ohkm_example_losses
  = Raise (RuntimeError TopkOutOfRange).
Proof.
  apply (ohkm_unguarded_topk_out_of_range (mk false 11 1%Qc)
           ohkm_example_losses 1 10); [reflexivity|lia|simpl; lia].
Defined.

Lemma for_each_returns {A S} (xs : list A) (body : A -> S -> result S) s :
  (forall x st, In x xs -> exists st', body x st = Ok st') ->
  exists s', for_each xs body s = Ok s'.
Proof.
  revert s. induction xs as [|x xs IH]; intros s Hb; simpl; [eauto|].
  destruct (Hb x s) as (s1 & E); [now left|]. rewrite E. cbn [bind].
  apply IH. intros; apply Hb; now right.
Qed.

(** [_ohkm] on a loss matrix with a sample and at least [topk]
    columns. *)
Lemma ohkm_returns self (M : Tensor float) B K :
  shape M = [B; K] -> 0 < B -> topk self <= K ->
  exists v, _ohkm self M = Ok v.
Proof.
  intros HS HB HkK. unfold _ohkm, size. rewrite HS. cbn [nth_error bind].
  match goal with
  | |- context [for_each ?xs ?body ?s] =>
      destruct (for_each_returns xs body s) as (v & E)
  end.
  - intros b acc Hb. apply in_seq in Hb.
    unfold select0. rewrite HS.
    destruct (Nat.ltb_spec b B); [|lia]. cbn [bind].
    unfold Torch.topk, to_list. cbn [shape data].
    rewrite length_map, length_indices. cbn [numel fold_right].
    rewrite Nat.mul_1_r.
    destruct (Nat.ltb_spec K (topk self)); [lia|]. cbn [bind]. eauto.
  - rewrite E. cbn [bind]. destruct (Nat.eqb_spec B 0); [lia|]. eauto.
Qed.

(** X13.  A module that the constructor returns has [0 < topk], and on
    arguments of the documented shapes with a sample and at least [topk]
    keypoints its [forward] raises nothing: it returns a value, for
    every size of the grid. *)
Theorem ohkm_constructed_loss_returns :
  forall (u : bool) (k : nat) (lw : Qc) (self : t) (B K H W : nat)
         (o g : nat -> nat -> nat -> nat -> Qc) (w : nat -> nat -> Qc)
         (tw : option Weights),
    __init__ u k lw = Ok self ->
    0 < B -> k <= K ->
    (u = true -> tw = Some (mkWeights B K w)) ->
    0 < topk self /\
    exists v : float,
      forward self (mkHeatmaps B K H W o) (mkHeatmaps B K H W g) tw = Ok v.
Proof.
  intros u k lw self B K H W o g w tw Hinit HB HkK Htw.
  unfold __init__ in Hinit. destruct (Nat.ltb_spec 0 k); [|discriminate].
  injection Hinit as <-. cbn [topk]. split; [assumption|].
  destruct (ohkm_forward_matrix u k lw B K K H W o g w tw)
    as (M & E & HS & _); [lia|assumption|lia|assumption|].
  destruct (ohkm_returns (mk u k lw) M B K HS HB HkK) as (v & Ev).
  rewrite E, Ev. cbn [bind]. eauto.
Qed.

Lemma ohkm_constructed_loss_returns_witness :
  0 < topk (mk false 8 1%Qc) /\
  exists v : float,
    forward (mk false 8 1%Qc) ohkm_example_output ohkm_example_target None
    = Ok v.
Proof.
  apply (ohkm_constructed_loss_returns false 8 1%Qc (mk false 8 1%Qc)
           1 10 2 2 (hm_at ohkm_example_output) (hm_at ohkm_example_target)
           (fun _ _ => 1%Qc) None);
    [reflexivity|lia|lia|discriminate].
Defined.

Lemma spatial_mean_fin u H W o g w b k :
  0 < H * W ->
  spatial_mean u H W o g w b k = Fin (keypoint_loss u H W o g w b k).
Proof.
  intros HHW. unfold spatial_mean, lmean, keypoint_loss.
  rewrite length_map, length_indices. cbn [numel fold_right].
  rewrite Nat.mul_1_r. destruct (Nat.eqb_spec (H * W) 0); [lia|].
  now rewrite qsum_indices2.
Qed.

(** X14.  Weights with more columns than the output has keypoints are
    accepted: only the columns of the keypoints are read, and the loss is
    the one for the weights without the further columns. *)
Theorem ohkm_further_weight_columns_ignored :
  forall (k : nat) (lw : Qc) (B K K' H W : nat)
         (o g : nat -> nat -> nat -> nat -> Qc) (w : nat -> nat -> Qc),
    0 < B -> 0 < H * W -> 0 < k -> k <= K -> K <= K' ->
    forward (mk true k lw) (mkHeatmaps B K H W o) (mkHeatmaps B K H W g)
            (Some (mkWeights B K' w))
    = forward (mk true k lw) (mkHeatmaps B K H W o) (mkHeatmaps B K H W g)
              (Some (mkWeights B K w)).
Proof.
  intros k lw B K K' H W o g w HB HHW Hk HkK HK'.
  destruct (ohkm_forward_matrix true k lw B K K' H W o g w
              (Some (mkWeights B K' w)))
    as (M & E & HS & HD); [lia|assumption|assumption|reflexivity|].
  rewrite E.
  rewrite (ohkm_matrix _ M B K (keypoint_loss true H W o g w) HS)
    by (assumption || (intros; rewrite HD, spatial_mean_fin by assumption;
                       reflexivity)).
  now rewrite (ohkm_forward_value true k lw B K H W o g w
                 (Some (mkWeights B K w))).
Qed.

Lemma ohkm_further_weight_columns_ignored_witness :
  forward (mk true 1 1%Qc) mse_example_output mse_example_target
    (Some (mkWeights 1 5 (fun _ j => qn j)))
  = forward (mk true 1 1%Qc) mse_example_output mse_example_target
      (Some (mkWeights 1 2 (fun _ j => qn j))).
Proof.
  apply (ohkm_further_weight_columns_ignored 1 1%Qc 1 2 5 1 2
           (hm_at mse_example_output) (hm_at mse_example_target)
           (fun _ j => qn j)); simpl; lia.
Defined.

Lemma for_each_raise_at {A S} (l1 : list A) x l2
  (body : A -> S -> result S) s e :
  (forall i s, In i l1 -> exists s', body i s = Ok s') ->
  (forall s, body x s = Raise e) ->
  for_each (l1 ++ x :: l2) body s = Raise e.
Proof.
  revert s. induction l1 as [|i l1 IH]; intros s H1 Hx; simpl.
  - now rewrite Hx.
  - destruct (H1 i s (or_introl eq_refl)) as (s' & E). rewrite E. cbn [bind].
    apply IH; [|assumption]. intros; apply H1; now right.
Qed.

(** X15.  Weights with fewer columns than the output has keypoints are not
    broadcast, not even a single column: the keypoints that have a column
    are processed, and indexing the column of the first keypoint without one
    raises [IndexError]. *)
Theorem ohkm_missing_weight_column_index_error :
  forall (k : nat) (lw : Qc) (B K K' H W : nat)
         (o g : nat -> nat -> nat -> nat -> Qc) (w : nat -> nat -> Qc),
    k <= K -> K' < K ->
    forward (mk true k lw) (mkHeatmaps B K H W o) (mkHeatmaps B K H W g)
            (Some (mkWeights B K' w))
    = Raise IndexError.
Proof.
  intros k lw B K K' H W o g w HkK HK'. unfold forward.
  cbn [size heatmaps_tensor shape nth_error hm_B hm_K hm_H hm_W bind topk
       use_target_weight loss_weight].
  destruct (Nat.ltb_spec K k); [lia|].
  unfold range. replace K with (K' + S (K - S K')) by lia.
  rewrite seq_app. cbn [seq Nat.add].
  rewrite for_each_raise_at with (e := IndexError); [reflexivity| |].
  - intros idx acc Hidx. apply in_seq in Hidx.
    unfold select1_none_none, select1, unsqueeze1. tsimpl.
    destruct (Nat.ltb_spec idx K'); [|lia]. tsimpl.
    destruct (Nat.ltb_spec idx (K' + S (K - S K'))); [|lia]. tsimpl.
    unfold mul, mse_none, map2, broadcast_shapes. tsimpl.
    rewrite !bdim_1_r, !bdim_refl. tsimpl.
    rewrite !bdim_refl. tsimpl.
    eexists. reflexivity.
  - intros acc. unfold select1_none_none, select1. tsimpl.
    destruct (Nat.ltb_spec K' K'); [lia|reflexivity].
Qed.

Lemma ohkm_missing_weight_column_index_error_witness :
  forward (mk true 1 1%Qc) mse_example_output mse_example_target
    (Some (mkWeights 1 1 (fun _ _ => 1%Qc)))
  = Raise IndexError.
Proof.
  apply (ohkm_missing_weight_column_index_error 1 1%Qc 1 2 1 1 2
           (hm_at mse_example_output) (hm_at mse_example_target)
           (fun _ _ => 1%Qc)); lia.
Defined.

End KeypointOHKMMSELossProperties.

(* ===================================================================== *)
(** ** Properties of [CombinedTargetMSELoss] *)
(* ===================================================================== *)

Module CombinedTargetMSELossProperties.
Import CombinedTargetMSELoss CombinedTargetMSELossFacts.
Import KeypointOHKMMSELossFacts.

Lemma combined_target_forward_formula_witness :
  forward (mk true (qz 2))
    (mkHeatmaps 2 (1 * 3) 1 2 (hm_at iou_example_output))
    (mkHeatmaps 2 (1 * 3) 1 2 (hm_at iou_example_target))
    (Some (mkWeights 2 1 (fun b _ => qn b)))
  = Ok (Fin (combined_target_formula true (qz 2) 2 1 1 2
               (hm_at iou_example_output) (hm_at iou_example_target)
               (fun b _ => qn b))).
Proof.
  apply (combined_target_forward_formula true (qz 2) 2 1 1 2
           (hm_at iou_example_output) (hm_at iou_example_target)
           (fun b _ => qn b) (Some (mkWeights 2 1 (fun b _ => qn b))));
    [lia|lia|simpl; lia|reflexivity|right; right; simpl; lia].
Defined.

(** *** A grid of one location *)

Lemma squeeze_unit_channel B C f j :
  1 < B -> j < C ->
  shape (squeeze (channel (mkHeatmaps B C 1 1 f) j)) = [B] /\
  forall b, data (squeeze (channel (mkHeatmaps B C 1 1 f) j)) [b]
            = f b j 0 0.
Proof.
  intros HB Hj. cbn [squeeze shape channel hm_B hm_H hm_W Nat.mul Nat.add].
  cbn [squeeze_shape Nat.eqb].
  destruct (Nat.eqb_spec B 1); [lia|]. split; [reflexivity|].
  intros b. unfold squeeze at 1. cbn [data].
  replace (unsqueeze_idx (shape (channel (mkHeatmaps B C 1 1 f) j)) [b])
    with [b; 0; 0].
  2:{ cbn [shape channel hm_B hm_H hm_W Nat.mul Nat.add unsqueeze_idx].
      destruct (Nat.eqb_spec B 1); [lia|reflexivity]. }
  rewrite channel_data by (assumption || (simpl; lia)). reflexivity.
Qed.

Lemma bidx_pair_vec B i j : 1 < B -> bidx [B] [i; j] = [j].
Proof.
  intros HB. unfold bidx. cbn [rev app bidx_rev].
  destruct (Nat.eqb_spec B 1); [lia|reflexivity].
Qed.

Lemma bidx_pair_col B i j : bidx [B; 1] [i; j] = [if B =? 1 then 0 else i; 0].
Proof. reflexivity. Qed.

Lemma bidx_pair B i j : i < B -> j < B -> bidx [B; B] [i; j] = [i; j].
Proof.
  intros Hi Hj. unfold bidx. cbn [rev app bidx_rev]. now rewrite !bsel_lt.
Qed.

Lemma broadcast_vec_col B : 1 < B -> broadcast_shapes [B] [B; 1] = Some [B; B].
Proof.
  intros HB. unfold broadcast_shapes. cbn [rev app bshape_rev].
  now rewrite bdim_1_r.
Qed.

Lemma broadcast_pair_vec B : broadcast_shapes [B; B] [B] = Some [B; B].
Proof.
  unfold broadcast_shapes. cbn [rev app bshape_rev]. now rewrite bdim_refl.
Qed.

(** A squeezed channel [[B]] times a weight column [[B, 1]]. *)
Lemma mul_vec_col B (P T : Tensor Qc) :
  1 < B -> shape P = [B] -> shape T = [B; 1] ->
  exists R, mul P T = Ok R /\ shape R = [B; B] /\
            forall i j, i < B -> j < B ->
                        data R [i; j] = (data P [j] * data T [i; 0%nat])%Qc.
Proof.
  intros HB SP ST. unfold mul, map2. rewrite SP, ST, broadcast_vec_col by lia.
  eexists. split; [reflexivity|]. split; [reflexivity|].
  intros i j Hi Hj. cbn [data]. rewrite bidx_pair_vec by lia.
  rewrite bidx_pair_col. destruct (Nat.eqb_spec B 1); [lia|reflexivity].
Qed.

Lemma mul_pair_vec B (R P : Tensor Qc) :
  1 < B -> shape R = [B; B] -> shape P = [B] ->
  exists R', mul R P = Ok R' /\ shape R' = [B; B] /\
             forall i j, i < B -> j < B ->
                         data R' [i; j] = (data R [i; j] * data P [j])%Qc.
Proof.
  intros HB SR SP. unfold mul, map2. rewrite SR, SP, broadcast_pair_vec.
  eexists. split; [reflexivity|]. split; [reflexivity|].
  intros i j Hi Hj. cbn [data].
  now rewrite bidx_pair_vec, bidx_pair by lia.
Qed.

Lemma mse_mean_pairs B (X Y : Tensor Qc) :
  0 < B -> shape X = [B; B] -> shape Y = [B; B] ->
  mse_mean X Y
  = Ok (Fin (pair_mean B (fun i j => sq (data X [i; j] - data Y [i; j])))).
Proof.
  intros HB SX SY. rewrite mse_mean_same_shape by congruence.
  rewrite SX. unfold lmean, pair_mean.
  rewrite length_map, length_indices. cbn [numel fold_right].
  rewrite Nat.mul_1_r. destruct (Nat.eqb_spec (B * B) 0); [nia|].
  now rewrite qsum_indices2.
Qed.

Lemma pair_mean_ext B f f' :
  (forall i j, i < B -> j < B -> f i j = f' i j) ->
  pair_mean B f = pair_mean B f'.
Proof. intros E. unfold pair_mean. f_equal. now apply sum2_ext. Qed.

(** X17.  On a grid of one location, a batch of more than one sample and
    with weighting, the squeezed maps [[B]] are broadcast against the weight
    column [[B, 1]] to [[B, B]]: every term of the loss is a mean over all
    pairs of samples, the maps of one sample under the weight of the other. *)
Theorem combined_target_unit_grid_value :
  forall (lw : Qc) (B K : nat) (o g : nat -> nat -> nat -> nat -> Qc)
         (w : nat -> nat -> Qc),
    1 < B -> 0 < K ->
    forward (mk true lw) (mkHeatmaps B (K * 3) 1 1 o)
            (mkHeatmaps B (K * 3) 1 1 g) (Some (mkWeights B K w))
    = Ok (Fin (unit_grid_formula lw B K o g w)).
Proof.
  intros lw B K o g w HB HK.
  set (O := mkHeatmaps B (K * 3) 1 1 o). set (G := mkHeatmaps B (K * 3) 1 1 g).
  assert (Eo : split_channels (heatmaps_tensor O) B (K * 3)
               = Ok (map (channel O) (seq 0 (K * 3)))).
  { apply (split_channels_heatmaps O). simpl. nia. }
  assert (Eg : split_channels (heatmaps_tensor G) B (K * 3)
               = Ok (map (channel G) (seq 0 (K * 3)))).
  { apply (split_channels_heatmaps G). simpl. nia. }
  unfold forward. cbn [use_target_weight loss_weight].
  change (size (heatmaps_tensor O) 0) with (@Ok nat B).
  change (size (heatmaps_tensor O) 1) with (@Ok nat (K * 3)).
  cbn [bind]. rewrite Eo, Eg. cbn [bind]. rewrite Nat.div_mul by lia.
  rewrite (for_each_fadd _ _ (fun k =>
     half * pair_mean B (pair_class_err o g w k)
     + half * pair_mean B (pair_offset_err o g w 1 k)
     + half * pair_mean B (pair_offset_err o g w 2 k))%Qc).
  - cbn [bind]. destruct (Nat.eqb_spec K 0); [lia|].
    cbn [fdivq fscale]. unfold unit_grid_formula, sum_n, range.
    do 2 f_equal. unfold Qcdiv. ring.
  - intros k acc Hk. apply in_seq in Hk. unfold keypoint_maps.
    rewrite !py_getitem_map_seq by lia. cbn [bind].
    rewrite select1_none_weights by (simpl; lia). cbn [bind].
    destruct (squeeze_unit_channel B (K * 3) o (k * 3) HB) as [S0 D0]; [lia|].
    destruct (squeeze_unit_channel B (K * 3) g (k * 3) HB) as [T0 F0]; [lia|].
    destruct (squeeze_unit_channel B (K * 3) o (k * 3 + 1) HB) as [S1 D1];
      [lia|].
    destruct (squeeze_unit_channel B (K * 3) g (k * 3 + 1) HB) as [T1 F1];
      [lia|].
    destruct (squeeze_unit_channel B (K * 3) o (k * 3 + 2) HB) as [S2 D2];
      [lia|].
    destruct (squeeze_unit_channel B (K * 3) g (k * 3 + 2) HB) as [T2 F2];
      [lia|].
    fold O in S0, D0, S1, D1, S2, D2. fold G in T0, F0, T1, F1, T2, F2.
    cbn [heatmap_pred heatmap_gt].
    destruct (mul_vec_col B (squeeze (channel O (k * 3)))
                (weight_column (mkWeights B K w) k) HB S0)
      as (hp & Ehp & Shp & Dhp);
      [now rewrite weight_column_shape by (simpl; lia)|].
    destruct (mul_vec_col B (squeeze (channel G (k * 3)))
                (weight_column (mkWeights B K w) k) HB T0)
      as (hg & Ehg & Shg & Dhg);
      [now rewrite weight_column_shape by (simpl; lia)|].
    rewrite Ehp. cbn [bind]. rewrite Ehg. cbn [bind].
    unfold classification_mse, regression_mse.
    cbn [heatmap_pred heatmap_gt offset_x_pred offset_x_gt offset_y_pred
         offset_y_gt].
    rewrite (mse_mean_pairs B hp hg) by (assumption || lia). cbn [bind].
    destruct (mul_pair_vec B hg _ HB Shg S1) as (a1 & Ea1 & Sa1 & Da1).
    destruct (mul_pair_vec B hg _ HB Shg T1) as (b1 & Eb1 & Sb1 & Db1).
    destruct (mul_pair_vec B hg _ HB Shg S2) as (a2 & Ea2 & Sa2 & Da2).
    destruct (mul_pair_vec B hg _ HB Shg T2) as (b2 & Eb2 & Sb2 & Db2).
    rewrite Ea1, Eb1. cbn [bind].
    rewrite (mse_mean_pairs B a1 b1) by (assumption || lia). cbn [bind].
    rewrite Ea2, Eb2. cbn [bind].
    rewrite (mse_mean_pairs B a2 b2) by (assumption || lia).
    cbn [bind fadd fscale]. do 2 f_equal.
    rewrite (pair_mean_ext B _ (pair_class_err o g w k)).
    2:{ intros i j Hi Hj. rewrite Dhp, Dhg, D0, F0 by assumption.
        rewrite weight_column_data by lia. reflexivity. }
    rewrite (pair_mean_ext B (fun i j => sq (data a1 [i; j] - data b1 [i; j]))
               (pair_offset_err o g w 1 k)).
    2:{ intros i j Hi Hj. rewrite Da1, Db1, Dhg, F0, D1, F1 by assumption.
        rewrite weight_column_data by lia. reflexivity. }
    rewrite (pair_mean_ext B (fun i j => sq (data a2 [i; j] - data b2 [i; j]))
               (pair_offset_err o g w 2 k)).
    2:{ intros i j Hi Hj. rewrite Da2, Db2, Dhg, F0, D2, F2 by assumption.
        rewrite weight_column_data by lia. reflexivity. }
    ring.
Qed.

Lemma combined_target_unit_grid_value_witness :
  forward (mk true 1%Qc)
    (mkHeatmaps 2 (1 * 3) 1 1 (hm_at combined_example_output))
    (mkHeatmaps 2 (1 * 3) 1 1 (hm_at combined_example_target))
    (Some (mkWeights 2 1 (tw_at combined_example_weights)))
  = Ok (Fin (unit_grid_formula 1%Qc 2 1 (hm_at combined_example_output)
               (hm_at combined_example_target)
               (tw_at combined_example_weights))).
Proof.
  apply (combined_target_unit_grid_value 1%Qc 2 1
           (hm_at combined_example_output) (hm_at combined_example_target)
           (tw_at combined_example_weights)); lia.
Defined.

(** *** Perfect predictions and empty grids *)

Lemma mse_mean_empty X Y :
  shape X = shape Y -> numel (shape X) = 0 -> mse_mean X Y = Ok NaN.
Proof.
  intros E Z. rewrite mse_mean_same_shape by assumption.
  unfold lmean. now rewrite length_map, length_indices, Z.
Qed.

Lemma class_shape_numel u B L :
  numel (class_shape u B L)
  = if u then (if (1 <? B) && (L =? 1) then B * B else B * L) else B * L.
Proof.
  unfold class_shape, weighted_shape. destruct u.
  - destruct (Nat.eqb_spec B 1) as [->|NB].
    + simpl. lia.
    + destruct (Nat.eqb_spec L 1) as [->|NL].
      * destruct (Nat.ltb_spec 1 B); simpl; [lia|].
        assert (B = 0) by lia. subst. reflexivity.
      * rewrite andb_false_r. simpl. lia.
  - rewrite numel_squeeze. simpl. lia.
Qed.

Lemma broadcast_class_offset u B L :
  broadcast_shapes (class_shape u B L) (squeeze_shape [B; 1; L])
  = Some (class_shape u B L).
Proof.
  unfold class_shape. destruct u; [|apply broadcast_shapes_refl].
  unfold weighted_shape. cbn [squeeze_shape Nat.eqb].
  destruct (Nat.eqb_spec B 1) as [->|NB];
    destruct (Nat.eqb_spec L 1) as [->|NL];
    unfold broadcast_shapes; cbn [rev app bshape_rev];
    rewrite ?bdim_refl; reflexivity.
Qed.

(** The two products of a regression term have the shape of the
    classification map. *)
Lemma regression_products u B L (hg p q : Tensor Qc) :
  shape hg = class_shape u B L ->
  shape p = squeeze_shape [B; 1; L] -> shape q = squeeze_shape [B; 1; L] ->
  exists a b, mul hg p = Ok a /\ mul hg q = Ok b /\
              shape a = class_shape u B L /\ shape b = class_shape u B L.
Proof.
  intros Sg Sp Sq.
  destruct (mul_shape hg p (class_shape u B L)) as (a & Ea & Sa).
  { rewrite Sg, Sp. apply broadcast_class_offset. }
  destruct (mul_shape hg q (class_shape u B L)) as (b & Eb & Sb).
  { rewrite Sg, Sq. apply broadcast_class_offset. }
  exists a, b. auto.
Qed.

Lemma for_each_const {A S} (xs : list A) (body : A -> S -> result S) s v :
  xs <> [] -> (forall x s, In x xs -> body x s = Ok v) ->
  for_each xs body s = Ok v.
Proof.
  revert s. induction xs as [|x xs IH]; intros s N Hb; [contradiction|].
  simpl. rewrite Hb by now left. simpl.
  destruct xs as [|y ys]; [reflexivity|].
  apply IH; [discriminate|]. intros; apply Hb; now right.
Qed.

(** X25.  On a grid without location every mean squared error is a mean over
    no element: with a sample and a keypoint, [forward] returns NaN and
    raises nothing. *)
Theorem combined_target_empty_grid_nan :
  forall (u : bool) (lw : Qc) (B K H W : nat)
         (o g : nat -> nat -> nat -> nat -> Qc) (w : nat -> nat -> Qc)
         (tw : option Weights),
    0 < B -> 0 < K -> H * W = 0 ->
    (u = true -> tw = Some (mkWeights B K w)) ->
    forward (mk u lw) (mkHeatmaps B (K * 3) H W o)
            (mkHeatmaps B (K * 3) H W g) tw
    = Ok NaN.
Proof.
  intros u lw B K H W o g w tw HB HK Z Htw.
  set (O := mkHeatmaps B (K * 3) H W o). set (G := mkHeatmaps B (K * 3) H W g).
  assert (Eo : split_channels (heatmaps_tensor O) B (K * 3)
               = Ok (map (channel O) (seq 0 (K * 3)))).
  { apply (split_channels_heatmaps O). simpl. nia. }
  assert (Eg : split_channels (heatmaps_tensor G) B (K * 3)
               = Ok (map (channel G) (seq 0 (K * 3)))).
  { apply (split_channels_heatmaps G). simpl. nia. }
  unfold forward. cbn [use_target_weight loss_weight].
  change (size (heatmaps_tensor O) 0) with (@Ok nat B).
  change (size (heatmaps_tensor O) 1) with (@Ok nat (K * 3)).
  cbn [bind]. rewrite Eo, Eg. cbn [bind]. rewrite Nat.div_mul by lia.
  rewrite (for_each_const _ _ _ NaN).
  - cbn [bind]. destruct (Nat.eqb_spec K 0); [lia|reflexivity].
  - unfold range. destruct K; [lia|discriminate].
  - intros k acc Hk. apply in_seq in Hk.
    destruct (keypoint_maps_shape u B K H W o g w tw k) as
      (m & Em & Sp & Sg & Sxp & Sxg & Syp & Syg); [lia|exact Htw|].
    fold O G in Em. rewrite Em. cbn [bind].
    assert (N : numel (class_shape u B (H * W)) = 0).
    { rewrite class_shape_numel, Z. rewrite Nat.mul_0_r.
      destruct u; [|reflexivity]. now rewrite andb_false_r. }
    unfold classification_mse.
    rewrite mse_mean_empty by congruence. cbn [bind].
    unfold regression_mse.
    destruct (regression_products u B (H * W) _ _ _ Sg Sxp Sxg)
      as (a1 & b1 & Ea1 & Eb1 & Sa1 & Sb1).
    destruct (regression_products u B (H * W) _ _ _ Sg Syp Syg)
      as (a2 & b2 & Ea2 & Eb2 & Sa2 & Sb2).
    rewrite Ea1, Eb1. cbn [bind]. rewrite mse_mean_empty by congruence.
    cbn [bind]. rewrite Ea2, Eb2. cbn [bind].
    rewrite mse_mean_empty by congruence. cbn [bind].
    destruct acc; reflexivity.
Qed.

Lemma combined_target_empty_grid_nan_witness :
  forward (mk true 1%Qc) (mkHeatmaps 2 (1 * 3) 0 4 (fun _ _ _ _ => 1%Qc))
          (mkHeatmaps 2 (1 * 3) 0 4 (fun _ _ _ _ => 0%Qc))
          (Some (mkWeights 2 1 (fun _ _ => 1%Qc)))
  = Ok NaN.
Proof.
  apply (combined_target_empty_grid_nan true 1%Qc 2 1 0 4
           (fun _ _ _ _ => 1%Qc) (fun _ _ _ _ => 0%Qc) (fun _ _ => 1%Qc));
    [lia|lia|reflexivity|reflexivity].
Defined.

End CombinedTargetMSELossProperties.

(* ===================================================================== *)
(** ** Properties of [CombinedTargetIOULoss] *)
(* ===================================================================== *)

Module CombinedTargetIOULossProperties.
Import CombinedTargetMSELoss CombinedTargetIOULoss.
Import CombinedTargetMSELossFacts CombinedTargetIOULossFacts.

Lemma length_filter_map {A B} (f : B -> bool) (g : A -> B) l :
  List.length (filter f (map g l))
  = List.length (filter (fun a => f (g a)) l).
Proof.
  induction l as [|a l IH]; simpl; [reflexivity|].
  destruct (f (g a)); simpl; now rewrite IH.
Qed.

Lemma gt_vectors n (x2 x1 : Tensor Qc) :
  shape x2 = [n] -> shape x1 = [n] ->
  exists mask, gt x2 x1 = Ok mask /\ shape mask = [n] /\
    List.length (filter (data mask) (indices [n])) = displaced_count n x1 x2.
Proof.
  intros S2 S1. unfold gt, map2. rewrite S2, S1, broadcast_shapes_refl.
  eexists. split; [reflexivity|]. split; [reflexivity|].
  cbn [data]. rewrite indices1, length_filter_map. unfold displaced_count.
  f_equal. apply filter_ext_in. intros j Hj. apply in_seq in Hj.
  unfold bidx. cbn [rev app bidx_rev]. rewrite bsel_lt by lia. reflexivity.
Qed.

Lemma mask_index_vector {A} n (t : Tensor A) mask :
  shape t = [n] -> shape mask = [n] ->
  exists r, mask_index t mask = Ok r /\
            shape r = [List.length (filter (data mask) (indices [n]))].
Proof.
  intros St Sm. unfold mask_index. rewrite St, Sm.
  destruct (list_eq_dec Nat.eq_dec [n] [n]); [|congruence].
  eexists. split; reflexivity.
Qed.

(** The box construction raises on all arguments. *)
Lemma append_boxes_raises x1 y1 x2 y2 bbox :
  exists e, append_boxes x1 y1 x2 y2 bbox = Raise e.
Proof.
  unfold append_boxes, rsub_bool.
  destruct (gt x2 x1); cbn [bind]; [|eauto].
  destruct (gt y2 y1); cbn [bind]; [|eauto].
  destruct (mask_index x1 _); cbn [bind]; [|eauto].
  destruct (mask_index y1 _); cbn [bind]; [|eauto].
  destruct (mask_index x2 _); cbn [bind]; [|eauto].
  destruct (mask_index y2 _); cbn [bind]; [|eauto].
  destruct (stack_last _); cbn [bind]; eauto.
Qed.

(** X20.  The construction of the boxes of one location (lines 304 to 316
    and 321 to 336), on coordinate vectors of a batch of [n] samples, always
    raises. When the number of samples displaced to the right differs from
    the number displaced downwards, the masked vectors have different
    lengths and [torch.stack] refuses them; otherwise the first box is
    stacked and [1 - mask_x] raises, a subtraction from a bool tensor. *)
Theorem iou_box_construction_raises :
  forall (n : nat) (x1 y1 x2 y2 : Tensor Qc) (bbox : list (Tensor Qc)),
    shape x1 = [n] -> shape y1 = [n] -> shape x2 = [n] -> shape y2 = [n] ->
    append_boxes x1 y1 x2 y2 bbox
    = Raise (RuntimeError
               (box_error (displaced_count n x1 x2)
                          (displaced_count n y1 y2))).
Proof.
  intros n x1 y1 x2 y2 bbox Sx1 Sy1 Sx2 Sy2.
  unfold append_boxes, rsub_bool.
  destruct (gt_vectors n x2 x1 Sx2 Sx1) as (mx & Ex & Smx & Cx).
  destruct (gt_vectors n y2 y1 Sy2 Sy1) as (my & Ey & Smy & Cy).
  rewrite Ex, Ey. cbn [bind].
  destruct (mask_index_vector n x1 mx Sx1 Smx) as (a0 & E0 & S0).
  destruct (mask_index_vector n y1 my Sy1 Smy) as (a1 & E1 & S1).
  destruct (mask_index_vector n x2 mx Sx2 Smx) as (a2 & E2 & S2).
  destruct (mask_index_vector n y2 my Sy2 Smy) as (a3 & E3 & S3).
  rewrite E0, E1, E2, E3. cbn [bind].
  rewrite Cx in S0, S2. rewrite Cy in S1, S3.
  unfold stack_last, same_shape. cbn [forallb]. rewrite S0, S1, S2, S3.
  unfold box_error.
  destruct (list_eq_dec Nat.eq_dec [displaced_count n x1 x2]
              [displaced_count n x1 x2]) as [_|N]; [|congruence].
  destruct (list_eq_dec Nat.eq_dec [displaced_count n x1 x2]
              [displaced_count n y1 y2]) as [E|N].
  - injection E as E. rewrite E, Nat.eqb_refl. reflexivity.
  - destruct (Nat.eqb_spec (displaced_count n x1 x2)
                (displaced_count n y1 y2)); [congruence|reflexivity].
Qed.

Lemma iou_box_construction_raises_witness :
  append_boxes corner_example corner_example corner_example_x2
    corner_example_y2 []
  = Raise (RuntimeError BoolSubtract)
  /\ append_boxes corner_example corner_example corner_example_x2
       corner_example []
     = Raise (RuntimeError StackSizes).
Proof.
  split.
  - apply (iou_box_construction_raises 2 corner_example corner_example
             corner_example_x2 corner_example_y2 []); reflexivity.
  - apply (iou_box_construction_raises 2 corner_example corner_example
             corner_example_x2 corner_example []); reflexivity.
Defined.

Lemma location_skip_or_raise batch_size H m x y st :
  location batch_size H m x y st = Ok st
  \/ exists e, location batch_size H m x y st = Raise e.
Proof.
  destruct st as [bg bp]. unfold location.
  destruct (select1 (heatmap_gt m) (x * H + y)) as [c|e]; cbn [bind]; [|eauto].
  destruct (tensor_bool (eq_zero c)) as [[|]|e]; cbn [bind]; [eauto| |eauto].
  right.
  do 4 (match goal with
        | |- exists e, bind ?c _ = Raise e =>
            destruct c; cbn [bind]; [|eauto]
        end).
  match goal with
  | |- context [append_boxes ?a ?b ?c ?d ?l] =>
      destruct (append_boxes_raises a b c d l) as (e & E); rewrite E
  end.
  cbn [bind]. eauto.
Qed.

(** X19.  The body of the loops over the locations either leaves the two box
    lists as they are, which it does exactly when the exclusion test yields
    true, or raises: no call adds a box. *)
Theorem iou_location_adds_no_box :
  forall (batch_size H : nat) (m : maps) (x y : nat) (st : boxes),
    (location batch_size H m x y st = Ok st /\
     exists c, select1 (heatmap_gt m) (x * H + y) = Ok c /\
               tensor_bool (eq_zero c) = Ok true)
    \/ exists e, location batch_size H m x y st = Raise e.
Proof.
  intros B H m x y [bg bp].
  destruct (location_skip_or_raise B H m x y (bg, bp)) as [E|E]; [|now right].
  revert E. unfold location.
  destruct (select1 (heatmap_gt m) (x * H + y)) as [c|e]; cbn [bind];
    [|discriminate].
  destruct (tensor_bool (eq_zero c)) as [[|]|e] eqn:Ez; cbn [bind];
    [| |discriminate].
  - intros _. left. split; [reflexivity|]. now exists c.
  - do 4 (match goal with
          | |- bind ?c _ = _ -> _ =>
              destruct c; cbn [bind]; [|intros D; discriminate D]
          end).
    match goal with
    | |- context [append_boxes ?a ?b ?c ?d ?l] =>
        destruct (append_boxes_raises a b c d l) as (e & E); rewrite E
    end.
    cbn [bind]. discriminate.
Qed.

(** X18.  [forward] never returns and never consults its IoU criterion: for
    all heat maps and weights it raises an exception that does not depend on
    the criterion. With a keypoint, no location adds a box, so that
    [torch.cat] is given an empty list at the latest; without one, the
    division by the number of keypoints raises. *)
Theorem iou_forward_never_returns :
  forall (u : bool) (lw : Qc) (output target : Heatmaps)
         (tw : option Weights),
    exists e, forall iou : Tensor Qc -> Tensor Qc -> result float,
      forward (mk iou u lw) output target tw = Raise e.
Proof.
  intros u lw output target tw. unfold forward.
  cbn [use_target_weight loss_weight iou_loss size heatmaps_tensor shape
       nth_error bind].
  destruct (split_channels _ _ _) as [hps|e]; cbn [bind]; [|eauto].
  destruct (split_channels _ _ _) as [hgs|e]; cbn [bind]; [|eauto].
  destruct (hm_K output / 3) as [|n] eqn:En.
  { cbn [range seq for_each bind Nat.eqb]. eauto. }
  unfold range. cbn [seq for_each].
  destruct (keypoint_maps u hps hgs tw 0) as [m|e]; cbn [bind]; [|eauto].
  destruct (classification_mse m) as [c|e]; cbn [bind]; [|eauto].
  match goal with
  | |- context [for_each ?xs ?body ([], [])] =>
      destruct (for_each_skip_or_raise xs body ([], [])) as [E|(e & E)]
  end.
  - intros x st. apply for_each_skip_or_raise. intros y st'.
    apply location_skip_or_raise.
  - rewrite E. cbn [bind cat0]. eauto.
  - rewrite E. cbn [bind]. eauto.
Qed.

End CombinedTargetIOULossProperties.

(* ===================================================================== *)
(** ** Signs of the losses *)
(* ===================================================================== *)

Lemma nonneg_fadd a b :
  nonneg_float a -> nonneg_float b -> nonneg_float (fadd a b).
Proof.
  destruct a, b; simpl; auto. apply Qcplus_nonneg.
Qed.

Lemma nonneg_fscale a c :
  nonneg_float a -> (0 <= c)%Qc -> nonneg_float (fscale a c).
Proof.
  destruct a; simpl; auto. apply Qcmult_nonneg.
Qed.

Lemma nonneg_fdivq a c :
  nonneg_float a -> (0 <= c)%Qc -> nonneg_float (fdivq a c).
Proof.
  destruct a; simpl; auto. apply Qcdiv_nonneg.
Qed.

Lemma nonneg_fsum l :
  (forall v, In v l -> nonneg_float v) -> nonneg_float (fsum l).
Proof.
  induction l as [|v l IH]; intros H; simpl.
  - apply Qcle_refl.
  - apply nonneg_fadd; [apply H; now left|]. apply IH. intros; apply H.
    now right.
Qed.

Lemma tmean_nonneg t : nonneg_entries t -> nonneg_float (tmean t).
Proof.
  intros H. unfold tmean. destruct (numel (shape t) =? 0); [exact I|].
  simpl. apply Qcdiv_nonneg; [|apply qn_nonneg].
  apply qsum_nonneg. intros x Hx. unfold to_list in Hx.
  apply in_map_iff in Hx as (i & <- & _). apply H.
Qed.

Lemma mse_none_nonneg a b t : mse_none a b = Ok t -> nonneg_entries t.
Proof.
  unfold mse_none, map2. destruct (broadcast_shapes _ _); [|discriminate].
  intros [= <-] idx. apply sq_nonneg.
Qed.

Lemma mse_mean_nonneg a b v : mse_mean a b = Ok v -> nonneg_float v.
Proof.
  unfold mse_mean. destruct (mse_none a b) as [t|] eqn:E; [|discriminate].
  cbn [bind]. intros [= <-]. eapply tmean_nonneg, mse_none_nonneg, E.
Qed.

Lemma for_each_invariant {A S} (P : S -> Prop) (xs : list A)
  (body : A -> S -> result S) :
  (forall x s s', In x xs -> P s -> body x s = Ok s' -> P s') ->
  forall s s', P s -> for_each xs body s = Ok s' -> P s'.
Proof.
  induction xs as [|x xs IH]; intros Hb s s' Ps; simpl.
  - now intros [= <-].
  - destruct (body x s) as [s1|] eqn:E; [|discriminate]. cbn [bind].
    apply IH; [intros; eapply Hb; eauto; now right|].
    eapply Hb; eauto. now left.
Qed.

Lemma keypoint_mse_nonneg self output target tw :
  (0 <= KeypointMSELoss.loss_weight self)%Qc ->
  nonneg_result (KeypointMSELoss.forward self output target tw).
Proof.
  intros Hlw. unfold KeypointMSELoss.forward.
  match goal with
  | |- nonneg_result (bind ?c _) =>
      assert (Hc : forall v, c = Ok v -> nonneg_float v);
        [|destruct c as [v|]; [|exact I]]
  end.
  - destruct (KeypointMSELoss.use_target_weight self);
      [|intros v; apply mse_mean_nonneg].
    destruct tw as [tw|]; [|discriminate].
    destruct (_ <? _); [discriminate|].
    destruct (mul _ _); [|discriminate]. cbn [bind].
    destruct (mul _ _); [|discriminate]. cbn [bind].
    intros v; apply mse_mean_nonneg.
  - cbn [bind nonneg_result]. apply nonneg_fscale; auto.
Qed.

Lemma regression_mse_nonneg hg p q v :
  CombinedTargetMSELoss.regression_mse hg p q = Ok v -> nonneg_float v.
Proof.
  unfold CombinedTargetMSELoss.regression_mse.
  destruct (mul _ _); [|discriminate]. cbn [bind].
  destruct (mul _ _); [|discriminate]. cbn [bind].
  apply mse_mean_nonneg.
Qed.

Lemma combined_target_nonneg self output target tw :
  (0 <= CombinedTargetMSELoss.loss_weight self)%Qc ->
  nonneg_result (CombinedTargetMSELoss.forward self output target tw).
Proof.
  intros Hlw. unfold CombinedTargetMSELoss.forward.
  destruct (size _ 0) as [B|]; [|exact I]. cbn [bind].
  destruct (size _ 1) as [C|]; [|exact I]. cbn [bind].
  destruct (CombinedTargetMSELoss.split_channels _ _ _) as [hps|]; [|exact I].
  cbn [bind].
  destruct (CombinedTargetMSELoss.split_channels _ _ _) as [hgs|]; [|exact I].
  cbn [bind].
  match goal with
  | |- nonneg_result (bind (for_each ?xs ?body ?s) _) =>
      pose proof (for_each_invariant nonneg_float xs body) as Inv;
        destruct (for_each xs body s) as [loss|] eqn:E; [|exact I]
  end.
  cbn [bind]. destruct (_ =? 0); [exact I|].
  cbn [nonneg_result]. apply nonneg_fscale; [|assumption].
  apply nonneg_fdivq; [|apply qn_nonneg].
  apply (Inv) with (s := Fin 0%Qc) (s' := loss); [|apply Qcle_refl|exact E].
  intros idx s s' _ Ps.
  destruct (CombinedTargetMSELoss.keypoint_maps _ _ _ _ _) as [m|];
    [|discriminate]. cbn [bind].
  destruct (CombinedTargetMSELoss.classification_mse m) as [c|] eqn:Ec;
    [|discriminate]. cbn [bind].
  destruct (CombinedTargetMSELoss.regression_mse
              (CombinedTargetMSELoss.heatmap_gt m)
              (CombinedTargetMSELoss.offset_x_pred m)
              (CombinedTargetMSELoss.offset_x_gt m)) as [rx|] eqn:Ex;
    [|discriminate]. cbn [bind].
  destruct (CombinedTargetMSELoss.regression_mse
              (CombinedTargetMSELoss.heatmap_gt m)
              (CombinedTargetMSELoss.offset_y_pred m)
              (CombinedTargetMSELoss.offset_y_gt m)) as [ry|] eqn:Ey;
    [|discriminate]. cbn [bind].
  intros D. apply Ok_inj in D. subst s'.
  apply mse_mean_nonneg in Ec. apply regression_mse_nonneg in Ex, Ey.
  repeat apply nonneg_fadd; try assumption;
    apply nonneg_fscale; try assumption; apply half_nonneg.
Qed.

Lemma comprehension_forall {A B} (P : A -> Prop) (Q : B -> Prop)
  (f : A -> result B) xs :
  (forall x y, P x -> f x = Ok y -> Q y) ->
  Forall P xs ->
  forall ys, KeypointOHKMMSELoss.comprehension f xs = Ok ys -> Forall Q ys.
Proof.
  intros Hf. induction 1 as [|x xs Px _ IH]; intros ys; simpl.
  - intros D. apply Ok_inj in D. subst. constructor.
  - destruct (f x) as [y|] eqn:E; [|discriminate]. cbn [bind].
    destruct (KeypointOHKMMSELoss.comprehension f xs) as [ys'|];
      [|discriminate]. cbn [bind].
    intros D. apply Ok_inj in D. subst. constructor; eauto.
Qed.

Lemma mean_dims12_nonneg t m :
  nonneg_entries t -> mean_dims12 t = Ok m -> nonneg_floats m.
Proof.
  intros Ht. unfold mean_dims12.
  destruct (shape t) as [|d0 [|d1 [|d2 rest]]]; try discriminate.
  intros D. apply Ok_inj in D. subst m. intros idx. cbn [data].
  destruct idx as [|i r]; [exact I|].
  apply tmean_nonneg. intros jk. cbn [data].
  destruct jk as [|j [|k [|? ?]]]; try apply Qcle_refl. apply Ht.
Qed.

Lemma unsqueeze1_nonneg (t m : Tensor float) :
  nonneg_floats t -> unsqueeze1 t = Ok m -> nonneg_floats m.
Proof.
  intros Ht. unfold unsqueeze1. destruct (shape t); [discriminate|].
  intros D. apply Ok_inj in D. subst m. intros idx. cbn [data].
  destruct idx as [|i [|z r]]; apply Ht.
Qed.

Lemma cat_pick_all {A} (P : A -> Prop) (dim : Tensor A -> nat) ts i
  (k : Tensor A -> nat -> A) d :
  (forall t j, In t ts -> P (k t j)) -> P d -> P (cat_pick dim ts i k d).
Proof.
  revert i. induction ts as [|t ts IH]; intros i Hk Hd; simpl; [assumption|].
  destruct (i <? dim t); [apply Hk; now left|].
  apply IH; [|assumption]. intros; apply Hk; now right.
Qed.

Lemma cat1_nonneg (ms : list (Tensor float)) M :
  Forall nonneg_floats ms -> cat1 ms = Ok M -> nonneg_floats M.
Proof.
  intros Hms. unfold cat1. destruct ms as [|t0 ms']; [discriminate|].
  destruct (shape t0) as [|d0 [|d1 rest]]; try discriminate.
  destruct (forallb _ _); [|discriminate].
  intros D. apply Ok_inj in D. subst M. intros idx. cbn [data].
  rewrite Forall_forall in Hms.
  apply cat_pick_all.
  - intros t j Ht. now apply Hms.
  - apply Hms. now left.
Qed.

Lemma ohkm_nonneg self M v :
  nonneg_floats M -> KeypointOHKMMSELoss._ohkm self M = Ok v ->
  nonneg_float v.
Proof.
  intros HM. unfold KeypointOHKMMSELoss._ohkm.
  destruct (size M 0) as [B|]; [|discriminate]. cbn [bind].
  match goal with
  | |- bind (for_each ?xs ?body ?s) _ = _ -> _ =>
      pose proof (for_each_invariant nonneg_float xs body) as Inv;
        destruct (for_each xs body s) as [acc|] eqn:E; [|discriminate]
  end.
  cbn [bind]. destruct (B =? 0); [discriminate|].
  intros D. apply Ok_inj in D. subst v.
  apply nonneg_fdivq; [|apply qn_nonneg].
  apply Inv with (s := Fin 0%Qc) (s' := acc); [|apply Qcle_refl|exact E].
  intros b s s' _ Ps. unfold select0.
  destruct (shape M) as [|d0 rest]; [discriminate|].
  destruct (b <? d0); [|discriminate]. cbn [bind].
  destruct (Torch.topk _ _ _) as [[vals idx]|]; [|discriminate]. cbn [bind].
  intros D. apply Ok_inj in D. subst s'.
  apply nonneg_fadd; [assumption|].
  apply nonneg_fdivq; [|apply qn_nonneg].
  apply nonneg_fsum. intros x Hx. unfold to_list in Hx.
  apply in_map_iff in Hx as (i & <- & _). cbn [gather0 data]. apply HM.
Qed.

Lemma keypoint_ohkm_nonneg self output target tw :
  (0 <= KeypointOHKMMSELoss.loss_weight self)%Qc ->
  nonneg_result (KeypointOHKMMSELoss.forward self output target tw).
Proof.
  intros Hlw. unfold KeypointOHKMMSELoss.forward.
  destruct (size _ 1) as [K|]; [|exact I]. cbn [bind].
  destruct (K <? _); [exact I|].
  match goal with
  | |- nonneg_result (bind (for_each ?xs ?body ?s) _) =>
      pose proof (for_each_invariant (Forall nonneg_entries) xs body) as Inv;
        destruct (for_each xs body s) as [losses|] eqn:E; [|exact I]
  end.
  cbn [bind].
  assert (HL : Forall nonneg_entries losses).
  { apply Inv with (s := []) (s' := losses); [|constructor|exact E].
    intros idx s s' _ Ps.
    assert (G : forall a b l, mse_none a b = Ok l -> Ok (s ++ [l]) = Ok s' ->
                              Forall nonneg_entries s').
    { intros a b l El D. apply Ok_inj in D. subst s'.
      apply Forall_app. split; [assumption|].
      constructor; [|constructor]. eapply mse_none_nonneg, El. }
    destruct (KeypointOHKMMSELoss.use_target_weight self).
    - destruct tw as [tw|]; [|discriminate].
      destruct (select1_none_none _ _) as [wk|]; [|discriminate]. cbn [bind].
      destruct (select1 _ _) as [ok|]; [|discriminate]. cbn [bind].
      destruct (mul ok wk) as [a|]; [|discriminate]. cbn [bind].
      destruct (select1 _ _) as [gk|]; [|discriminate]. cbn [bind].
      destruct (mul gk wk) as [b|]; [|discriminate]. cbn [bind].
      destruct (mse_none a b) as [l|] eqn:El; [|discriminate]. cbn [bind].
      apply (G a b l El).
    - destruct (select1 _ _) as [a|]; [|discriminate]. cbn [bind].
      destruct (select1 _ _) as [b|]; [|discriminate]. cbn [bind].
      destruct (mse_none a b) as [l|] eqn:El; [|discriminate]. cbn [bind].
      apply (G a b l El). }
  destruct (KeypointOHKMMSELoss.comprehension _ losses) as [ms|] eqn:Ec;
    [|exact I]. cbn [bind].
  assert (HM : Forall nonneg_floats ms).
  { revert Ec. apply (comprehension_forall nonneg_entries); [|assumption].
    intros t m Ht. destruct (mean_dims12 t) as [m0|] eqn:Em; [|discriminate].
    cbn [bind]. apply unsqueeze1_nonneg. eapply mean_dims12_nonneg; eauto. }
  destruct (cat1 ms) as [M|] eqn:EM; [|exact I]. cbn [bind].
  destruct (KeypointOHKMMSELoss._ohkm self M) as [r|] eqn:Er; [|exact I].
  cbn [bind nonneg_result]. apply nonneg_fscale; [|assumption].
  eapply ohkm_nonneg; [|exact Er]. eapply cat1_nonneg; eassumption.
Qed.

(** X21.  No loss is negative under a loss weight that is not negative:
    whatever the heat maps and the weights are, of the documented shapes or
    not, [forward] of [KeypointMSELoss], [CombinedTargetMSELoss] and
    [KeypointOHKMMSELoss] returns a number at least 0, returns NaN or
    raises. *)
Theorem losses_are_not_negative :
  forall (u : bool) (k : nat) (lw : Qc) (output target : Heatmaps)
         (tw : option Weights),
    (0 <= lw)%Qc ->
    nonneg_result
      (KeypointMSELoss.forward (KeypointMSELoss.mk u lw) output target tw)
    /\ nonneg_result
         (CombinedTargetMSELoss.forward (CombinedTargetMSELoss.mk u lw)
            output target tw)
    /\ nonneg_result
         (KeypointOHKMMSELoss.forward (KeypointOHKMMSELoss.mk u k lw)
            output target tw).
Proof.
  intros u k lw output target tw Hlw. repeat split.
  - now apply keypoint_mse_nonneg.
  - now apply combined_target_nonneg.
  - now apply keypoint_ohkm_nonneg.
Qed.

Lemma losses_are_not_negative_witness :
  nonneg_result
    (KeypointMSELoss.forward (KeypointMSELoss.mk true (qz 2))
       combined_example_output combined_example_target
       (Some combined_example_weights))
  /\ nonneg_result
       (CombinedTargetMSELoss.forward (CombinedTargetMSELoss.mk true (qz 2))
          combined_example_output combined_example_target
          (Some combined_example_weights))
  /\ nonneg_result
       (KeypointOHKMMSELoss.forward (KeypointOHKMMSELoss.mk true 2 (qz 2))
          combined_example_output combined_example_target
          (Some combined_example_weights)).
Proof.
  apply (losses_are_not_negative true 2 (qz 2) combined_example_output
           combined_example_target (Some combined_example_weights)).
  discriminate.
Defined.

(* ===================================================================== *)
(** ** Arguments without keypoints, without samples, without weights *)
(* ===================================================================== *)

(** X22.  With one or two channels there is no keypoint triplet: the loop
    over the keypoints does not run and the division of the Python float
    [0.] by [num_joints = 0] raises [ZeroDivisionError], in
    [CombinedTargetMSELoss] and in [CombinedTargetIOULoss]. *)
Theorem combined_target_no_keypoint_zero_division :
  forall (u : bool) (lw : Qc) (iou : Tensor Qc -> Tensor Qc -> result float)
         (B C H W : nat) (o g : nat -> nat -> nat -> nat -> Qc)
         (tw : option Weights),
    0 < B -> 0 < C -> C < 3 ->
    CombinedTargetMSELoss.forward (CombinedTargetMSELoss.mk u lw)
      (mkHeatmaps B C H W o) (mkHeatmaps B C H W g) tw
    = Raise ZeroDivisionError
    /\ CombinedTargetIOULoss.forward (CombinedTargetIOULoss.mk iou u lw)
         (mkHeatmaps B C H W o) (mkHeatmaps B C H W g) tw
       = Raise ZeroDivisionError.
Proof.
  intros u lw iou B C H W o g tw HB HC HC3.
  set (O := mkHeatmaps B C H W o). set (G := mkHeatmaps B C H W g).
  assert (Eo : CombinedTargetMSELoss.split_channels (heatmaps_tensor O) B C
               = Ok (map (channel O) (seq 0 C))).
  { apply (CombinedTargetMSELossFacts.split_channels_heatmaps O). simpl. nia. }
  assert (Eg : CombinedTargetMSELoss.split_channels (heatmaps_tensor G) B C
               = Ok (map (channel G) (seq 0 C))).
  { apply (CombinedTargetMSELossFacts.split_channels_heatmaps G). simpl. nia. }
  split.
  - unfold CombinedTargetMSELoss.forward.
    change (size (heatmaps_tensor O) 0) with (@Ok nat B).
    change (size (heatmaps_tensor O) 1) with (@Ok nat C).
    cbn [bind]. rewrite Eo, Eg. cbn [bind].
    rewrite Nat.div_small by assumption. reflexivity.
  - unfold CombinedTargetIOULoss.forward.
    change (size (heatmaps_tensor O) 0) with (@Ok nat B).
    change (size (heatmaps_tensor O) 1) with (@Ok nat C).
    change (size (heatmaps_tensor O) 2) with (@Ok nat H).
    change (size (heatmaps_tensor O) 3) with (@Ok nat W).
    cbn [bind]. rewrite Eo, Eg. cbn [bind].
    rewrite Nat.div_small by assumption. reflexivity.
Qed.

Lemma combined_target_no_keypoint_zero_division_witness :
  CombinedTargetMSELoss.forward (CombinedTargetMSELoss.mk false 1%Qc)
    (mkHeatmaps 1 2 1 2 (hm_at mse_example_output))
    (mkHeatmaps 1 2 1 2 (hm_at mse_example_target)) None
  = Raise ZeroDivisionError
  /\ CombinedTargetIOULoss.forward
       (CombinedTargetIOULoss.mk no_iou_loss false 1%Qc)
       (mkHeatmaps 1 2 1 2 (hm_at mse_example_output))
       (mkHeatmaps 1 2 1 2 (hm_at mse_example_target)) None
     = Raise ZeroDivisionError.
Proof.
  apply (combined_target_no_keypoint_zero_division false 1%Qc no_iou_loss
           1 2 1 2 (hm_at mse_example_output) (hm_at mse_example_target) None);
    lia.
Defined.

(** X23.  An output without sample or without channel cannot be reshaped to
    [(batch_size, num_channels, -1)], the size of the last dimension being
    undetermined: [forward] raises a [RuntimeError], whatever the target and
    the weights are. *)
Theorem combined_target_empty_output_reshape_error :
  forall (u : bool) (lw : Qc) (iou : Tensor Qc -> Tensor Qc -> result float)
         (output target : Heatmaps) (tw : option Weights),
    hm_B output * hm_K output = 0 ->
    CombinedTargetMSELoss.forward (CombinedTargetMSELoss.mk u lw)
      output target tw
    = Raise (RuntimeError ReshapeInvalid)
    /\ CombinedTargetIOULoss.forward (CombinedTargetIOULoss.mk iou u lw)
         output target tw
       = Raise (RuntimeError ReshapeInvalid).
Proof.
  intros u lw iou output target tw Z.
  assert (E : CombinedTargetMSELoss.split_channels (heatmaps_tensor output)
                (hm_B output) (hm_K output)
              = Raise (RuntimeError ReshapeInvalid)).
  { unfold CombinedTargetMSELoss.split_channels, reshape3. now rewrite Z. }
  split.
  - unfold CombinedTargetMSELoss.forward.
    cbn [size heatmaps_tensor shape nth_error bind]. now rewrite E.
  - unfold CombinedTargetIOULoss.forward.
    cbn [size heatmaps_tensor shape nth_error bind]. now rewrite E.
Qed.

Lemma combined_target_empty_output_reshape_error_witness :
  CombinedTargetMSELoss.forward (CombinedTargetMSELoss.mk false 1%Qc)
    (mkHeatmaps 0 3 1 1 (fun _ _ _ _ => 1%Qc)) combined_example_target None
  = Raise (RuntimeError ReshapeInvalid)
  /\ CombinedTargetIOULoss.forward
       (CombinedTargetIOULoss.mk no_iou_loss false 1%Qc)
       (mkHeatmaps 0 3 1 1 (fun _ _ _ _ => 1%Qc)) combined_example_target None
     = Raise (RuntimeError ReshapeInvalid).
Proof.
  apply (combined_target_empty_output_reshape_error false 1%Qc no_iou_loss
           (mkHeatmaps 0 3 1 1 (fun _ _ _ _ => 1%Qc)) combined_example_target
           None).
  reflexivity.
Defined.

(** X24.  With weighting enabled and [None] for the weights, only
    [KeypointMSELoss] asserts. The other three modules index the weights at
    the first keypoint and raise [TypeError]: [KeypointOHKMMSELoss] on every
    output with a keypoint and at least [topk] of them, the two combined
    target losses on heat maps with a sample and a keypoint triplet. *)
Theorem missing_weights_type_error :
  forall (k : nat) (lw : Qc) (iou : Tensor Qc -> Tensor Qc -> result float)
         (B C H W : nat) (o g : nat -> nat -> nat -> nat -> Qc)
         (target : Heatmaps),
    0 < B -> 3 <= C -> k <= C ->
    KeypointOHKMMSELoss.forward (KeypointOHKMMSELoss.mk true k lw)
      (mkHeatmaps B C H W o) target None
    = Raise TypeError
    /\ CombinedTargetMSELoss.forward (CombinedTargetMSELoss.mk true lw)
         (mkHeatmaps B C H W o) (mkHeatmaps B C H W g) None
       = Raise TypeError
    /\ CombinedTargetIOULoss.forward (CombinedTargetIOULoss.mk iou true lw)
         (mkHeatmaps B C H W o) (mkHeatmaps B C H W g) None
       = Raise TypeError.
Proof.
  intros k lw iou B C H W o g target HB HC Hk.
  set (O := mkHeatmaps B C H W o). set (G := mkHeatmaps B C H W g).
  assert (Eo : CombinedTargetMSELoss.split_channels (heatmaps_tensor O) B C
               = Ok (map (channel O) (seq 0 C))).
  { apply (CombinedTargetMSELossFacts.split_channels_heatmaps O). simpl. nia. }
  assert (Eg : CombinedTargetMSELoss.split_channels (heatmaps_tensor G) B C
               = Ok (map (channel G) (seq 0 C))).
  { apply (CombinedTargetMSELossFacts.split_channels_heatmaps G). simpl. nia. }
  assert (EJ : exists n, C / 3 = S n).
  { destruct (C / 3) eqn:E; [|eauto].
    apply Nat.div_small_iff in E; lia. }
  destruct EJ as (n & EJ).
  assert (EM : forall hps hgs,
             hps = map (channel O) (seq 0 C) ->
             hgs = map (channel G) (seq 0 C) ->
             CombinedTargetMSELoss.keypoint_maps true hps hgs None 0
             = Raise TypeError).
  { intros hps hgs -> ->. unfold CombinedTargetMSELoss.keypoint_maps.
    rewrite !CombinedTargetMSELossFacts.py_getitem_map_seq by lia.
    reflexivity. }
  repeat split.
  - unfold KeypointOHKMMSELoss.forward.
    change (size (heatmaps_tensor O) 1) with (@Ok nat C).
    cbn [bind KeypointOHKMMSELoss.topk KeypointOHKMMSELoss.use_target_weight].
    destruct (Nat.ltb_spec C k); [lia|].
    destruct C as [|C']; [lia|]. reflexivity.
  - unfold CombinedTargetMSELoss.forward.
    change (size (heatmaps_tensor O) 0) with (@Ok nat B).
    change (size (heatmaps_tensor O) 1) with (@Ok nat C).
    cbn [bind CombinedTargetMSELoss.use_target_weight]. rewrite Eo, Eg.
    cbn [bind]. rewrite EJ. unfold range. cbn [seq for_each].
    now rewrite EM.
  - unfold CombinedTargetIOULoss.forward.
    change (size (heatmaps_tensor O) 0) with (@Ok nat B).
    change (size (heatmaps_tensor O) 1) with (@Ok nat C).
    change (size (heatmaps_tensor O) 2) with (@Ok nat H).
    change (size (heatmaps_tensor O) 3) with (@Ok nat W).
    cbn [bind CombinedTargetIOULoss.use_target_weight]. rewrite Eo, Eg.
    cbn [bind]. rewrite EJ. unfold range. cbn [seq for_each].
    now rewrite EM.
Qed.

Lemma missing_weights_type_error_witness :
  KeypointOHKMMSELoss.forward (KeypointOHKMMSELoss.mk true 2 1%Qc)
    (mkHeatmaps 2 3 1 1 (hm_at combined_example_output))
    combined_example_target None
  = Raise TypeError
  /\ CombinedTargetMSELoss.forward (CombinedTargetMSELoss.mk true 1%Qc)
       (mkHeatmaps 2 3 1 1 (hm_at combined_example_output))
       (mkHeatmaps 2 3 1 1 (hm_at combined_example_target)) None
     = Raise TypeError
  /\ CombinedTargetIOULoss.forward
       (CombinedTargetIOULoss.mk no_iou_loss true 1%Qc)
       (mkHeatmaps 2 3 1 1 (hm_at combined_example_output))
       (mkHeatmaps 2 3 1 1 (hm_at combined_example_target)) None
     = Raise TypeError.
Proof.
  apply (missing_weights_type_error 2 1%Qc no_iou_loss 2 3 1 1
           (hm_at combined_example_output) (hm_at combined_example_target)
           combined_example_target); lia.
Defined.

(* ===================================================================== *)
(** ** Finite entries among all entries *)
(* ===================================================================== *)

(** On heat maps and weights whose entries are finite the modules of
    [Ieee] return what the modules on rationals return. *)

Lemma related_bind {A B A' B'} (R : A -> B -> Prop) (R' : A' -> B' -> Prop)
  X x K k :
  related R X x ->
  (forall a b, R a b -> related R' (K a) (k b)) ->
  related R' (bind X K) (bind x k).
Proof.
  intros H HK. destruct X as [a|e], x as [b|e']; simpl in *;
    try contradiction; auto.
Qed.

Lemma related_value {A B} (R : A -> B -> Prop) X x b :
  related R X x -> x = Ok b -> exists a, X = Ok a /\ R a b.
Proof.
  intros H ->. destruct X as [a|e]; simpl in H; [eauto|contradiction].
Qed.

(** *** Indices *)

Lemma bidx_in_indices_r s1 s2 s idx :
  broadcast_shapes s1 s2 = Some s -> In idx (indices s) ->
  In (bidx s2 idx) (indices s2).
Proof.
  rewrite broadcast_shapes_comm. apply bidx_in_indices_l.
Qed.

Lemma ravel_lt s idx : Forall2 lt idx s -> ravel s idx < numel s.
Proof.
  induction 1 as [|i d idx s Hi H IH]; simpl; [lia|]. nia.
Qed.

Lemma unravel_valid s k : k < numel s -> Forall2 lt (unravel s k) s.
Proof.
  revert k. induction s as [|d s IH]; intros k Hk; simpl; [constructor|].
  cbn [numel fold_right] in Hk. fold (numel s) in Hk.
  assert (numel s <> 0) by nia.
  constructor.
  - apply Nat.Div0.div_lt_upper_bound. lia.
  - apply IH. now apply Nat.mod_upper_bound.
Qed.

Lemma removelast_valid idx s :
  Forall2 lt idx (s ++ [1]) -> Forall2 lt (removelast idx) s.
Proof.
  revert idx. induction s as [|d s IH]; intros idx H.
  - inversion H as [|i d' r s' Hi Hr]; subst. inversion Hr; subst.
    constructor.
  - inversion H as [|i d' r s' Hi Hr]; subst.
    assert (r <> []).
    { intros ->. inversion Hr. destruct s; discriminate. }
    cbn [removelast]. destruct r as [|j r']; [contradiction|].
    constructor; [assumption|]. now apply IH.
Qed.

(** *** Tensors *)

Lemma refines_heatmaps x :
  finite_heatmaps x ->
  refines (Ieee.heatmaps_tensor x) (heatmaps_tensor (rational_heatmaps x)).
Proof.
  intros F. split; [reflexivity|]. intros idx H. apply in_indices in H.
  cbn [heatmaps_tensor rational_heatmaps shape hm_B hm_K hm_H hm_W] in H.
  inversion H as [|b ? r1 ? Hb H1]; subst.
  inversion H1 as [|k ? r2 ? Hk H2]; subst.
  inversion H2 as [|h ? r3 ? Hh H3]; subst.
  inversion H3 as [|w ? r4 ? Hw H4]; subst.
  inversion H4; subst.
  cbn [Ieee.heatmaps_tensor heatmaps_tensor rational_heatmaps data hm_at].
  specialize (F b k h w Hb Hk Hh Hw).
  destruct (Ieee.hm_at x b k h w); try discriminate. reflexivity.
Qed.

Lemma refines_weights x :
  finite_weights x ->
  refines (Ieee.weights_tensor x) (weights_tensor (rational_weights x)).
Proof.
  intros F. split; [reflexivity|]. intros idx H. apply in_indices in H.
  cbn [weights_tensor rational_weights shape tw_B tw_K] in H.
  inversion H as [|b ? r1 ? Hb H1]; subst.
  inversion H1 as [|k ? r2 ? Hk H2]; subst.
  inversion H2; subst.
  cbn [Ieee.weights_tensor weights_tensor rational_weights data tw_at].
  specialize (F b k Hb Hk).
  destruct (Ieee.tw_at x b k); try discriminate. reflexivity.
Qed.

Lemma refines_map2 (F : Ieee.xfloat -> Ieee.xfloat -> Ieee.xfloat)
  (f : Qc -> Qc -> Qc) X Y x y :
  (forall p q, F (Ieee.XFin p) (Ieee.XFin q) = Ieee.XFin (f p q)) ->
  refines X x -> refines Y y ->
  related refines (map2 F X Y) (map2 f x y).
Proof.
  intros HF [SX DX] [SY DY]. unfold map2. rewrite SX, SY.
  destruct (broadcast_shapes (shape x) (shape y)) as [s|] eqn:E; simpl;
    [|reflexivity].
  split; [reflexivity|]. intros idx H. cbn [data shape] in *.
  rewrite DX by (eapply bidx_in_indices_l; eassumption).
  rewrite DY by (eapply bidx_in_indices_r; eassumption).
  apply HF.
Qed.

Lemma refines_mul X Y x y :
  refines X x -> refines Y y -> related refines (Ieee.mul X Y) (mul x y).
Proof. apply refines_map2. reflexivity. Qed.

Lemma xsum_finite {A} (F : A -> Ieee.xfloat) (f : A -> Qc) l :
  (forall a, In a l -> F a = Ieee.XFin (f a)) ->
  Ieee.xsum (map F l) = Ieee.XFin (qsum (map f l)).
Proof.
  intros E. induction l as [|a l IH]; simpl; [reflexivity|].
  rewrite IH by (intros; apply E; now right).
  now rewrite E by now left.
Qed.

Lemma refines_tmean X x :
  refines X x -> Ieee.tmean X = Ieee.of_float (tmean x).
Proof.
  intros [SX DX]. unfold Ieee.tmean, tmean, tsum, to_list. rewrite SX.
  destruct (numel (shape x) =? 0); [reflexivity|].
  now rewrite (xsum_finite _ (data x)).
Qed.

Lemma refines_mse_mean X Y x y :
  refines X x -> refines Y y ->
  related is_float (Ieee.mse_mean X Y) (mse_mean x y).
Proof.
  intros HX HY. unfold Ieee.mse_mean, mse_mean.
  apply (related_bind refines).
  - unfold Ieee.mse_none, mse_none. apply refines_map2; [reflexivity|auto..].
  - intros D d HD. apply refines_tmean, HD.
Qed.

Lemma refines_unsqueeze_last X x :
  refines X x -> refines (unsqueeze_last X) (unsqueeze_last x).
Proof.
  intros [SX DX]. split; cbn [unsqueeze_last shape data]; [now rewrite SX|].
  intros idx H. apply DX. apply in_indices. apply removelast_valid.
  now apply in_indices.
Qed.

Lemma refines_iter_unsqueeze n X x :
  refines X x ->
  refines (Nat.iter n unsqueeze_last X) (Nat.iter n unsqueeze_last x).
Proof.
  intros H. induction n as [|n IH]; simpl; [exact H|].
  now apply refines_unsqueeze_last.
Qed.

Lemma refines_squeeze X x : refines X x -> refines (squeeze X) (squeeze x).
Proof.
  intros [SX DX]. split; cbn [squeeze shape data]; rewrite SX; [reflexivity|].
  intros idx H. apply DX. now apply squeeze_idx_valid.
Qed.

Lemma refines_select1 X x j :
  refines X x -> related refines (select1 X j) (select1 x j).
Proof.
  intros [SX DX]. unfold select1. rewrite SX.
  destruct (shape x) as [|d0 [|d1 rest]]; simpl; try reflexivity.
  destruct (Nat.ltb_spec j d1) as [Hj|Hj]; simpl; [|reflexivity].
  split; [reflexivity|]. intros idx Hidx. cbn [shape data] in *.
  apply in_indices in Hidx. inversion Hidx as [|i ? r ? Hi Hr]; subst.
  apply DX. apply in_indices. repeat constructor; assumption.
Qed.

Lemma refines_unsqueeze1 X x :
  refines X x -> related refines (unsqueeze1 X) (unsqueeze1 x).
Proof.
  intros [SX DX]. unfold unsqueeze1. rewrite SX.
  destruct (shape x) as [|d0 rest]; simpl; [reflexivity|].
  split; [reflexivity|]. intros idx Hidx. cbn [shape data] in *.
  apply in_indices in Hidx. inversion Hidx as [|i ? r ? Hi Hr]; subst.
  inversion Hr as [|j ? r' ? Hj Hr']; subst.
  apply DX. apply in_indices. constructor; assumption.
Qed.

Lemma refines_select1_none X x j :
  refines X x -> related refines (select1_none X j) (select1_none x j).
Proof.
  intros H. unfold select1_none.
  apply (related_bind refines); [now apply refines_select1|].
  intros C c HC. now apply refines_unsqueeze1.
Qed.

Lemma refines_reshape3 X x b c :
  refines X x -> related refines (reshape3 X b c) (reshape3 x b c).
Proof.
  intros [SX DX]. unfold reshape3. rewrite SX.
  destruct (Nat.eqb_spec (b * c) 0); simpl; [reflexivity|].
  destruct (Nat.eqb_spec (numel (shape x) mod (b * c)) 0) as [Z|]; simpl;
    [|reflexivity].
  split; [reflexivity|]. intros idx Hidx. cbn [shape data] in *.
  apply DX. apply in_indices, unravel_valid.
  apply in_indices, ravel_lt in Hidx.
  replace (numel [b; c; numel (shape x) / (b * c)])
    with (numel (shape x)) in Hidx; [exact Hidx|].
  cbn [numel fold_right]. rewrite Nat.mul_1_r, Nat.mul_assoc.
  now apply Nat.Div0.div_exact.
Qed.

Lemma Forall2_map_same {A B C} (R : B -> C -> Prop) (F : A -> B) (f : A -> C)
  l :
  (forall a, In a l -> R (F a) (f a)) -> Forall2 R (map F l) (map f l).
Proof.
  intros H. induction l as [|a l IH]; simpl; constructor.
  - apply H. now left.
  - apply IH. intros; apply H; now right.
Qed.

Lemma refines_split_1_1 X x :
  refines X x -> related (Forall2 refines) (split_1_1 X) (split_1_1 x).
Proof.
  intros [SX DX]. unfold split_1_1. rewrite SX.
  destruct (shape x) as [|d0 [|d1 rest]]; simpl; try reflexivity.
  apply Forall2_map_same. intros j Hj. apply in_seq in Hj.
  split; [reflexivity|].
  intros idx Hidx. cbn [shape data] in *.
  apply in_indices in Hidx. inversion Hidx as [|i ? r ? Hi Hr]; subst.
  inversion Hr as [|j' ? r' ? Hj' Hr']; subst.
  apply DX. apply in_indices. repeat constructor; (assumption || lia).
Qed.

Lemma refines_split_channels X x b c :
  refines X x ->
  related (Forall2 refines)
    (Ieee.CombinedTargetMSELoss.split_channels X b c)
    (CombinedTargetMSELoss.split_channels x b c).
Proof.
  intros H. unfold Ieee.CombinedTargetMSELoss.split_channels,
    CombinedTargetMSELoss.split_channels.
  apply (related_bind refines); [now apply refines_reshape3|].
  intros R r HR. now apply refines_split_1_1.
Qed.

Lemma related_py_getitem {A B} (R : A -> B -> Prop) L l i :
  Forall2 R L l -> related R (py_getitem L i) (py_getitem l i).
Proof.
  intros H. unfold py_getitem. revert i.
  induction H as [|a b L l Hab H IH]; intros [|i]; simpl; auto.
Qed.

(** *** The modules *)

Lemma refines_keypoint_maps u Hp hp Hg hg tw k :
  Forall2 refines Hp hp -> Forall2 refines Hg hg ->
  (forall ws, u = true -> tw = Some ws -> finite_weights ws) ->
  related maps_refine
    (Ieee.CombinedTargetMSELoss.keypoint_maps u Hp Hg tw k)
    (CombinedTargetMSELoss.keypoint_maps u hp hg
       (option_map rational_weights tw) k).
Proof.
  intros FP FG FW. unfold Ieee.CombinedTargetMSELoss.keypoint_maps,
    CombinedTargetMSELoss.keypoint_maps.
  apply (related_bind refines); [now apply related_py_getitem|].
  intros P1 p1 R1.
  apply (related_bind refines); [now apply related_py_getitem|].
  intros G1 g1 R2.
  apply (related_bind refines); [now apply related_py_getitem|].
  intros P2 p2 R3.
  apply (related_bind refines); [now apply related_py_getitem|].
  intros G2 g2 R4.
  apply (related_bind refines); [now apply related_py_getitem|].
  intros P3 p3 R5.
  apply (related_bind refines); [now apply related_py_getitem|].
  intros G3 g3 R6.
  cbn [Ieee.CombinedTargetMSELoss.heatmap_pred
       Ieee.CombinedTargetMSELoss.heatmap_gt
       Ieee.CombinedTargetMSELoss.offset_x_pred
       Ieee.CombinedTargetMSELoss.offset_x_gt
       Ieee.CombinedTargetMSELoss.offset_y_pred
       Ieee.CombinedTargetMSELoss.offset_y_gt
       CombinedTargetMSELoss.heatmap_pred CombinedTargetMSELoss.heatmap_gt
       CombinedTargetMSELoss.offset_x_pred CombinedTargetMSELoss.offset_x_gt
       CombinedTargetMSELoss.offset_y_pred CombinedTargetMSELoss.offset_y_gt].
  destruct u.
  - destruct tw as [ws|]; cbn [option_map]; [|reflexivity].
    apply (related_bind refines).
    { apply refines_select1_none, refines_weights. now apply FW. }
    intros T t RT.
    apply (related_bind refines).
    { apply refines_mul; [now apply refines_squeeze|assumption]. }
    intros A a RA.
    apply (related_bind refines).
    { apply refines_mul; [now apply refines_squeeze|assumption]. }
    intros B b RB.
    repeat split; cbn; try apply RA; try apply RB;
      apply refines_squeeze; assumption.
  - repeat split; cbn; apply refines_squeeze; assumption.
Qed.

Lemma refines_classification_mse M m :
  maps_refine M m ->
  related is_float (Ieee.CombinedTargetMSELoss.classification_mse M)
                   (CombinedTargetMSELoss.classification_mse m).
Proof.
  intros (R1 & R2 & _). now apply refines_mse_mean.
Qed.

Lemma refines_regression_mse G P Q g p q :
  refines G g -> refines P p -> refines Q q ->
  related is_float (Ieee.CombinedTargetMSELoss.regression_mse G P Q)
                   (CombinedTargetMSELoss.regression_mse g p q).
Proof.
  intros RG RP RQ. unfold Ieee.CombinedTargetMSELoss.regression_mse,
    CombinedTargetMSELoss.regression_mse.
  apply (related_bind refines); [now apply refines_mul|]. intros A a RA.
  apply (related_bind refines); [now apply refines_mul|]. intros B b RB.
  now apply refines_mse_mean.
Qed.

Lemma related_for_each {A S T} (R : S -> T -> Prop) (xs : list A) Body body :
  (forall x s t, R s t -> related R (Body x s) (body x t)) ->
  forall s t, R s t -> related R (for_each xs Body s) (for_each xs body t).
Proof.
  intros HB. induction xs as [|x xs IH]; intros s t Hst; simpl; [exact Hst|].
  apply (related_bind R); [now apply HB|]. exact IH.
Qed.

Lemma is_float_term L l C c :
  is_float L l -> is_float C c ->
  is_float (Ieee.xadd L (Ieee.xmul (Ieee.XFin half) C))
           (fadd l (fscale c half)).
Proof.
  unfold is_float. intros -> ->. destruct l as [x|], c as [y|]; simpl;
    try reflexivity.
  f_equal. ring.
Qed.

(** [KeypointMSELoss.forward] on finite entries. *)
Lemma keypoint_mse_finite u lw output target tw :
  finite_heatmaps output -> finite_heatmaps target ->
  (forall ws, u = true -> tw = Some ws -> finite_weights ws) ->
  related is_float
    (Ieee.KeypointMSELoss.forward
       (Ieee.KeypointMSELoss.mk u (Ieee.XFin lw)) output target tw)
    (KeypointMSELoss.forward (KeypointMSELoss.mk u lw)
       (rational_heatmaps output) (rational_heatmaps target)
       (option_map rational_weights tw)).
Proof.
  intros FO FG FW.
  unfold Ieee.KeypointMSELoss.forward, KeypointMSELoss.forward.
  cbn [Ieee.KeypointMSELoss.use_target_weight
       Ieee.KeypointMSELoss.loss_weight
       KeypointMSELoss.use_target_weight KeypointMSELoss.loss_weight].
  apply (related_bind is_float).
  - destruct u; [|apply refines_mse_mean; now apply refines_heatmaps].
    destruct tw as [ws|]; cbn [option_map]; [|reflexivity].
    change (ndim (Ieee.heatmaps_tensor output)) with 4.
    change (ndim (Ieee.weights_tensor ws)) with 2.
    change (ndim (heatmaps_tensor (rational_heatmaps output))) with 4.
    change (ndim (weights_tensor (rational_weights ws))) with 2.
    cbn [Nat.ltb Nat.leb Nat.sub].
    assert (RW : refines (Ieee.weights_tensor ws)
                         (weights_tensor (rational_weights ws))).
    { apply refines_weights. now apply FW. }
    apply (related_bind refines).
    { apply refines_mul; [now apply refines_heatmaps|].
      now apply refines_iter_unsqueeze. }
    intros A a RA.
    apply (related_bind refines).
    { apply refines_mul; [now apply refines_heatmaps|].
      now apply refines_iter_unsqueeze. }
    intros B b RB. now apply refines_mse_mean.
  - intros V v ->. destruct v; reflexivity.
Qed.

(** [CombinedTargetMSELoss.forward] on finite entries. *)
Lemma combined_target_finite u lw output target tw :
  finite_heatmaps output -> finite_heatmaps target ->
  (forall ws, u = true -> tw = Some ws -> finite_weights ws) ->
  related is_float
    (Ieee.CombinedTargetMSELoss.forward
       (Ieee.CombinedTargetMSELoss.mk u (Ieee.XFin lw)) output target tw)
    (CombinedTargetMSELoss.forward (CombinedTargetMSELoss.mk u lw)
       (rational_heatmaps output) (rational_heatmaps target)
       (option_map rational_weights tw)).
Proof.
  intros FO FG FW.
  unfold Ieee.CombinedTargetMSELoss.forward, CombinedTargetMSELoss.forward.
  cbn [Ieee.CombinedTargetMSELoss.use_target_weight
       Ieee.CombinedTargetMSELoss.loss_weight
       CombinedTargetMSELoss.use_target_weight
       CombinedTargetMSELoss.loss_weight].
  apply (related_bind eq); [reflexivity|]. intros B ? <-.
  apply (related_bind eq); [reflexivity|]. intros C ? <-.
  apply (related_bind (Forall2 refines)).
  { now apply refines_split_channels, refines_heatmaps. }
  intros Hp hp FP.
  apply (related_bind (Forall2 refines)).
  { now apply refines_split_channels, refines_heatmaps. }
  intros Hg hg FH.
  apply (related_bind is_float).
  - apply related_for_each; [|reflexivity].
    intros k L l RL.
    apply (related_bind maps_refine); [now apply refines_keypoint_maps|].
    intros M m RM. pose proof RM as (R1 & R2 & R3 & R4 & R5 & R6).
    apply (related_bind is_float); [now apply refines_classification_mse|].
    intros V v RV.
    apply (related_bind is_float); [now apply refines_regression_mse|].
    intros X x RX.
    apply (related_bind is_float); [now apply refines_regression_mse|].
    intros Y y RY.
    apply is_float_term; [|assumption].
    apply is_float_term; [|assumption].
    now apply is_float_term.
  - intros V v ->. destruct (C / 3 =? 0); [reflexivity|].
    destruct v; reflexivity.
Qed.

(** *** [KeypointMSELoss] with every weight zero *)

(** C8.  With weighting enabled, every target weight zero and a finite
    loss weight, the loss is exactly 0 for every output and target of a
    shape with at least one entry whose entries are finite.  (An entry
    that is infinite or NaN is multiplied by the weight 0 to NaN, and
    the loss is NaN.) *)
Theorem keypoint_mse_zero_weights :
  forall (lw : Qc) (B K H W : nat)
         (o g : nat -> nat -> nat -> nat -> Ieee.xfloat)
         (w : nat -> nat -> Ieee.xfloat),
    0 < B * K * H * W ->
    finite_heatmaps (Ieee.mkHeatmaps B K H W o) ->
    finite_heatmaps (Ieee.mkHeatmaps B K H W g) ->
    (forall b k, b < B -> k < K -> w b k = Ieee.XFin 0%Qc) ->
    Ieee.KeypointMSELoss.forward
      (Ieee.KeypointMSELoss.mk true (Ieee.XFin lw))
      (Ieee.mkHeatmaps B K H W o) (Ieee.mkHeatmaps B K H W g)
      (Some (Ieee.mkWeights B K w))
    = Ok (Ieee.XFin 0%Qc).
Proof.
  intros lw B K H W o g w Hpos FO FG Hz.
  assert (FW : forall ws,
            true = true -> Some (Ieee.mkWeights B K w) = Some ws ->
            finite_weights ws).
  { intros ws _ [= <-] b k Hb Hk. cbn [Ieee.tw_at Ieee.tw_B Ieee.tw_K] in *.
    now rewrite Hz. }
  destruct (related_value _ _ _ (Fin 0%Qc)
              (keypoint_mse_finite true lw _ _ _ FO FG FW))
    as (V & EV & HV).
  - apply KeypointMSELossFacts.forward_zero_weights; [assumption|].
    intros b k Hb Hk. now rewrite Hz.
  - rewrite EV, HV. reflexivity.
Qed.

Lemma keypoint_mse_zero_weights_witness :
  Ieee.KeypointMSELoss.forward
    (Ieee.KeypointMSELoss.mk true (Ieee.XFin (qz 2)))
    (Ieee.mkHeatmaps 1 2 1 2
       (fun _ k _ x => Ieee.XFin (qn (k * 2 + x + 1))))
    (Ieee.mkHeatmaps 1 2 1 2 (fun _ _ _ _ => Ieee.XFin 0%Qc))
    (Some (Ieee.mkWeights 1 2 (fun _ _ => Ieee.XFin 0%Qc)))
  = Ok (Ieee.XFin 0%Qc).
Proof.
  apply (keypoint_mse_zero_weights (qz 2) 1 2 1 2
           (fun _ k _ x => Ieee.XFin (qn (k * 2 + x + 1)))
           (fun _ _ _ _ => Ieee.XFin 0%Qc) (fun _ _ => Ieee.XFin 0%Qc));
    [simpl; lia|intros b k h x _ _ _ _; reflexivity
    |intros b k h x _ _ _ _; reflexivity|reflexivity].
Defined.

(** An output that is [inf] at its one entry, target 0 and weight 0:
    the weighted output is [inf * 0], the loss is NaN and not 0. *)
Lemma keypoint_mse_zero_weights_infinite_output :
  Ieee.KeypointMSELoss.forward
    (Ieee.KeypointMSELoss.mk true (Ieee.XFin 1%Qc))
    infinite_output zero_target (Some zero_weights)
  = Ok Ieee.XNaN.
Proof. vm_compute. reflexivity. Qed.

(** *** [CombinedTargetMSELoss] with every ground truth value zero *)

Lemma classification_loss_finite (c : nat -> Qc) K lw :
  classification_loss (fun k => Ieee.XFin (c k)) K (Ieee.XFin lw)
  = Ieee.XFin (sum_n K (fun k => c k * half) / qn K * lw)%Qc.
Proof.
  unfold classification_loss, sum_n.
  assert (E : forall l a,
    fold_left (fun loss k =>
                 Ieee.xadd loss (Ieee.xmul (Ieee.XFin half) (Ieee.XFin (c k))))
              l (Ieee.XFin a)
    = Ieee.XFin (a + qsum (map (fun k => c k * half) l))%Qc).
  { induction l as [|x l IH]; intros a; simpl.
    - f_equal. ring.
    - rewrite IH. f_equal. ring. }
  rewrite E. cbn [Ieee.xdivn Ieee.xmul]. f_equal. unfold Qcdiv. ring.
Qed.

(** C7.  When every ground truth classification value is zero and the
    entries of output, target and weights are finite, both regression
    terms of every keypoint are exactly zero and the loss is the one
    accumulated from the classification terms alone.  (An offset that
    is infinite or NaN is multiplied by the ground truth 0 to NaN, and
    the regression term is NaN.) *)
Theorem combined_target_regression_masked :
  forall (u : bool) (lw : Qc) (B K H W : nat)
         (o g : nat -> nat -> nat -> nat -> Ieee.xfloat)
         (w : nat -> nat -> Ieee.xfloat) (tw : option Ieee.Weights),
    0 < B -> 0 < K -> 0 < H * W ->
    (u = true -> tw = Some (Ieee.mkWeights B K w)) ->
    finite_heatmaps (Ieee.mkHeatmaps B (K * 3) H W o) ->
    finite_heatmaps (Ieee.mkHeatmaps B (K * 3) H W g) ->
    finite_weights (Ieee.mkWeights B K w) ->
    (forall b k h x,
        b < B -> k < K -> h < H -> x < W ->
        g b (k * 3) h x = Ieee.XFin 0%Qc) ->
    let output := Ieee.mkHeatmaps B (K * 3) H W o in
    let target := Ieee.mkHeatmaps B (K * 3) H W g in
    exists (heatmaps_pred heatmaps_gt : list (Tensor Ieee.xfloat))
           (c : nat -> Ieee.xfloat),
      Ieee.CombinedTargetMSELoss.split_channels
        (Ieee.heatmaps_tensor output) B (K * 3) = Ok heatmaps_pred /\
      Ieee.CombinedTargetMSELoss.split_channels
        (Ieee.heatmaps_tensor target) B (K * 3) = Ok heatmaps_gt /\
      (forall k, k < K ->
         exists m,
           Ieee.CombinedTargetMSELoss.keypoint_maps u heatmaps_pred
             heatmaps_gt tw k = Ok m /\
           Ieee.CombinedTargetMSELoss.classification_mse m = Ok (c k) /\
           Ieee.CombinedTargetMSELoss.regression_mse
             (Ieee.CombinedTargetMSELoss.heatmap_gt m)
             (Ieee.CombinedTargetMSELoss.offset_x_pred m)
             (Ieee.CombinedTargetMSELoss.offset_x_gt m)
           = Ok (Ieee.XFin 0%Qc) /\
           Ieee.CombinedTargetMSELoss.regression_mse
             (Ieee.CombinedTargetMSELoss.heatmap_gt m)
             (Ieee.CombinedTargetMSELoss.offset_y_pred m)
             (Ieee.CombinedTargetMSELoss.offset_y_gt m)
           = Ok (Ieee.XFin 0%Qc)) /\
      Ieee.CombinedTargetMSELoss.forward
        (Ieee.CombinedTargetMSELoss.mk u (Ieee.XFin lw)) output target tw
      = Ok (classification_loss c K (Ieee.XFin lw)).
Proof.
  intros u lw B K H W o g w tw HB HK HHW Htw FO FG FW Hz output target.
  assert (FW' : forall ws, u = true -> tw = Some ws -> finite_weights ws).
  { intros ws Hu E. rewrite (Htw Hu) in E. now injection E as <-. }
  destruct (CombinedTargetMSELossFacts.forward_regression_masked u lw B K H W
              (fun b k h x => finite_part (o b k h x))
              (fun b k h x => finite_part (g b k h x))
              (fun b k => finite_part (w b k))
              (option_map rational_weights tw) HB HK HHW)
    as (hps0 & hgs0 & c0 & Ep0 & Eg0 & Terms & Ef).
  { intros Hu. now rewrite (Htw Hu). }
  { intros b k h x Hb Hk Hh Hx. now rewrite Hz. }
  destruct (related_value _ _ _ hps0
              (refines_split_channels _ _ B (K * 3)
                 (refines_heatmaps output FO)) Ep0) as (hps & Ep & Rp).
  destruct (related_value _ _ _ hgs0
              (refines_split_channels _ _ B (K * 3)
                 (refines_heatmaps target FG)) Eg0) as (hgs & Eg & Rg).
  exists hps, hgs, (fun k => Ieee.XFin (c0 k)).
  split; [exact Ep|]. split; [exact Eg|]. split.
  - intros k Hk. destruct (Terms k Hk) as (m0 & Em0 & Ec0 & Ex0 & Ey0).
    destruct (related_value _ _ _ m0
                (refines_keypoint_maps u hps hps0 hgs hgs0 tw k Rp Rg FW')
                Em0) as (m & Em & Rm).
    exists m. split; [exact Em|].
    pose proof Rm as (R1 & R2 & R3 & R4 & R5 & R6).
    destruct (related_value _ _ _ _ (refines_classification_mse m m0 Rm) Ec0)
      as (V & EV & ->).
    destruct (related_value _ _ _ _
                (refines_regression_mse _ _ _ _ _ _ R2 R3 R4) Ex0)
      as (X & EX & ->).
    destruct (related_value _ _ _ _
                (refines_regression_mse _ _ _ _ _ _ R2 R5 R6) Ey0)
      as (Y & EY & ->).
    repeat split; assumption.
  - destruct (related_value _ _ _ _
                (combined_target_finite u lw output target tw FO FG FW') Ef)
      as (V & EV & ->).
    rewrite EV. cbn [Ieee.of_float]. now rewrite classification_loss_finite.
Qed.

Lemma combined_target_regression_masked_witness :
  let o := fun b k (_ _ : nat) => Ieee.XFin (qn (b + k)) in
  let g := fun (_ : nat) k (_ _ : nat) => Ieee.XFin (qn k) in
  let w := fun b (_ : nat) => Ieee.XFin (qn b) in
  let output := Ieee.mkHeatmaps 2 3 1 1 o in
  let target := Ieee.mkHeatmaps 2 3 1 1 g in
  let tw := Some (Ieee.mkWeights 2 1 w) in
  exists (heatmaps_pred heatmaps_gt : list (Tensor Ieee.xfloat))
         (c : nat -> Ieee.xfloat),
    Ieee.CombinedTargetMSELoss.split_channels
      (Ieee.heatmaps_tensor output) 2 3 = Ok heatmaps_pred /\
    Ieee.CombinedTargetMSELoss.split_channels
      (Ieee.heatmaps_tensor target) 2 3 = Ok heatmaps_gt /\
    (forall k, k < 1 ->
       exists m,
         Ieee.CombinedTargetMSELoss.keypoint_maps true heatmaps_pred
           heatmaps_gt tw k = Ok m /\
         Ieee.CombinedTargetMSELoss.classification_mse m = Ok (c k) /\
         Ieee.CombinedTargetMSELoss.regression_mse
           (Ieee.CombinedTargetMSELoss.heatmap_gt m)
           (Ieee.CombinedTargetMSELoss.offset_x_pred m)
           (Ieee.CombinedTargetMSELoss.offset_x_gt m)
         = Ok (Ieee.XFin 0%Qc) /\
         Ieee.CombinedTargetMSELoss.regression_mse
           (Ieee.CombinedTargetMSELoss.heatmap_gt m)
           (Ieee.CombinedTargetMSELoss.offset_y_pred m)
           (Ieee.CombinedTargetMSELoss.offset_y_gt m)
         = Ok (Ieee.XFin 0%Qc)) /\
    Ieee.CombinedTargetMSELoss.forward
      (Ieee.CombinedTargetMSELoss.mk true (Ieee.XFin (qn 2))) output target tw
    = Ok (classification_loss c 1 (Ieee.XFin (qn 2))).
Proof.
  apply (combined_target_regression_masked true (qn 2) 2 1 1 1
           (fun b k _ _ => Ieee.XFin (qn (b + k)))
           (fun _ k _ _ => Ieee.XFin (qn k)) (fun b _ => Ieee.XFin (qn b))
           (Some (Ieee.mkWeights 2 1 (fun b _ => Ieee.XFin (qn b)))));
    try lia.
  - reflexivity.
  - intros b k h x _ _ _ _. reflexivity.
  - intros b k h x _ _ _ _. reflexivity.
  - intros b k _ _. reflexivity.
  - intros b k h x Hb Hk Hh Hx. assert (k = 0) by lia. subst k. reflexivity.
Defined.

(** Every ground truth value is 0 and one predicted x offset is [inf]:
    the classification term is 0, the product of the ground truth and
    the offset is [0 * inf], the x regression term and the loss are
    NaN. *)
Lemma combined_target_regression_infinite_offset :
  exists (heatmaps_pred heatmaps_gt : list (Tensor Ieee.xfloat))
         (m : Ieee.CombinedTargetMSELoss.maps),
    (forall b c h x, Ieee.hm_at masked_target b c h x = Ieee.XFin 0%Qc) /\
    Ieee.CombinedTargetMSELoss.split_channels
      (Ieee.heatmaps_tensor infinite_offset_output) 1 3 = Ok heatmaps_pred /\
    Ieee.CombinedTargetMSELoss.split_channels
      (Ieee.heatmaps_tensor masked_target) 1 3 = Ok heatmaps_gt /\
    Ieee.CombinedTargetMSELoss.keypoint_maps false heatmaps_pred heatmaps_gt
      None 0 = Ok m /\
    Ieee.CombinedTargetMSELoss.classification_mse m = Ok (Ieee.XFin 0%Qc) /\
    Ieee.CombinedTargetMSELoss.regression_mse
      (Ieee.CombinedTargetMSELoss.heatmap_gt m)
      (Ieee.CombinedTargetMSELoss.offset_x_pred m)
      (Ieee.CombinedTargetMSELoss.offset_x_gt m)
    = Ok Ieee.XNaN /\
    Ieee.CombinedTargetMSELoss.forward
      (Ieee.CombinedTargetMSELoss.mk false (Ieee.XFin 1%Qc))
      infinite_offset_output masked_target None
    = Ok Ieee.XNaN.
Proof.
  do 3 eexists. split; [reflexivity|].
  split; [reflexivity|]. split; [reflexivity|]. split; [reflexivity|].
  split; [|split; vm_compute; reflexivity].
  vm_compute. do 2 f_equal. apply Qc_is_canon. reflexivity.
Qed.
